(** * PAROL6 operator console: kinematics engine and motion loops

    A shallow embedding of [gui/cartesian.py] and [gui/jog.py], of the
    errors view ([gui/errors.py]), of the serial communicator
    ([gui/communication.py]) and of the callbacks of [main.py] that tie
    them together.

    Numbers: the source computes on IEEE doubles; here every float is
    read as the real number it denotes and arithmetic is exact ([R]).
    Exceptions are [option] ([None] = the Python call raised).
    Wall-clock time enters as an explicit timestamp argument.
    The kinematic chain (the ikpy [Chain] object) is a record of
    functions, exactly the shape of the duck-typed stand-in that
    [_setup_mock_chain] builds. *)

From Stdlib Require Import Reals Lra Lia List Ascii String DecimalString Bool Arith ZArith.
Import ListNotations.
Local Open Scope R_scope.

(** ** Python and numpy primitives *)

Module Py.

(** Float [x % m] for a positive modulus: [x - m * floor (x / m)]. *)
Definition py_mod (x m : R) : R := x - IZR (Int_part (x / m)) * m.

(** [np.clip(x, lo, hi)] is [minimum(maximum(x, lo), hi)]. *)
Definition np_clip (x lo hi : R) : R := Rmin (Rmax x lo) hi.

Definition np_radians (deg : R) : R := deg * PI / 180.

Definition np_degrees (rad : R) : R := rad * 180 / PI.

(** [l[i] = v]; [None] is the IndexError of an out-of-range index. *)
Fixpoint list_set (i : nat) (v : R) (l : list R) : option (list R) :=
  match l, i with
  | [], _ => None
  | _ :: t, O => Some (v :: t)
  | h :: t, S j => option_map (cons h) (list_set j v t)
  end.

Definition np_zeros (n : nat) : list R := repeat 0 n.

(** Ceiling division [-(-n // k)] used by [np.resize]. *)
Definition ceil_div (n k : nat) : nat := (n + k - 1) / k.

(** The function [np.resize(a, n)] (not the in-place method): an empty
    input gives zeros; otherwise [a] is concatenated with itself
    [ceil (n / len a)] times and cut to [n] elements. *)
Definition np_resize (a : list R) (n : nat) : list R :=
  match a with
  | [] => np_zeros n
  | _ => firstn n (List.concat (repeat a (ceil_div n (List.length a))))
  end.

(** [np.compress(mask, v)]: the elements of [v] at the true positions
    of [mask]; a true position past the end of [v] raises. *)
Fixpoint np_compress (mask : list bool) (v : list R) : option (list R) :=
  match mask with
  | [] => Some []
  | true :: m =>
      match v with
      | [] => None
      | x :: v' => option_map (cons x) (np_compress m v')
      end
  | false :: m => np_compress m (tl v)
  end.

(** Number of true entries of a mask. *)
Definition count_true (mask : list bool) : nat :=
  List.length (filter (fun b => b) mask).

Definition sum_sq (v : list R) : R := fold_right (fun x acc => x * x + acc) 0 v.

(** [np.linalg.norm] of a vector. *)
Definition np_norm (v : list R) : R := sqrt (sum_sq v).

(** Element-wise array arithmetic on equal-length arrays. *)
Fixpoint vsub (a b : list R) : list R :=
  match a, b with
  | x :: a', y :: b' => (x - y) :: vsub a' b'
  | _, _ => []
  end.

Fixpoint vadd (a b : list R) : list R :=
  match a, b with
  | x :: a', y :: b' => (x + y) :: vadd a' b'
  | _, _ => []
  end.

Definition vscale (k : R) (a : list R) : list R := map (fun x => x * k) a.

Definition vdiv (a : list R) (k : R) : list R := map (fun x => x / k) a.

(** [max(l)] of a non-empty list. *)
Definition py_max (l : list R) : option R :=
  match l with
  | [] => None
  | x :: t => Some (fold_left Rmax t x)
  end.

(** Insertion-ordered [dict] with string keys. *)
Definition dict := list (string * R).

Fixpoint dict_get (k : string) (d : dict) : option R :=
  match d with
  | [] => None
  | (k', v) :: t => if String.eqb k k' then Some v else dict_get k t
  end.

Fixpoint dict_set (k : string) (v : R) (d : dict) : dict :=
  match d with
  | [] => [(k, v)]
  | (k', v') :: t =>
      if String.eqb k k' then (k', v) :: t else (k', v') :: dict_set k v t
  end.

(** [for i in idxs: s = body i s]; a raising body leaves the loop with
    the updates made so far, the flag records whether it ran through. *)
Fixpoint for_each {S : Type} (idxs : list nat) (body : nat -> S -> option S) (s : S)
  : S * bool :=
  match idxs with
  | [] => (s, true)
  | i :: rest =>
      match body i s with
      | Some s' => for_each rest body s'
      | None => (s, false)
      end
  end.

(** [[f i for i in idxs]]; raises as soon as one element does. *)
Fixpoint comprehension (idxs : list nat) (f : nat -> option R) : option (list R) :=
  match idxs with
  | [] => Some []
  | i :: rest =>
      match f i with
      | None => None
      | Some x => option_map (cons x) (comprehension rest f)
      end
  end.

(** The key [f"J{i+1}"]. *)
Definition joint_key (i : nat) : string :=
  String.append "J" (NilEmpty.string_of_uint (Nat.to_uint (S i))).

Definition Rltb (x y : R) : bool := if Rlt_dec x y then true else false.

End Py.
Import Py.

(** ** Vectors and matrices *)

Record Vec3 := mkVec3 { vx : R; vy : R; vz : R }.

Record Mat3 := mkMat3 { row1 : Vec3; row2 : Vec3; row3 : Vec3 }.

(** A 4x4 homogeneous matrix: the blocks [m[:3,:3]] and [m[:3,3]] and
    the bottom row. *)
Record Mat4 := mkMat4 { m_rot : Mat3; m_pos : Vec3; m_bottom : R * R * R * R }.

Definition vec3_zero : Vec3 := mkVec3 0 0 0.

Definition vec3_add (a b : Vec3) : Vec3 :=
  mkVec3 (vx a + vx b) (vy a + vy b) (vz a + vz b).

Definition vec3_sub (a b : Vec3) : Vec3 :=
  mkVec3 (vx a - vx b) (vy a - vy b) (vz a - vz b).

Definition vec3_div (a : Vec3) (k : R) : Vec3 :=
  mkVec3 (vx a / k) (vy a / k) (vz a / k).

Definition dot (a b : Vec3) : R := vx a * vx b + vy a * vy b + vz a * vz b.

Definition mat3_eye : Mat3 :=
  mkMat3 (mkVec3 1 0 0) (mkVec3 0 1 0) (mkVec3 0 0 1).

Definition col1 (m : Mat3) : Vec3 := mkVec3 (vx (row1 m)) (vx (row2 m)) (vx (row3 m)).
Definition col2 (m : Mat3) : Vec3 := mkVec3 (vy (row1 m)) (vy (row2 m)) (vy (row3 m)).
Definition col3 (m : Mat3) : Vec3 := mkVec3 (vz (row1 m)) (vz (row2 m)) (vz (row3 m)).

(** [m @ v] *)
Definition mat_vec (m : Mat3) (v : Vec3) : Vec3 :=
  mkVec3 (dot (row1 m) v) (dot (row2 m) v) (dot (row3 m) v).

(** [a @ b] *)
Definition mat_mul (a b : Mat3) : Mat3 :=
  let r := fun ra => mkVec3 (dot ra (col1 b)) (dot ra (col2 b)) (dot ra (col3 b)) in
  mkMat3 (r (row1 a)) (r (row2 a)) (r (row3 a)).

Definition det3 (m : Mat3) : R :=
  let '(mkMat3 (mkVec3 a b c) (mkVec3 d e f) (mkVec3 g h i)) := m in
  a * (e * i - f * h) - b * (d * i - f * g) + c * (d * h - e * g).

(** [np.linalg.inv]: raises on a singular matrix. *)
Definition np_linalg_inv (m : Mat3) : option Mat3 :=
  let '(mkMat3 (mkVec3 a b c) (mkVec3 d e f) (mkVec3 g h i)) := m in
  let dt := det3 m in
  if Req_dec_T dt 0 then None
  else Some (mkMat3
    (mkVec3 ((e * i - f * h) / dt) ((c * h - b * i) / dt) ((b * f - c * e) / dt))
    (mkVec3 ((f * g - d * i) / dt) ((a * i - c * g) / dt) ((c * d - a * f) / dt))
    (mkVec3 ((d * h - e * g) / dt) ((b * g - a * h) / dt) ((a * e - b * d) / dt))).

Definition mat4_eye : Mat4 := mkMat4 mat3_eye vec3_zero (0, 0, 0, 1).

(** scipy [Rotation.from_euler(axis, angle).as_matrix()], one axis,
    angle in radians. *)
Definition rot_x (t : R) : Mat3 :=
  mkMat3 (mkVec3 1 0 0) (mkVec3 0 (cos t) (- sin t)) (mkVec3 0 (sin t) (cos t)).

Definition rot_y (t : R) : Mat3 :=
  mkMat3 (mkVec3 (cos t) 0 (sin t)) (mkVec3 0 1 0) (mkVec3 (- sin t) 0 (cos t)).

Definition rot_z (t : R) : Mat3 :=
  mkMat3 (mkVec3 (cos t) (- sin t) 0) (mkVec3 (sin t) (cos t) 0) (mkVec3 0 0 1).

(** [Rotation.from_euler('xyz', rpy, degrees=True).as_matrix()]:
    lower-case axes are extrinsic, so the matrix is [Rz @ Ry @ Rx]. *)
Definition from_euler_xyz_deg (rpy : Vec3) : Mat3 :=
  mat_mul (rot_z (np_radians (vz rpy)))
    (mat_mul (rot_y (np_radians (vy rpy))) (rot_x (np_radians (vx rpy)))).

(** ** gui/cartesian.py *)

Module Cartesian.

(** *** The kinematic chain (ikpy collaborator) *)

(** [link.joint_type] of an ikpy link. *)
Inductive joint_type := JFixed | JRevolute | JPrismatic.

(** The chain object as the engine uses it: its link list and the two
    solver entry points.  [chain_inverse_kinematics] is called with the
    flange target position, the flange target orientation
    ([orientation_mode='all']) and the full-chain initial position; it
    may raise. *)
Record Chain := mkChain {
  links : list joint_type;
  chain_forward_kinematics : list R -> Mat4;
  chain_inverse_kinematics : Vec3 -> Mat3 -> list R -> option (list R) }.

(** The stand-in of [_setup_mock_chain]. *)
Definition mock_chain : Chain :=
  mkChain [] (fun _ => mat4_eye) (fun _ _ _ => Some (np_zeros 8)).

(** *** Tool dictionary *)

Definition ROBOT_TOOLS : list (string * (Vec3 * Vec3)) :=
  [ ("CHWYTAK_MALY"%string, (mkVec3 0.100 0 (-0.090), mkVec3 0 (-180) 0));
    ("CHWYTAK_DUZY"%string, (mkVec3 0 0 (-0.18831), mkVec3 0 (-90) 0)) ].

Fixpoint tools_get (name : string) (tools : list (string * (Vec3 * Vec3)))
  : option (Vec3 * Vec3) :=
  match tools with
  | [] => None
  | (n, t) :: rest => if String.eqb name n then Some t else tools_get name rest
  end.

(** *** KinematicsEngine *)

(** [active_links_mask] is [None] when the attribute was never
    assigned (the constructor's except branch). *)
Record KinematicsEngine := mkEngine {
  chain : Chain;
  active_links_mask : option (list bool);
  n_active_joints : nat;
  tool_translation : Vec3;
  tool_rotation_matrix : Mat3;
  current_tool : string;
  world_offset : Vec3 }.

Definition set_tool (eng : KinematicsEngine) (tool_name : string) : KinematicsEngine :=
  match tools_get tool_name ROBOT_TOOLS with
  | None => eng
  | Some (translation, rpy) =>
      mkEngine (chain eng) (active_links_mask eng) (n_active_joints eng)
        translation (from_euler_xyz_deg rpy) tool_name (world_offset eng)
  end.

Definition auto_mask (ls : list joint_type) : list bool :=
  map (fun l => match l with JFixed => false | _ => true end) ls.

(** [KinematicsEngine.__init__]; [loaded] is the outcome of
    [Chain.from_urdf_file] ([None] when it raised). *)
Definition KinematicsEngine_init (loaded : option Chain) : KinematicsEngine :=
  match loaded with
  | Some c =>
      set_tool
        (mkEngine c (Some (auto_mask (links c))) 6 vec3_zero mat3_eye "NONE" vec3_zero)
        "CHWYTAK_MALY"
  | None => mkEngine mock_chain None 6 vec3_zero mat3_eye "NONE" vec3_zero
  end.

(** The length shim at the head of [_active_to_full]. *)
Definition coerce_active (active_joints : list R) : list R :=
  let arr := if Nat.eqb (List.length active_joints) 7 then tl active_joints
             else active_joints in
  if negb (Nat.eqb (List.length arr) 6) then np_resize arr 6 else arr.

(** The scatter loop of [_active_to_full]: [i] is the enumerate index,
    [curr] the read cursor. *)
Fixpoint scatter (mask : list bool) (i curr : nat) (arr full : list R)
  : option (list R) :=
  match mask with
  | [] => Some full
  | act :: rest =>
      if act && (curr <? 6)%nat then
        match nth_error arr curr with
        | None => None
        | Some v =>
            match list_set i v full with
            | None => None
            | Some full' => scatter rest (S i) (S curr) arr full'
            end
        end
      else scatter rest (S i) curr arr full
  end.

Definition _active_to_full (eng : KinematicsEngine) (active_joints : list R)
  : option (list R) :=
  let arr := coerce_active active_joints in
  let full := np_zeros (List.length (links (chain eng))) in
  match active_links_mask eng with
  | None => None
  | Some mask => scatter mask 0 0 arr full
  end.

Definition _full_to_active (eng : KinematicsEngine) (full_vector : list R)
  : option (list R) :=
  match active_links_mask eng with
  | None => None
  | Some [] => Some (np_zeros 6)
  | Some mask => np_compress mask full_vector
  end.

Definition forward_kinematics (eng : KinematicsEngine) (active_angles : list R)
  : option Mat4 :=
  match _active_to_full eng active_angles with
  | None => None
  | Some full_joints =>
      let flange_matrix := chain_forward_kinematics (chain eng) full_joints in
      let R_flange := m_rot flange_matrix in
      let P_flange := m_pos flange_matrix in
      let offset_global := mat_vec R_flange (tool_translation eng) in
      let P_tcp := vec3_add (vec3_add P_flange offset_global) (world_offset eng) in
      Some (mkMat4 (mat_mul R_flange (tool_rotation_matrix eng)) P_tcp (0, 0, 0, 1))
  end.

Definition inverse_kinematics (eng : KinematicsEngine) (target_position : Vec3)
  (target_orientation : Mat3) (initial_guess : option (list R)) : option (list R) :=
  let initial_guess := match initial_guess with Some g => g | None => np_zeros 6 end in
  let target_raw := vec3_sub target_position (world_offset eng) in
  match np_linalg_inv (tool_rotation_matrix eng) with
  | None => None
  | Some inv_tool =>
      let flange_rot_matrix := mat_mul target_orientation inv_tool in
      let offset_global := mat_vec flange_rot_matrix (tool_translation eng) in
      let target_pos_flange := vec3_sub target_raw offset_global in
      match _active_to_full eng initial_guess with
      | None => None
      | Some full_guess =>
          match chain_inverse_kinematics (chain eng) target_pos_flange
                  flange_rot_matrix full_guess with
          | None => None
          | Some full_sol => _full_to_active eng full_sol
          end
      end
  end.

(** *** CartesianView *)

Inductive axis := AxX | AxY | AxZ | AxRX | AxRY | AxRZ.

Inductive direction := Plus | Minus.

(** A worker started with [threading.Thread(...).start()]. *)
Inductive thread :=
  | JogThread (a : axis) (d : direction)
  | MoveThread (target_joints_rad : list R).

(** What goes out on the serial line. *)
Inductive message :=
  | MsgJoints (vals_deg : list R)
  | MsgText (s : string).

(** Which collaborators the view holds: [self.page], [self.on_error],
    [self.uart], and whether [self.uart.is_open()]. *)
Record Collaborators := mkCollab {
  has_page : bool;
  has_on_error : bool;
  has_uart : bool;
  uart_is_open : bool }.

(** The view's fields and what it did to its collaborators: the codes
    handed to [on_error], the dialog put on the page, the frames sent
    (newest first). *)
Record CartesianView := mkView {
  ik : KinematicsEngine;
  is_jogging : bool;
  is_robot_homed : bool;
  alive : bool;
  commanded_joints : list R;
  feedback_joints_deg : list R;
  jog_speed_percent : R;
  last_jog_time : R;
  env : Collaborators;
  error_log : list string;
  dialog : option string;
  uart_log : list message }.

Definition CartesianView_init (loaded : option Chain) (e : Collaborators)
  : CartesianView :=
  mkView (KinematicsEngine_init loaded) false false true (np_zeros 6) (np_zeros 6)
    50 0 e [] None [].

Definition with_is_jogging (b : bool) (s : CartesianView) : CartesianView :=
  mkView (ik s) b (is_robot_homed s) (alive s) (commanded_joints s)
    (feedback_joints_deg s) (jog_speed_percent s) (last_jog_time s) (env s)
    (error_log s) (dialog s) (uart_log s).

Definition with_homed (b : bool) (s : CartesianView) : CartesianView :=
  mkView (ik s) (is_jogging s) b (alive s) (commanded_joints s)
    (feedback_joints_deg s) (jog_speed_percent s) (last_jog_time s) (env s)
    (error_log s) (dialog s) (uart_log s).

Definition with_commanded (c : list R) (s : CartesianView) : CartesianView :=
  mkView (ik s) (is_jogging s) (is_robot_homed s) (alive s) c
    (feedback_joints_deg s) (jog_speed_percent s) (last_jog_time s) (env s)
    (error_log s) (dialog s) (uart_log s).

Definition with_feedback (f : list R) (s : CartesianView) : CartesianView :=
  mkView (ik s) (is_jogging s) (is_robot_homed s) (alive s) (commanded_joints s)
    f (jog_speed_percent s) (last_jog_time s) (env s)
    (error_log s) (dialog s) (uart_log s).

Definition with_speed (v : R) (s : CartesianView) : CartesianView :=
  mkView (ik s) (is_jogging s) (is_robot_homed s) (alive s) (commanded_joints s)
    (feedback_joints_deg s) v (last_jog_time s) (env s)
    (error_log s) (dialog s) (uart_log s).

Definition with_last_jog_time (t : R) (s : CartesianView) : CartesianView :=
  mkView (ik s) (is_jogging s) (is_robot_homed s) (alive s) (commanded_joints s)
    (feedback_joints_deg s) (jog_speed_percent s) t (env s)
    (error_log s) (dialog s) (uart_log s).

Definition with_error_log (l : list string) (s : CartesianView) : CartesianView :=
  mkView (ik s) (is_jogging s) (is_robot_homed s) (alive s) (commanded_joints s)
    (feedback_joints_deg s) (jog_speed_percent s) (last_jog_time s) (env s)
    l (dialog s) (uart_log s).

Definition with_dialog (d : option string) (s : CartesianView) : CartesianView :=
  mkView (ik s) (is_jogging s) (is_robot_homed s) (alive s) (commanded_joints s)
    (feedback_joints_deg s) (jog_speed_percent s) (last_jog_time s) (env s)
    (error_log s) d (uart_log s).

Definition with_uart_log (l : list message) (s : CartesianView) : CartesianView :=
  mkView (ik s) (is_jogging s) (is_robot_homed s) (alive s) (commanded_joints s)
    (feedback_joints_deg s) (jog_speed_percent s) (last_jog_time s) (env s)
    (error_log s) (dialog s) l.

(** [if self.on_error: self.on_error(code)] *)
Definition report (code : string) (s : CartesianView) : CartesianView :=
  if has_on_error (env s) then with_error_log (code :: error_log s) s else s.

(** [self.uart.send_message(m)] *)
Definition send_message (m : message) (s : CartesianView) : CartesianView :=
  with_uart_log (m :: uart_log s) s.

Definition send_current_pose (s : CartesianView) : CartesianView :=
  if has_uart (env s) && uart_is_open (env s)
  then send_message (MsgJoints (map np_degrees (commanded_joints s))) s
  else s.

Definition change_speed (delta : R) (s : CartesianView) : CartesianView :=
  with_speed (Rmax 10 (Rmin 100 (jog_speed_percent s + delta))) s.

Definition set_homed_status (is_homed : bool) (s : CartesianView) : CartesianView :=
  with_homed is_homed s.

Definition show_homing_required_dialog (s : CartesianView) : CartesianView :=
  if negb (has_page (env s)) then s
  else with_dialog (Some "HOMING REQUIRED"%string) (report "E1" s).

Definition on_jog_start (a : axis) (d : direction) (s : CartesianView)
  : CartesianView * option thread :=
  if negb (is_robot_homed s) then (show_homing_required_dialog s, None)
  else if is_jogging s then (s, None)
  else (with_is_jogging true s, Some (JogThread a d)).

(** [now] is the value [time.time()] returns. *)
Definition on_jog_stop (now : R) (s : CartesianView) : CartesianView :=
  with_last_jog_time now (with_is_jogging false s).

Definition on_stop_click (s : CartesianView) : CartesianView :=
  let s1 := with_is_jogging false (report "W1" s) in
  if has_uart (env s1) then send_message (MsgText "EGRIP_STOP") s1 else s1.

Definition _animate_move (target_joints_rad : list R) (s : CartesianView)
  : CartesianView * option thread :=
  if is_jogging s then (s, None)
  else (with_is_jogging true s, Some (MoveThread target_joints_rad)).

Definition SAFETY_TARGET_DEG : list R := [0; -50; 70; 90; 0; 0].

Definition on_safety_click (s : CartesianView) : CartesianView * option thread :=
  _animate_move (map np_radians SAFETY_TARGET_DEG) (report "W2" s).

Definition on_standby_click (s : CartesianView) : CartesianView * option thread :=
  _animate_move (np_zeros 6) s.


(** [update_from_feedback]; [now] is what [time.time()] returns.  The
    whole body sits in one try block: a raising statement ends the call
    and keeps what was already written. *)
Definition update_from_feedback (joint_values : dict) (now : R) (s : CartesianView)
  : CartesianView :=
  let '(fb, ok) :=
    for_each (seq 0 6)
      (fun i fb => match dict_get (joint_key i) joint_values with
                   | Some v => list_set i v fb
                   | None => Some fb
                   end)
      (feedback_joints_deg s) in
  let s1 := with_feedback fb s in
  if negb ok then s1
  else if is_jogging s1 then s1
  else if Rltb (now - last_jog_time s1) 1.5 then s1
  else
    let feedback_rad := map np_radians fb in
    let '(cmd, _) :=
      for_each (seq 0 6)
        (fun i cmd =>
           match nth_error cmd i, nth_error feedback_rad i with
           | Some c, Some f =>
               if Rltb (np_radians 0.5) (Rabs (c - f)) then list_set i f cmd
               else Some cmd
           | _, _ => None
           end)
        (commanded_joints s1) in
    with_commanded cmd s1.

(** The state change in one pass of [_update_loop] (label refresh and
    sleep left out). *)
Definition _update_loop_pass (s : CartesianView) : CartesianView :=
  if negb (is_jogging s) then
    let has_zeros := forallb (fun v => Rltb (Rabs v) 0.001) (commanded_joints s) in
    let has_feedback := existsb (fun v => Rltb 0.01 (Rabs v)) (feedback_joints_deg s) in
    if has_zeros && has_feedback
    then with_commanded (map np_radians (feedback_joints_deg s)) s
    else s
  else s.

(** *** Point-to-point move: the [run] closure of [_animate_move] *)

(** The worker between two passes: still looping, with its local
    [current_local], or gone. *)
Inductive run_state :=
  | Running (s : CartesianView) (current_local : list R)
  | Finished (s : CartesianView).

(** The [finally] clause. *)
Definition run_finally (now : R) (s : CartesianView) : CartesianView :=
  with_last_jog_time now (with_is_jogging false s).

(** One pass of the while loop of [run]; [now] is the clock reading
    used if the loop ends in this pass.  Both arrays have six entries
    in every run of the program; were their lengths to differ, the
    subtraction would raise and only [finally] would run. *)
Definition run_pass (target : list R) (now : R) (s : CartesianView)
  (current_local : list R) : run_state :=
  if is_jogging s && alive s then
    if negb (Nat.eqb (List.length target) (List.length current_local))
    then Finished (run_finally now s)
    else
      let diff := vsub target current_local in
      let dist := np_norm diff in
      if Rltb dist 0.005 then
        Finished (run_finally now (send_current_pose (with_commanded target s)))
      else
        let factor := jog_speed_percent s / 100 in
        let step_size := Rmin dist (0.075 * factor) in
        let current_local' :=
          vadd current_local (vscale step_size (vdiv diff dist)) in
        Running (send_current_pose (with_commanded current_local' s)) current_local'
  else Finished (run_finally now s).

(** The worker's entry: [current_local] is a copy of the commanded
    vector taken when the thread starts. *)
Definition run_start (s : CartesianView) : run_state :=
  Running s (commanded_joints s).

Definition run_step (target : list R) (now : R) (r : run_state) : run_state :=
  match r with
  | Running s cur => run_pass target now s cur
  | Finished s => Finished s
  end.

Fixpoint run_passes (n : nat) (target : list R) (now : R) (r : run_state) : run_state :=
  match n with
  | O => r
  | S k => run_passes k target now (run_step target now r)
  end.

Definition run_view (r : run_state) : CartesianView :=
  match r with Running s _ => s | Finished s => s end.

(** *** Cartesian jog: the loop body of [_jog_thread] *)

Definition BASE_STEP_MM : R := 2.0.
Definition BASE_STEP_RAD : R := 0.006.

(** [WORKSPACE_LIMITS['x']], [['y']], [['z']]. *)
Definition WORKSPACE_LIMITS_x : R * R := (-0.700, 0.700).
Definition WORKSPACE_LIMITS_y : R * R := (-0.700, 0.700).
Definition WORKSPACE_LIMITS_z : R * R := (-0.300, 0.900).

Definition sign_of (d : direction) : R :=
  match d with Plus => 1 | Minus => -1 end.

Definition normalize_angle (q : R) : R := py_mod (q + PI) (2 * PI) - PI.

(** The candidate target pose of one pass, from the TCP pose
    [current_tcp_matrix] of the commanded joints. *)
Definition jog_target (a : axis) (d : direction) (speed_percent : R)
  (current_tcp_matrix : Mat4) : Vec3 * Mat3 :=
  let sign := sign_of d in
  let factor := speed_percent / 100 in
  let step_mm := Rmax 0.2 (BASE_STEP_MM * factor) in
  let step_rad := Rmax 0.002 (BASE_STEP_RAD * factor) in
  let current_pos := m_pos current_tcp_matrix in
  let current_rot := m_rot current_tcp_matrix in
  let dx := match a with AxX => step_mm * sign | _ => 0 end in
  let dy := match a with AxY => step_mm * sign | _ => 0 end in
  let dz := match a with AxZ => step_mm * sign | _ => 0 end in
  let drx := match a with AxRX => step_rad * sign | _ => 0 end in
  let dry := match a with AxRY => step_rad * sign | _ => 0 end in
  let drz := match a with AxRZ => step_rad * sign | _ => 0 end in
  let target_pos := vec3_add current_pos (vec3_div (mkVec3 dx dy dz) 1000) in
  let target_pos :=
    mkVec3
      (np_clip (vx target_pos) (fst WORKSPACE_LIMITS_x) (snd WORKSPACE_LIMITS_x))
      (np_clip (vy target_pos) (fst WORKSPACE_LIMITS_y) (snd WORKSPACE_LIMITS_y))
      (np_clip (vz target_pos) (fst WORKSPACE_LIMITS_z) (snd WORKSPACE_LIMITS_z)) in
  let target_rot :=
    match a with
    | AxRX => mat_mul current_rot (rot_x drx)
    | AxRY => mat_mul current_rot (rot_y dry)
    | AxRZ => mat_mul current_rot (rot_z drz)
    | _ => current_rot
    end in
  (target_pos, target_rot).

(** [[abs(nj_model[i] - current_raw[i]) for i in range(6)]] *)
Definition joint_diffs (nj_model current_raw : list R) : option (list R) :=
  comprehension (seq 0 6)
    (fun i => match nth_error nj_model i, nth_error current_raw i with
              | Some n, Some c => Some (Rabs (n - c))
              | _, _ => None
              end).

Definition blend_factor : R := 0.2.

Definition blended (nj_model current_raw : list R) : option (list R) :=
  comprehension (seq 0 6)
    (fun i => match nth_error nj_model i, nth_error current_raw i with
              | Some n, Some c => Some (c + blend_factor * (n - c))
              | _, _ => None
              end).

(** The try block of the pass.  [Some v]: [commanded_joints] was
    assigned [v].  [None]: no assignment, either because the step was
    rejected or because a statement raised and [except: pass] caught
    it. *)
Definition jog_try (eng : KinematicsEngine) (target_pos : Vec3) (target_rot : Mat3)
  (current_raw : list R) : option (list R) :=
  match inverse_kinematics eng target_pos target_rot (Some current_raw) with
  | None => None
  | Some sol =>
      let nj_model := map normalize_angle sol in
      match joint_diffs nj_model current_raw with
      | None => None
      | Some diffs =>
          match py_max diffs with
          | None => None
          | Some max_diff =>
              if Rltb max_diff 0.3 then Some nj_model
              else if Rltb max_diff 0.6 then blended nj_model current_raw
              else None
          end
      end
  end.

(** One pass of [while self.is_jogging] in [_jog_thread] (timing left
    out).  [None]: forward kinematics raised outside the try block and
    the exception leaves the thread. *)
Definition jog_pass (a : axis) (d : direction) (s : CartesianView)
  : option CartesianView :=
  let current_raw := commanded_joints s in
  match forward_kinematics (ik s) current_raw with
  | None => None
  | Some current_tcp_matrix =>
      let '(target_pos, target_rot) :=
        jog_target a d (jog_speed_percent s) current_tcp_matrix in
      let s1 := match jog_try (ik s) target_pos target_rot current_raw with
                | Some v => with_commanded v s
                | None => s
                end in
      Some (send_current_pose s1)
  end.

End Cartesian.

(** ** gui/jog.py *)

Module Jog.

Import Cartesian.

Definition joint_limits : list (string * (R * R)) :=
  [ ("J1", (-90, 90)); ("J2", (-50, 140)); ("J3", (-100, 70));
    ("J4", (-100, 180)); ("J5", (-120, 110)); ("J6", (-110, 180)) ]%string.

Fixpoint limits_get (k : string) (l : list (string * (R * R))) : option (R * R) :=
  match l with
  | [] => None
  | (k', v) :: t => if String.eqb k k' then Some v else limits_get k t
  end.

(** A worker started with [threading.Thread(...).start()]. *)
Inductive thread :=
  | JogThread (joint_code : string) (button_type : direction)
  | MoveThread (target_joints_deg : list R).

(** The view's fields (the display labels and the engine used only to
    fill them are left out) and what it did to its collaborators. *)
Record JogView := mkView {
  is_jogging : bool;
  speed_percent : R;
  is_robot_homed : bool;
  current_raw_values : dict;
  internal_target_values : dict;
  initial_sync_done : bool;
  env : Collaborators;
  error_log : list string;
  dialog : option string;
  uart_log : list message }.

(** [{ f"J{i}": 0.0 for i in range(1, 7) }] *)
Definition zero_joints : dict := map (fun i => (joint_key i, 0)) (seq 0 6).

Definition JogView_init (e : Collaborators) : JogView :=
  mkView false 50 false zero_joints zero_joints false e [] None [].

Definition with_is_jogging (b : bool) (s : JogView) : JogView :=
  mkView b (speed_percent s) (is_robot_homed s) (current_raw_values s)
    (internal_target_values s) (initial_sync_done s) (env s) (error_log s)
    (dialog s) (uart_log s).

Definition with_speed (v : R) (s : JogView) : JogView :=
  mkView (is_jogging s) v (is_robot_homed s) (current_raw_values s)
    (internal_target_values s) (initial_sync_done s) (env s) (error_log s)
    (dialog s) (uart_log s).

Definition with_homed (b : bool) (s : JogView) : JogView :=
  mkView (is_jogging s) (speed_percent s) b (current_raw_values s)
    (internal_target_values s) (initial_sync_done s) (env s) (error_log s)
    (dialog s) (uart_log s).

Definition with_raw (d : dict) (s : JogView) : JogView :=
  mkView (is_jogging s) (speed_percent s) (is_robot_homed s) d
    (internal_target_values s) (initial_sync_done s) (env s) (error_log s)
    (dialog s) (uart_log s).

Definition with_targets (d : dict) (s : JogView) : JogView :=
  mkView (is_jogging s) (speed_percent s) (is_robot_homed s) (current_raw_values s)
    d (initial_sync_done s) (env s) (error_log s) (dialog s) (uart_log s).

Definition with_sync_done (b : bool) (s : JogView) : JogView :=
  mkView (is_jogging s) (speed_percent s) (is_robot_homed s) (current_raw_values s)
    (internal_target_values s) b (env s) (error_log s) (dialog s) (uart_log s).

Definition with_error_log (l : list string) (s : JogView) : JogView :=
  mkView (is_jogging s) (speed_percent s) (is_robot_homed s) (current_raw_values s)
    (internal_target_values s) (initial_sync_done s) (env s) l (dialog s)
    (uart_log s).

Definition with_dialog (d : option string) (s : JogView) : JogView :=
  mkView (is_jogging s) (speed_percent s) (is_robot_homed s) (current_raw_values s)
    (internal_target_values s) (initial_sync_done s) (env s) (error_log s) d
    (uart_log s).

Definition with_uart_log (l : list message) (s : JogView) : JogView :=
  mkView (is_jogging s) (speed_percent s) (is_robot_homed s) (current_raw_values s)
    (internal_target_values s) (initial_sync_done s) (env s) (error_log s)
    (dialog s) l.

(** [if self.on_error: self.on_error(code)] *)
Definition report (code : string) (s : JogView) : JogView :=
  if has_on_error (env s) then with_error_log (code :: error_log s) s else s.

Definition send_message (m : message) (s : JogView) : JogView :=
  with_uart_log (m :: uart_log s) s.

(** [[self.internal_target_values.get(f"J{i}", 0.0) for i in range(1, 7)]] *)
Definition target_vals (s : JogView) : list R :=
  map (fun i => match dict_get (joint_key i) (internal_target_values s) with
                | Some v => v
                | None => 0
                end) (seq 0 6).

Definition send_all_joints (s : JogView) : JogView :=
  if has_uart (env s) && uart_is_open (env s)
  then send_message (MsgJoints (target_vals s)) s
  else s.

(** The loop body of [update_joints_and_fk] for one item [(k, v)]. *)
Definition update_item (kv : string * R) (s : JogView) : JogView :=
  let '(k, v) := kv in
  let corrected_val := - v in
  let s1 := with_raw (dict_set k corrected_val (current_raw_values s)) s in
  if negb (initial_sync_done s1)
  then with_targets (dict_set k corrected_val (internal_target_values s1)) s1
  else s1.

(** [update_joints_and_fk(joint_values)].  The jog and move loops call
    it with [self.internal_target_values] itself; the loop writes only
    under the key it is visiting, after reading that key's value, so
    iterating over the items the dict had at the call gives the same
    result as iterating over the dict being written. *)
Definition update_joints_and_fk (joint_values : dict) (s : JogView) : JogView :=
  let s1 := fold_left (fun st kv => update_item kv st) joint_values s in
  match joint_values with
  | [] => s1
  | _ => with_sync_done true s1
  end.

Definition STEP_INCREMENT : R := 0.5.

(** The clamped target computed in one pass of [_jog_thread]. *)
Definition jog_new_target (joint_code : string) (button_type : direction)
  (s : JogView) : R :=
  let current_target :=
    match dict_get joint_code (internal_target_values s) with
    | Some v => v
    | None => 0
    end in
  let button_dir := sign_of button_type in
  let delta := STEP_INCREMENT * button_dir in
  let new_target := current_target + delta in
  match limits_get joint_code joint_limits with
  | Some (min_limit, max_limit) =>
      if Rltb new_target min_limit then min_limit
      else if Rltb max_limit new_target then max_limit
      else new_target
  | None => new_target
  end.

(** The pass up to and including [send_all_joints]. *)
Definition jog_store (joint_code : string) (button_type : direction) (s : JogView)
  : JogView :=
  let new_target := jog_new_target joint_code button_type s in
  send_all_joints
    (with_targets (dict_set joint_code new_target (internal_target_values s)) s).

(** One pass of [while self.is_jogging] in [_jog_thread]. *)
Definition jog_pass (joint_code : string) (button_type : direction) (s : JogView)
  : JogView :=
  let s1 := jog_store joint_code button_type s in
  update_joints_and_fk (internal_target_values s1) s1.

Definition set_homed_status (is_homed : bool) (s : JogView) : JogView :=
  let s1 := with_homed is_homed s in
  if is_homed then with_sync_done true (with_targets zero_joints s1) else s1.

Definition show_homing_required_dialog (s : JogView) : JogView :=
  if negb (has_page (env s)) then s
  else with_dialog (Some "HOMING REQUIRED"%string) (report "E1" s).

Definition on_jog_start (joint_code : string) (d : direction) (s : JogView)
  : JogView * option thread :=
  if negb (is_robot_homed s) then (show_homing_required_dialog s, None)
  else if is_jogging s then (s, None)
  else (with_is_jogging true s, Some (JogThread joint_code d)).

Definition on_jog_stop (s : JogView) : JogView := with_is_jogging false s.

Definition on_stop_click (s : JogView) : JogView :=
  let s1 := report "W1" s in
  if has_uart (env s1)
  then with_is_jogging false (send_message (MsgText "EGRIP_STOP") s1)
  else s1.

Definition change_speed (delta : R) (s : JogView) : JogView :=
  with_speed (Rmax 10 (Rmin 100 (speed_percent s + delta))) s.

Definition _animate_move (target_joints_deg : list R) (s : JogView)
  : JogView * option thread :=
  if is_jogging s then (s, None)
  else (with_is_jogging true s, Some (MoveThread target_joints_deg)).

Definition on_standby_click (s : JogView) : JogView * option thread :=
  _animate_move (np_zeros 6) s.

Definition on_safety_click (s : JogView) : JogView * option thread :=
  _animate_move SAFETY_TARGET_DEG (report "W2" s).

(** *** Point-to-point move: the [run] closure of [_animate_move] *)

(** The worker between two passes: looping, ended normally, or killed
    by an exception (which skips the final [is_jogging = False]). *)
Inductive run_state :=
  | Running (s : JogView)
  | Finished (s : JogView)
  | Raised (s : JogView).

(** [[self.internal_target_values[f"J{i}"] for i in range(1, 7)]] *)
Definition read_targets (s : JogView) : option (list R) :=
  comprehension (seq 0 6) (fun i => dict_get (joint_key i) (internal_target_values s)).

(** [for i, val in enumerate(vals): self.internal_target_values[f"J{i+1}"] = val] *)
Fixpoint store_targets (i : nat) (vals : list R) (d : dict) : dict :=
  match vals with
  | [] => d
  | v :: rest => store_targets (S i) rest (dict_set (joint_key i) v d)
  end.

(** Store, send, refresh: the tail shared by both branches of a pass. *)
Definition commit (vals : list R) (s : JogView) : JogView :=
  let s1 := with_targets (store_targets 0 vals (internal_target_values s)) s in
  let s2 := send_all_joints s1 in
  update_joints_and_fk (internal_target_values s2) s2.

(** One pass of [while self.is_jogging] in [run]. *)
Definition run_pass (target : list R) (s : JogView) : run_state :=
  if is_jogging s then
    match read_targets s with
    | None => Raised s
    | Some current =>
        if negb (Nat.eqb (List.length target) (List.length current)) then Raised s
        else
          let diff := vsub target current in
          let dist := np_norm diff in
          if Rltb dist 0.1 then Finished (with_is_jogging false (commit target s))
          else
            let factor := speed_percent s / 100 in
            let step_size := Rmin dist (4.5 * factor) in
            let new_pos := vadd current (vscale step_size (vdiv diff dist)) in
            Running (commit new_pos s)
    end
  else Finished (with_is_jogging false s).

Definition run_step (target : list R) (r : run_state) : run_state :=
  match r with
  | Running s => run_pass target s
  | _ => r
  end.

Fixpoint run_passes (n : nat) (target : list R) (r : run_state) : run_state :=
  match n with
  | O => r
  | S k => run_passes k target (run_step target r)
  end.

Definition run_view (r : run_state) : JogView :=
  match r with Running s | Finished s | Raised s => s end.

(** Distance from the stored targets to [target], as the loop measures
    it. *)
Definition distance_to (target : list R) (s : JogView) : R :=
  np_norm (vsub target (target_vals s)).

End Jog.

(** ** A small concrete chain

    A fixed base link followed by three prismatic joints along the
    world axes and three revolute joints that do not move the flange:
    the flange sits at [(q1, q2, q3)] with identity orientation.  Its
    inverse kinematics is exact in position and keeps the wrist joints
    of the initial position. *)

Module Gantry.

Import Cartesian.

Definition gantry_links : list joint_type :=
  [JFixed; JPrismatic; JPrismatic; JPrismatic; JRevolute; JRevolute; JRevolute].

Definition gantry_fk (full : list R) : Mat4 :=
  mkMat4 mat3_eye (mkVec3 (nth 1 full 0) (nth 2 full 0) (nth 3 full 0)) (0, 0, 0, 1).

Definition gantry_ik (target_position : Vec3) (target_orientation : Mat3)
  (initial_position : list R) : option (list R) :=
  Some [0; vx target_position; vy target_position; vz target_position;
        nth 4 initial_position 0; nth 5 initial_position 0;
        nth 6 initial_position 0].

Definition gantry_chain : Chain := mkChain gantry_links gantry_fk gantry_ik.

Definition gantry_engine : KinematicsEngine := KinematicsEngine_init (Some gantry_chain).

Definition all_present : Collaborators := mkCollab true true true true.

(** A view on the gantry, homed or not, commanding the joints [q]. *)
Definition gantry_view (homed : bool) (q : list R) : CartesianView :=
  with_commanded q
    (set_homed_status homed (CartesianView_init (Some gantry_chain) all_present)).

End Gantry.

(** ** Python string methods

    Text is read as ASCII, one character per byte. *)

Module PyStr.

Local Open Scope string_scope.

(** [c.isspace()]: tab to carriage return, the separators 0x1c to
    0x1f, and space. *)
Definition is_space (c : ascii) : bool :=
  let n := nat_of_ascii c in
  ((9 <=? n)%nat && (n <=? 13)%nat) || ((28 <=? n)%nat && (n <=? 32)%nat).

Fixpoint lstrip (s : string) : string :=
  match s with
  | EmptyString => EmptyString
  | String c r => if is_space c then lstrip r else s
  end.

Fixpoint rstrip (s : string) : string :=
  match s with
  | EmptyString => EmptyString
  | String c r =>
      match rstrip r with
      | EmptyString => if is_space c then EmptyString else String c EmptyString
      | r' => String c r'
      end
  end.

(** [s.strip()] *)
Definition py_strip (s : string) : string := rstrip (lstrip s).

Definition upper_char (c : ascii) : ascii :=
  let n := nat_of_ascii c in
  if (97 <=? n)%nat && (n <=? 122)%nat then ascii_of_nat (n - 32) else c.

(** [s.upper()] *)
Fixpoint py_upper (s : string) : string :=
  match s with
  | EmptyString => EmptyString
  | String c r => String (upper_char c) (py_upper r)
  end.

(** [needle in hay] *)
Fixpoint contains (needle hay : string) : bool :=
  String.prefix needle hay
  || match hay with
     | EmptyString => false
     | String _ r => contains needle r
     end.

Definition newline : ascii := ascii_of_nat 10.

(** [s.split('\n')] *)
Fixpoint split_lines (s : string) : list string :=
  match s with
  | EmptyString => [EmptyString]
  | String c r =>
      if Ascii.eqb c newline then EmptyString :: split_lines r
      else match split_lines r with
           | h :: t => String c h :: t
           | [] => [String c EmptyString]
           end
  end.

Definition is_empty (s : string) : bool :=
  match s with EmptyString => true | _ => false end.

End PyStr.

(** ** gui/communication.py *)

Module Uart.

Import PyStr.
Local Open Scope string_scope.

(** The communicator: whether [serial_connection] is set and open, and
    what was written to it (newest first). *)
Record UARTCommunicator := mkUart {
  connection_open : bool;
  written : list string }.

Definition is_open (u : UARTCommunicator) : bool := connection_open u.

(** [send_message]: the return value and the communicator afterwards
    (a write that raises is not part of the model). *)
Definition send_message (message : string) (u : UARTCommunicator)
  : bool * UARTCommunicator :=
  if negb (is_open u) then (false, u)
  else
    let clean_message := py_strip message ++ String newline EmptyString in
    (true, mkUart (connection_open u) (clean_message :: written u)).

(** What one pass of [_read_loop] hands to [on_data_received] for the
    decoded chunk it read, in order. *)
Definition received_lines (decoded_chunk : string) : list string :=
  filter (fun line => negb (is_empty line)) (map py_strip (split_lines decoded_chunk)).

End Uart.

(** ** gui/errors.py *)

Module Errors.

Import PyStr.
Local Open Scope string_scope.

(** The level strings the program uses. *)
Inductive Level := ERROR | WARNING | INFO | NONE.

Definition ERROR_CODES : list (string * (Level * string)) :=
  [ ("E1", (ERROR, "Not Homed - Robot requires homing before movement"));
    ("E2", (ERROR, "E-STOP Active - Emergency stop button pressed"));
    ("E3", (ERROR, "Syntax Error - Error detected in program"));
    ("E4", (ERROR, "Port Disconnected - No connection to robot"));
    ("E5", (WARNING, "Limit Switch - Robot hit the limit switch"));
    ("W1", (WARNING, "Stop - STOP button pressed"));
    ("W2", (WARNING, "Safe Move - SAFETY button pressed"));
    ("OT1", (WARNING, "Overtemperature Sensor 1 - Temperature above normal"));
    ("OT2", (WARNING, "Overtemperature Sensor 2 - Temperature above normal"));
    ("OT3", (WARNING, "Overtemperature Sensor 3 - Temperature above normal"));
    ("OT4", (WARNING, "Overtemperature Sensor 4 - Temperature above normal"));
    ("CT1", (ERROR, "Critical Temperature Sensor 1 - Temperature critical"));
    ("CT2", (ERROR, "Critical Temperature Sensor 2 - Temperature critical"));
    ("CT3", (ERROR, "Critical Temperature Sensor 3 - Temperature critical"));
    ("CT4", (ERROR, "Critical Temperature Sensor 4 - Temperature critical"));
    ("EMM1", (ERROR, "Error Missing Motor 1 - Motor 1 not responding"));
    ("EMM2", (ERROR, "Error Missing Motor 2 - Motor 2 not responding"));
    ("EMM3", (ERROR, "Error Missing Motor 3 - Motor 3 not responding"));
    ("EMM4", (ERROR, "Error Missing Motor 4 - Motor 4 not responding"));
    ("EMM5", (ERROR, "Error Missing Motor 5 - Motor 5 not responding"));
    ("EMM6", (ERROR, "Error Missing Motor 6 - Motor 6 not responding"));
    ("IKE", (ERROR, "Inverse Kinematics Error - Position unreachable"));
    ("OOR1", (ERROR, "Out Of Range Joint 1 - Joint angle exceeds limits"));
    ("OOR2", (ERROR, "Out Of Range Joint 2 - Joint angle exceeds limits"));
    ("OOR3", (ERROR, "Out Of Range Joint 3 - Joint angle exceeds limits"));
    ("OOR4", (ERROR, "Out Of Range Joint 4 - Joint angle exceeds limits"));
    ("OOR5", (ERROR, "Out Of Range Joint 5 - Joint angle exceeds limits"));
    ("OOR6", (ERROR, "Out Of Range Joint 6 - Joint angle exceeds limits"));
    ("COM", (ERROR, "Communication Timeout - No response from controller"));
    ("COL", (ERROR, "Collision Detected - Unexpected resistance"));
    ("OVL", (ERROR, "Overload Detected - Motor current too high"));
    ("GRE", (ERROR, "Gripper Error - Gripper malfunction"));
    ("NRL1", (WARNING, "Near Limit Joint 1 - Approaching joint limit"));
    ("NRL2", (WARNING, "Near Limit Joint 2 - Approaching joint limit"));
    ("NRL3", (WARNING, "Near Limit Joint 3 - Approaching joint limit"));
    ("NRL4", (WARNING, "Near Limit Joint 4 - Approaching joint limit"));
    ("NRL5", (WARNING, "Near Limit Joint 5 - Approaching joint limit"));
    ("NRL6", (WARNING, "Near Limit Joint 6 - Approaching joint limit"));
    ("SLW", (WARNING, "Slow Response - Communication delay detected"));
    ("HMS", (WARNING, "Homing Skipped - Position confirmed manually"));
    ("CFG", (WARNING, "Config Mismatch - PC and controller config differ"));
    ("GRW", (WARNING, "Gripper Warning - Object not detected"));
    ("SPD", (WARNING, "Speed Limited - Speed automatically reduced"));
    ("STL1", (WARNING, "Stall Detected Motor 1 - Motor blocked"));
    ("STL2", (WARNING, "Stall Detected Motor 2 - Motor blocked"));
    ("STL3", (WARNING, "Stall Detected Motor 3 - Motor blocked"));
    ("STL4", (WARNING, "Stall Detected Motor 4 - Motor blocked"));
    ("STL5", (WARNING, "Stall Detected Motor 5 - Motor blocked"));
    ("STL6", (WARNING, "Stall Detected Motor 6 - Motor blocked"));
    ("HMD", (INFO, "Homing Done - Robot successfully homed"));
    ("CON", (INFO, "Connected - Communication established"));
    ("DIS", (INFO, "Disconnected - Communication closed"));
    ("RDY", (INFO, "Ready - Robot ready for operation"));
    ("PRG", (INFO, "Program Completed - Task finished successfully")) ].

Fixpoint codes_get (code : string) (t : list (string * (Level * string)))
  : option (Level * string) :=
  match t with
  | [] => None
  | (c, e) :: rest => if String.eqb code c then Some e else codes_get code rest
  end.

(** A row of the event log: timestamp text, level, message. *)
Record LogRow := mkRow {
  row_timestamp : string;
  row_level : Level;
  row_message : string }.

(** The view: the rows of [logs_list_view.controls] in order;
    [active_alarms], which maps a code to the timestamp text of its
    row, here the position of that row; whether the header shows
    SYSTEM OK; what was sent (newest first). *)
Record ErrorsView := mkErrors {
  logs : list LogRow;
  active_alarms : list (string * nat);
  system_ok : bool;
  sent : list string }.

Definition ErrorsView_init : ErrorsView := mkErrors [] [] true [].

Fixpoint alarms_get (code : string) (d : list (string * nat)) : option nat :=
  match d with
  | [] => None
  | (c, p) :: rest => if String.eqb code c then Some p else alarms_get code rest
  end.

Fixpoint alarms_set (code : string) (p : nat) (d : list (string * nat))
  : list (string * nat) :=
  match d with
  | [] => [(code, p)]
  | (c, p') :: rest =>
      if String.eqb code c then (c, p) :: rest else (c, p') :: alarms_set code p rest
  end.

(** [timestamp_text.value = v] on the row at position [p]. *)
Fixpoint set_row_timestamp (p : nat) (v : string) (rows : list LogRow) : list LogRow :=
  match rows, p with
  | [], _ => []
  | r :: rest, O => mkRow v (row_level r) (row_message r) :: rest
  | r :: rest, S q => r :: set_row_timestamp q v rest
  end.

Definition with_logs (l : list LogRow) (v : ErrorsView) : ErrorsView :=
  mkErrors l (active_alarms v) (system_ok v) (sent v).

Definition with_alarms (a : list (string * nat)) (v : ErrorsView) : ErrorsView :=
  mkErrors (logs v) a (system_ok v) (sent v).

Definition with_system_ok (b : bool) (v : ErrorsView) : ErrorsView :=
  mkErrors (logs v) (active_alarms v) b (sent v).

Definition with_sent (l : list string) (v : ErrorsView) : ErrorsView :=
  mkErrors (logs v) (active_alarms v) (system_ok v) l.

(** The view runs next to the state [A] of whoever registered
    [on_status_change]; a method maps the pair to the pair.  Every
    [timestamp] argument is the clock reading the method formats. *)
Section Methods.

Context {A : Type}.
Variable on_status_change : option (Level -> A -> A).

Definition _update_alert_status (level : Level) (st : ErrorsView * A)
  : ErrorsView * A :=
  let '(v, a) := st in
  (with_system_ok (match level with NONE => true | _ => false end) v,
   match on_status_change with
   | Some callback => callback level a
   | None => a
   end).

Definition add_log (level : Level) (message timestamp : string)
  (st : ErrorsView * A) : ErrorsView * A :=
  let '(v, a) :=
    match level with
    | ERROR => _update_alert_status ERROR st
    | WARNING => _update_alert_status WARNING st
    | _ => st
    end in
  (with_logs (logs v ++ [mkRow ("[" ++ timestamp ++ "]") level message]) v, a).

Definition _clear_logs (timestamp : string) (st : ErrorsView * A) : ErrorsView * A :=
  let '(v, a) := st in
  add_log INFO "Log cleared." timestamp (with_alarms [] (with_logs [] v), a).

Definition _add_alarm_log (code : string) (level : Level) (message timestamp : string)
  (st : ErrorsView * A) : ErrorsView * A :=
  let '(v, a) :=
    match level with
    | ERROR => _update_alert_status ERROR st
    | WARNING => _update_alert_status WARNING st
    | _ => st
    end in
  let v := with_alarms (alarms_set code (List.length (logs v)) (active_alarms v)) v in
  (with_logs (logs v ++ [mkRow ("[" ++ timestamp ++ "]") level message]) v, a).

Definition handle_error_code (code timestamp : string) (st : ErrorsView * A)
  : ErrorsView * A :=
  let code := py_upper (py_strip code) in
  match alarms_get code (active_alarms (fst st)) with
  | Some p =>
      (with_logs (set_row_timestamp p ("[" ++ timestamp ++ "]") (logs (fst st))) (fst st),
       snd st)
  | None =>
      match codes_get code ERROR_CODES with
      | Some (level, message) =>
          _add_alarm_log code level ("[" ++ code ++ "] " ++ message) timestamp st
      | None => add_log WARNING ("Unknown code: " ++ code) timestamp st
      end
  end.

(** [uart_open] is the value of [self.uart and self.uart.is_open()]. *)
Definition send_error_code (code timestamp : string) (uart_open : bool)
  (st : ErrorsView * A) : ErrorsView * A :=
  let code := py_upper (py_strip code) in
  let '(v, a) := handle_error_code code timestamp st in
  if uart_open then (with_sent (code :: sent v) v, a) else (v, a).

Definition _reset_robot_errors (timestamp timestamp' : string) (uart_open : bool)
  (st : ErrorsView * A) : ErrorsView * A :=
  let '(v, a) := _update_alert_status NONE st in
  let '(v, a) := add_log INFO "Resetting robot errors..." timestamp (with_alarms [] v, a) in
  if uart_open then (with_sent ("ROBOT_OK" :: sent v) v, a)
  else add_log WARNING "Cannot send reset command: UART disconnected." timestamp' (v, a).

End Methods.

End Errors.

(** ** main.py: the callbacks that tie the views together

    The application state: the two motion views, the errors view, the
    alert level with the [disabled] flags of the two motion views, the
    emergency-stop overlay and what [main] itself sent.  The settings
    and status views, the footer animation and the page are display
    only and left out.  Handlers run one at a time. *)

Module Main.

Import Cartesian.
Import Errors.
Import PyStr.
Local Open Scope string_scope.

Record Alert := mkAlert {
  current_alert_level : Level;
  jog_disabled : bool;
  cartesian_disabled : bool }.

Definition set_controls_locked (is_locked : bool) (a : Alert) : Alert :=
  mkAlert (current_alert_level a) is_locked is_locked.

Definition with_level (l : Level) (a : Alert) : Alert :=
  mkAlert l (jog_disabled a) (cartesian_disabled a).

Definition update_global_error_state (level : Level) (a : Alert) : Alert :=
  match level with
  | ERROR => set_controls_locked true (with_level ERROR a)
  | WARNING =>
      match current_alert_level a with
      | ERROR => a
      | _ => set_controls_locked false (with_level WARNING a)
      end
  | NONE => set_controls_locked false (with_level NONE a)
  | INFO => a
  end.

Record App := mkApp {
  JOG : Jog.JogView;
  CARTESIAN : CartesianView;
  ERRORS : ErrorsView;
  alert : Alert;
  estop_overlay_visible : bool;
  main_sent : list string }.

(** The application as [main] builds it: the views constructed with
    their callbacks, no alert. *)
Definition App_init (loaded : option Chain) (e : Collaborators) : App :=
  mkApp (Jog.JogView_init e) (CartesianView_init loaded e) ErrorsView_init
    (mkAlert NONE false false) false [].

Definition with_JOG (v : Jog.JogView) (app : App) : App :=
  mkApp v (CARTESIAN app) (ERRORS app) (alert app) (estop_overlay_visible app)
    (main_sent app).

Definition with_CARTESIAN (v : CartesianView) (app : App) : App :=
  mkApp (JOG app) v (ERRORS app) (alert app) (estop_overlay_visible app)
    (main_sent app).

Definition with_errors (st : ErrorsView * Alert) (app : App) : App :=
  mkApp (JOG app) (CARTESIAN app) (fst st) (snd st) (estop_overlay_visible app)
    (main_sent app).

Definition with_alert (a : Alert) (app : App) : App :=
  mkApp (JOG app) (CARTESIAN app) (ERRORS app) a (estop_overlay_visible app)
    (main_sent app).

Definition with_overlay (b : bool) (app : App) : App :=
  mkApp (JOG app) (CARTESIAN app) (ERRORS app) (alert app) b (main_sent app).

Definition with_main_sent (l : list string) (app : App) : App :=
  mkApp (JOG app) (CARTESIAN app) (ERRORS app) (alert app)
    (estop_overlay_visible app) l.

(** A method of the errors view, which was constructed with
    [on_status_change=update_global_error_state]. *)
Definition errors_call
  (method : option (Level -> Alert -> Alert) -> ErrorsView * Alert -> ErrorsView * Alert)
  (app : App) : App :=
  with_errors (method (Some update_global_error_state) (ERRORS app, alert app)) app.

(** [global_error_handler], the [on_error] of both motion views. *)
Definition global_error_handler (error_code timestamp : string) (uart_open : bool)
  (app : App) : App :=
  errors_call (fun cb => send_error_code cb error_code timestamp uart_open) app.

Definition global_set_homed (is_homed : bool) (app : App) : App :=
  with_CARTESIAN (set_homed_status is_homed (CARTESIAN app))
    (with_JOG (Jog.set_homed_status is_homed (JOG app)) app).

(** The codes a view handler handed to [on_error], oldest first: what
    its error log gained. *)
Definition new_codes (before after : list string) : list string :=
  rev (firstn (List.length after - List.length before) after).

Definition deliver (codes : list string) (timestamp : string) (uart_open : bool)
  (app : App) : App :=
  fold_left (fun a code => global_error_handler code timestamp uart_open a) codes app.

(** A handler of the Cartesian view run inside the application. *)
Definition in_cartesian (handler : CartesianView -> CartesianView)
  (timestamp : string) (uart_open : bool) (app : App) : App :=
  let v := handler (CARTESIAN app) in
  deliver (new_codes (error_log (CARTESIAN app)) (error_log v)) timestamp uart_open
    (with_CARTESIAN v app).

(** [wrapped_change_mode_clicked]; [mode_name] is the button's
    [data].  An index past the end of the commanded joints raises out
    of the loop and leaves what was written. *)
Definition wrapped_change_mode_clicked (mode_name : string) (app : App) : App :=
  let app :=
    if String.eqb mode_name "ERRORS" then
      match current_alert_level (alert app) with
      | WARNING => with_alert (update_global_error_state NONE (alert app)) app
      | _ => app
      end
    else app in
  if String.eqb mode_name "CARTESIAN" then
    if Jog.initial_sync_done (JOG app) then
      let jog_joints := Jog.internal_target_values (JOG app) in
      let cartesian_joints :=
        map (fun i => np_radians (match dict_get (joint_key i) jog_joints with
                                  | Some v => v
                                  | None => 0
                                  end)) (seq 0 6) in
      with_CARTESIAN (with_commanded cartesian_joints (CARTESIAN app)) app
    else app
  else if String.eqb mode_name "JOG" then
    let cartesian_joints := commanded_joints (CARTESIAN app) in
    let '(jog, ok) :=
      for_each (seq 0 6)
        (fun i jog =>
           match nth_error cartesian_joints i with
           | None => None
           | Some c =>
               let deg_val := np_degrees c in
               let jog :=
                 Jog.with_targets
                   (dict_set (joint_key i) deg_val (Jog.internal_target_values jog))
                   jog in
               Some (Jog.with_raw
                       (dict_set (joint_key i) deg_val (Jog.current_raw_values jog))
                       jog)
           end)
        (JOG app) in
    with_JOG (if ok then Jog.with_sync_done true jog else jog) app
  else app.

(** The body of the [A_] branch of [handle_uart_data] once the six
    numbers are parsed; [now] is the clock reading of the Cartesian
    view's handler. *)
Definition on_joint_frame (v1 v2 v3 v4 v5 v6 : R) (now : R) (app : App) : App :=
  let joint_values : dict :=
    [ ("J1", v1); ("J2", v2); ("J3", v3); ("J4", v4); ("J5", v5); ("J6", v6) ] in
  let app := with_JOG (Jog.update_joints_and_fk joint_values (JOG app)) app in
  with_CARTESIAN (update_from_feedback joint_values now (CARTESIAN app)) app.

(** [handle_uart_data], its first three branches: emergency stop,
    emergency stop released, homing complete.  [None] stands for a line
    that reaches the later branches (telemetry, limit switches, joint
    frames, error codes), which this definition does not cover. *)
Definition handle_uart_data (data_string timestamp : string) (app : App)
  : option App :=
  let data_string := py_strip data_string in
  if is_empty data_string then Some app
  else if contains "ESTOP_TRIGGER" data_string then
    let app := with_JOG (Jog.set_homed_status false (JOG app)) app in
    let app := with_CARTESIAN (set_homed_status false (CARTESIAN app)) app in
    let app := with_overlay true app in
    Some (errors_call (fun cb => handle_error_code cb "E2" timestamp) app)
  else if contains "ESTOP_RELEASE" data_string || contains "ESTOP_OFF" data_string then
    Some (with_overlay false app)
  else if contains "HOMING_COMPLETE_OK" data_string then
    let app := with_JOG (Jog.set_homed_status true (JOG app)) app in
    let app := with_CARTESIAN (set_homed_status true (CARTESIAN app)) app in
    let app :=
      if String.eqb (current_tool (ik (CARTESIAN app))) "CHWYTAK_DUZY"
      then with_main_sent ("EGRIP_OPEN" :: main_sent app) app
      else app in
    Some (errors_call (fun cb => handle_error_code cb "HMD" timestamp) app)
  else None.

End Main.

(** ** gui/cartesian.py: unmounting the view *)

Module CartesianHandlers.

Import Cartesian.



End CartesianHandlers.

(** ** Quantities the statements below speak about *)

Import Cartesian.

(** The largest of [|nj[i] - cur[i]|] over the six joints. *)
Definition max_abs_diff (nj cur : list R) : R :=
  fold_left Rmax
    (map (fun i => Rabs (nth i nj 0 - nth i cur 0)) (seq 1 5))
    (Rabs (nth 0 nj 0 - nth 0 cur 0)).

(** [cur + 0.2 * (nj - cur)], joint by joint. *)
Definition blend (nj cur : list R) : list R :=
  map (fun i => nth i cur 0 + 0.2 * (nth i nj 0 - nth i cur 0)) (seq 0 6).

(** The length in metres of one linear jog step at a given speed. *)
Definition linear_step (speed_percent : R) : R :=
  Rmax 0.2 (BASE_STEP_MM * (speed_percent / 100)) / 1000.

(** Rotation by a half turn about Y. *)
Definition half_turn_y : Mat3 :=
  mkMat3 (mkVec3 (-1) 0 0) (mkVec3 0 1 0) (mkVec3 0 0 (-1)).

(** The joint view's link between homing and the initial sync: a
    homed view has its targets synchronised. *)
Definition homed_synced (s : Jog.JogView) : Prop :=
  Jog.is_robot_homed s = true -> Jog.initial_sync_done s = true.

(** The joint view's target dict with its six keys in order. *)
Definition joint_dict (a0 a1 a2 a3 a4 a5 : R) : dict :=
  [ ("J1", a0); ("J2", a1); ("J3", a2); ("J4", a3); ("J5", a4); ("J6", a5) ]%string.

(** A position inside the workspace box. *)
Definition in_workspace (p : Vec3) : Prop :=
  -0.700 <= vx p <= 0.700 /\ -0.700 <= vy p <= 0.700 /\ -0.300 <= vz p <= 0.900.

(** A motion request of the operator in the Cartesian view: a jog
    button pressed, SAFETY, STANDBY. *)
Inductive cartesian_request :=
  | PressJog (a : axis) (d : direction)
  | PressSafety
  | PressStandby.

Definition cartesian_serve (r : cartesian_request) (s : CartesianView)
  : CartesianView * option thread :=
  match r with
  | PressJog a d => on_jog_start a d s
  | PressSafety => on_safety_click s
  | PressStandby => on_standby_click s
  end.

(** The requests served one after the other, no worker finishing and
    no button released in between; the workers started, oldest
    first. *)
Fixpoint cartesian_serve_all (rs : list cartesian_request) (s : CartesianView)
  : CartesianView * list thread :=
  match rs with
  | [] => (s, [])
  | r :: rest =>
      let '(s1, th) := cartesian_serve r s in
      let '(s2, ths) := cartesian_serve_all rest s1 in
      (s2, match th with Some t => t :: ths | None => ths end)
  end.

(** The same for the joint view. *)
Inductive joint_request :=
  | PressJoint (joint_code : string) (d : direction)
  | PressJointSafety
  | PressJointStandby.

Definition joint_serve (r : joint_request) (s : Jog.JogView)
  : Jog.JogView * option Jog.thread :=
  match r with
  | PressJoint code d => Jog.on_jog_start code d s
  | PressJointSafety => Jog.on_safety_click s
  | PressJointStandby => Jog.on_standby_click s
  end.

Fixpoint joint_serve_all (rs : list joint_request) (s : Jog.JogView)
  : Jog.JogView * list Jog.thread :=
  match rs with
  | [] => (s, [])
  | r :: rest =>
      let '(s1, th) := joint_serve r s in
      let '(s2, ths) := joint_serve_all rest s1 in
      (s2, match th with Some t => t :: ths | None => ths end)
  end.

(** [n] passes of the joint jog loop with the button held. *)
Fixpoint joint_jog_passes (n : nat) (joint_code : string) (d : direction)
  (s : Jog.JogView) : Jog.JogView :=
  match n with
  | O => s
  | S k => joint_jog_passes k joint_code d (Jog.jog_pass joint_code d s)
  end.

(** A press sequence on the speed buttons ([+10] / [-10], or any other
    increment). *)
Definition cartesian_speed_presses (deltas : list R) (s : CartesianView)
  : CartesianView :=
  fold_left (fun st delta => change_speed delta st) deltas s.

Definition joint_speed_presses (deltas : list R) (s : Jog.JogView) : Jog.JogView :=
  fold_left (fun st delta => Jog.change_speed delta st) deltas s.

(** The alert state after a sequence of level notifications. *)
Definition alert_after (levels : list Errors.Level) (a : Main.Alert) : Main.Alert :=
  fold_left (fun a level => Main.update_global_error_state level a) levels a.

(** Both motion views are disabled together, and exactly when the
    alert level is ERROR. *)
Definition locked_iff_error (a : Main.Alert) : Prop :=
  Main.jog_disabled a = Main.cartesian_disabled a /\
  (Main.jog_disabled a = true <-> Main.current_alert_level a = Errors.ERROR).

(** No alarm of level ERROR is active unless the alert level is ERROR
    (and the controls are locked accordingly). *)
Definition alarms_lock (v : Errors.ErrorsView) (a : Main.Alert) : Prop :=
  locked_iff_error a /\
  forall code p message,
    Errors.alarms_get code (Errors.active_alarms v) = Some p ->
    Errors.codes_get code Errors.ERROR_CODES = Some (Errors.ERROR, message) ->
    Main.current_alert_level a = Errors.ERROR.

Definition error_alarms_lock (app : Main.App) : Prop :=
  alarms_lock (Main.ERRORS app) (Main.alert app).

(** What can reach the errors view and the alert level while the
    application runs: a code from the serial line or from the
    connection button, a code reported by a motion view, a free-text
    log line, the two buttons of the errors view, a footer button. *)
Inductive alert_event :=
  | GotCode (code timestamp : string)
  | ViewError (code timestamp : string) (uart_open : bool)
  | GotLog (level : Errors.Level) (message timestamp : string)
  | ClearHistory (timestamp : string)
  | ResetRobotErrors (timestamp timestamp' : string) (uart_open : bool)
  | FooterButton (mode_name : string).

Definition alert_step (ev : alert_event) (app : Main.App) : Main.App :=
  match ev with
  | GotCode code t =>
      Main.errors_call (fun cb => Errors.handle_error_code cb code t) app
  | ViewError code t uart_open => Main.global_error_handler code t uart_open app
  | GotLog level message t =>
      Main.errors_call (fun cb => Errors.add_log cb level message t) app
  | ClearHistory t => Main.errors_call (fun cb => Errors._clear_logs cb t) app
  | ResetRobotErrors t t' uart_open =>
      Main.errors_call (fun cb => Errors._reset_robot_errors cb t t' uart_open) app
  | FooterButton mode_name => Main.wrapped_change_mode_clicked mode_name app
  end.

Definition alert_run (evs : list alert_event) (app : Main.App) : Main.App :=
  fold_left (fun a ev => alert_step ev a) evs app.

(** The flange pose [inverse_kinematics] asks the chain solver for. *)
Definition flange_request (eng : KinematicsEngine) (target_position : Vec3)
  (target_orientation : Mat3) : option (Vec3 * Mat3) :=
  match np_linalg_inv (tool_rotation_matrix eng) with
  | None => None
  | Some inv_tool =>
      let flange_rot_matrix := mat_mul target_orientation inv_tool in
      Some (vec3_sub (vec3_sub target_position (world_offset eng))
              (mat_vec flange_rot_matrix (tool_translation eng)),
            flange_rot_matrix)
  end.

(** The transpose. *)
Definition mat_transpose (m : Mat3) : Mat3 := mkMat3 (col1 m) (col2 m) (col3 m).

(** Rows of unit length and pairwise orthogonal. *)
Definition orthonormal (m : Mat3) : Prop := mat_mul m (mat_transpose m) = mat3_eye.

(** The other jog button of the same axis. *)
Definition opposite (d : direction) : direction :=
  match d with Plus => Minus | Minus => Plus end.

(** A position that one jog step cannot take out of the workspace box. *)
Definition well_inside (p : Vec3) : Prop :=
  -0.698 <= vx p <= 0.698 /\ -0.698 <= vy p <= 0.698 /\ -0.298 <= vz p <= 0.898.

(** The position one linear jog step aims at before clamping. *)
Definition stepped (a : axis) (d : direction) (speed_percent : R) (p : Vec3) : Vec3 :=
  let h := sign_of d * (speed_percent / 50000) in
  match a with
  | AxX => mkVec3 (vx p + h) (vy p) (vz p)
  | AxY => mkVec3 (vx p) (vy p + h) (vz p)
  | AxZ => mkVec3 (vx p) (vy p) (vz p + h)
  | _ => p
  end.

(** ** Proof automation *)

(** Componentwise equality of options, lists, vectors and matrices of
    reals, the leaves by linear arithmetic. *)
Ltac componentwise :=
  repeat match goal with
         | |- Some _ = Some _ => apply f_equal
         | |- _ :: _ = _ :: _ => apply f_equal2
         | |- mkVec3 _ _ _ = mkVec3 _ _ _ => apply f_equal3
         | |- mkMat3 _ _ _ = mkMat3 _ _ _ => apply f_equal3
         | |- mkMat4 _ _ _ = mkMat4 _ _ _ => apply f_equal3
         end;
  try reflexivity; try lra; try (unfold dot; cbn [vx vy vz]; lra).

(** Case analysis on the comparisons hidden in [max], [min], [clip]
    and [abs] of concrete reals. *)
Ltac real_cases :=
  unfold np_clip, Rmax, Rmin, Rabs, BASE_STEP_MM, sign_of in *;
  repeat match goal with
         | |- context [Rle_dec ?a ?b] =>
             lazymatch a with
             | context [Rle_dec] => fail
             | _ => lazymatch b with
                    | context [Rle_dec] => fail
                    | _ => destruct (Rle_dec a b)
                    end
             end
         | |- context [Rcase_abs ?a] =>
             lazymatch a with
             | context [Rle_dec] => fail
             | _ => destruct (Rcase_abs a)
             end
         end;
  try lra.

(** Equality of vectors and matrices entry by entry, the entries by
    [tac]. *)
Ltac entrywise tac :=
  repeat match goal with
         | |- mkVec3 _ _ _ = mkVec3 _ _ _ => apply f_equal3
         | |- mkMat3 _ _ _ = mkMat3 _ _ _ => apply f_equal3
         end;
  tac.

(* ================================================================== *)
(** * Properties *)

Import Cartesian.

(** ** Arithmetic of the primitives *)


(** Inside one period the modulus leaves its argument alone. *)
Lemma py_mod_small (x m : R) : 0 <= x < m -> py_mod x m = x.
Proof.
  intros [H0 Hm]. unfold py_mod.
  assert (Hpos : 0 < m) by lra.
  replace (Int_part (x / m)) with 0%Z; [simpl; lra|].
  apply Int_part_spec. simpl. split.
  - assert (x / m < 1); [|lra].
    apply Rmult_lt_reg_r with m; [lra|]. unfold Rdiv.
    rewrite Rmult_assoc, Rinv_l; lra.
  - apply Rmult_le_reg_r with m; [lra|]. unfold Rdiv.
    rewrite Rmult_assoc, Rinv_l; lra.
Qed.


Lemma PI_gt_3 : 3 < PI.
Proof. pose proof PI2_3_2. lra. Qed.

Lemma normalize_angle_id (q : R) : - PI <= q < PI -> normalize_angle q = q.
Proof.
  intros H. unfold normalize_angle. rewrite py_mod_small; lra.
Qed.

(** ** C7: range of the normalised solver result *)



(** ** Lists: indexed writes, resize *)

Lemma list_set_length (i : nat) (v : R) (l l' : list R) :
  list_set i v l = Some l' -> List.length l' = List.length l.
Proof.
  revert i l'. induction l as [|h t IH]; intros [|j] l' H; simpl in H; try discriminate.
  - injection H as <-. reflexivity.
  - destruct (list_set j v t) as [t'|] eqn:E; simpl in H; [|discriminate].
    injection H as <-. simpl. f_equal. eapply IH; eauto.
Qed.

Lemma list_set_some (i : nat) (v : R) (l : list R) :
  (i < List.length l)%nat -> exists l', list_set i v l = Some l'.
Proof.
  revert i. induction l as [|h t IH]; intros [|j] H; simpl in *; try lia.
  - eauto.
  - destruct (IH j) as [t' ->]; [lia|]. simpl. eauto.
Qed.

Lemma list_set_nth_same (i : nat) (v d : R) (l l' : list R) :
  list_set i v l = Some l' -> nth i l' d = v.
Proof.
  revert i l'. induction l as [|h t IH]; intros [|j] l' H; simpl in H; try discriminate.
  - injection H as <-. reflexivity.
  - destruct (list_set j v t) as [t'|] eqn:E; simpl in H; [|discriminate].
    injection H as <-. simpl. eapply IH; eauto.
Qed.

Lemma list_set_nth_other (i j : nat) (v d : R) (l l' : list R) :
  list_set i v l = Some l' -> j <> i -> nth j l' d = nth j l d.
Proof.
  revert i j l'. induction l as [|h t IH]; intros [|i] j l' H Hne; simpl in H;
    try discriminate.
  - injection H as <-. destruct j; [congruence | reflexivity].
  - destruct (list_set i v t) as [t'|] eqn:E; simpl in H; [|discriminate].
    injection H as <-. destruct j; simpl; [reflexivity|].
    eapply IH; eauto.
Qed.

Lemma ceil_div_covers (n k : nat) : (0 < k)%nat -> (n <= ceil_div n k * k)%nat.
Proof.
  intros Hk. unfold ceil_div.
  pose proof (Nat.div_mod_eq (n + k - 1) k) as E.
  pose proof (Nat.mod_upper_bound (n + k - 1) k) as U.
  nia.
Qed.

Lemma nth_concat_repeat (a : list R) (k i : nat) (d : R) :
  (i < k * List.length a)%nat ->
  nth i (List.concat (repeat a k)) d = nth (i mod List.length a) a d.
Proof.
  revert i. induction k as [|k IH]; intros i Hi; [simpl in Hi; lia|].
  simpl repeat. simpl List.concat.
  destruct (Nat.lt_ge_cases i (List.length a)) as [Hlt|Hge].
  - rewrite app_nth1 by exact Hlt. rewrite Nat.mod_small by exact Hlt. reflexivity.
  - rewrite app_nth2 by exact Hge.
    rewrite IH by (simpl in Hi; lia).
    f_equal.
    assert (Hpos : List.length a <> 0%nat) by (simpl in Hi; lia).
    replace i with ((i - List.length a) + 1 * List.length a)%nat at 2 by lia.
    rewrite Nat.Div0.mod_add. reflexivity.
Qed.

Lemma np_resize_length (a : list R) (n : nat) : List.length (np_resize a n) = n.
Proof.
  unfold np_resize. destruct a as [|x a'].
  - apply repeat_length.
  - rewrite length_firstn. apply Nat.min_l.
    rewrite length_concat.
    assert (E : forall k, list_sum (map (@List.length R) (repeat (x :: a') k))
                          = (k * List.length (x :: a'))%nat).
    { induction k as [|k IHk]; simpl in *; [reflexivity | rewrite IHk; lia]. }
    rewrite E. apply ceil_div_covers. simpl. lia.
Qed.

Lemma np_resize_nth (a : list R) (n i : nat) (d : R) :
  a <> [] -> (i < n)%nat ->
  nth i (np_resize a n) d = nth (i mod List.length a) a d.
Proof.
  intros Ha Hi. unfold np_resize. destruct a as [|x a']; [congruence|].
  rewrite nth_firstn. apply Nat.ltb_lt in Hi. rewrite Hi.
  apply Nat.ltb_lt in Hi.
  apply nth_concat_repeat.
  pose proof (ceil_div_covers n (List.length (x :: a'))) as H.
  simpl in *. lia.
Qed.

(** ** C9: the length shim of _active_to_full *)

(** The two ways the shim can treat an input whose length is not 6. *)
Lemma coerce_active_cases (a : list R) :
  List.length a <> 6%nat ->
  (coerce_active a = tl a /\ List.length a = 7%nat) \/
  (List.length (coerce_active a) = 6%nat /\ coerce_active a = np_resize a 6).
Proof.
  intros H6. unfold coerce_active.
  destruct (Nat.eqb (List.length a) 7) eqn:E7.
  - left. apply Nat.eqb_eq in E7.
    destruct a as [|x t]; [discriminate|]. simpl in *.
    injection E7 as E7. rewrite E7. simpl. auto.
  - right. apply Nat.eqb_neq in H6. rewrite H6. simpl.
    split; [apply np_resize_length | reflexivity].
Qed.

(** C9 (as the code has it).  For an input whose length is not 6: a
    7-element vector loses its first element and the other six are
    used; any other vector is resized by [np.resize] to exactly six
    elements, which are all zero for an empty input and otherwise the
    input's own elements repeated cyclically (so a longer input is cut
    to its first six). *)
Theorem C9_coerce_active (a : list R) :
  List.length a <> 6%nat ->
  (List.length a = 7%nat -> coerce_active a = tl a) /\
  (List.length a <> 7%nat ->
     List.length (coerce_active a) = 6%nat /\
     (a = [] -> coerce_active a = [0; 0; 0; 0; 0; 0]) /\
     (a <> [] -> forall i, (i < 6)%nat ->
        nth i (coerce_active a) 0 = nth (i mod List.length a) a 0)).
Proof.
  intros H6. unfold coerce_active. split.
  - intros H7. rewrite H7. simpl.
    destruct a as [|x t]; [discriminate|]. simpl in *.
    injection H7 as H7. rewrite H7. reflexivity.
  - intros H7.
    apply Nat.eqb_neq in H7. rewrite H7.
    apply Nat.eqb_neq in H6. rewrite H6. simpl.
    split; [apply np_resize_length|]. split.
    + intros ->. reflexivity.
    + intros Ha i Hi. apply np_resize_nth; assumption.
Qed.

(** C9 witness: a three-element input; its fourth output element is
    its first input element again. *)
Lemma C9_coerce_active_witness :
  List.length [1; 2; 3] <> 6%nat /\
  List.length (coerce_active [1; 2; 3]) = 6%nat /\
  nth 3 (coerce_active [1; 2; 3]) 0 = 1.
Proof.
  assert (H : List.length [1; 2; 3] <> 6%nat) by (simpl; lia).
  split; [exact H|].
  destruct (C9_coerce_active [1; 2; 3] H) as [_ H2].
  destruct H2 as [HL [_ Hn]]; [simpl; lia|].
  split; [exact HL|].
  rewrite Hn; [reflexivity | discriminate | lia].
Defined.

(** C9 counterexample.  A three-element input is not padded with
    zeros: its elements are repeated. *)
Lemma C9_counterexample :
  coerce_active [1; 2; 3] = [1; 2; 3; 1; 2; 3] /\
  coerce_active [1; 2; 3] <> [1; 2; 3; 0; 0; 0].
Proof.
  assert (E : coerce_active [1; 2; 3] = [1; 2; 3; 1; 2; 3]) by reflexivity.
  split; [exact E|]. rewrite E. intros H.
  injection H as H _ _. lra.
Qed.

(** ** Scatter and gather over the active-link mask *)

Lemma skipn_S_tl (l : list R) (i : nat) : skipn (S i) l = tl (skipn i l).
Proof.
  revert l. induction i as [|i IH]; intros [|h t]; try reflexivity.
  apply (IH t).
Qed.

Lemma scatter_below (mask : list bool) :
  forall i curr arr full full',
    scatter mask i curr arr full = Some full' ->
    List.length full' = List.length full /\
    forall j, (j < i)%nat -> nth j full' 0 = nth j full 0.
Proof.
  induction mask as [|act rest IH]; intros i curr arr full full' H; simpl in H.
  - injection H as <-. auto.
  - destruct (act && (curr <? 6)%nat).
    + destruct (nth_error arr curr) as [v|]; [|discriminate].
      destruct (list_set i v full) as [full1|] eqn:E; [|discriminate].
      destruct (IH _ _ _ _ _ H) as [HL HN]. split.
      * rewrite HL. eapply list_set_length; eauto.
      * intros j Hj. rewrite HN by lia.
        eapply list_set_nth_other; eauto. lia.
    + destruct (IH _ _ _ _ _ H) as [HL HN]. split; [exact HL|].
      intros j Hj. apply HN. lia.
Qed.

Lemma scatter_some (mask : list bool) :
  forall i curr arr full,
    (i + List.length mask <= List.length full)%nat ->
    (6 <= List.length arr)%nat ->
    exists full', scatter mask i curr arr full = Some full'.
Proof.
  induction mask as [|act rest IH]; intros i curr arr full Hlen Harr; simpl.
  - eauto.
  - simpl in Hlen.
    destruct (act && (curr <? 6)%nat) eqn:Hact.
    + apply andb_prop in Hact. destruct Hact as [_ Hc]. apply Nat.ltb_lt in Hc.
      destruct (nth_error arr curr) as [v|] eqn:Ev.
      * destruct (list_set_some i v full) as [full1 E1]; [lia|]. rewrite E1.
        apply IH; [|exact Harr].
        rewrite (list_set_length _ _ _ _ E1). lia.
      * apply nth_error_None in Ev. lia.
    + apply IH; [lia | exact Harr].
Qed.

Lemma np_compress_some (mask : list bool) :
  forall v, (List.length mask <= List.length v)%nat ->
    exists r, np_compress mask v = Some r /\ List.length r = count_true mask.
Proof.
  induction mask as [|act rest IH]; intros v Hlen; simpl.
  - exists []. auto.
  - destruct v as [|x v']; simpl in Hlen; [lia|].
    destruct (IH v') as [r [E L]]; [lia|].
    destruct act; simpl.
    + rewrite E. simpl. exists (x :: r). split; [reflexivity|].
      unfold count_true in *. simpl. lia.
    + exists r. split; [exact E|]. exact L.
Qed.

(** Gathering what was scattered returns the values read from [arr]. *)
Lemma compress_scatter (mask : list bool) :
  forall i curr arr full full',
    scatter mask i curr arr full = Some full' ->
    (curr + count_true mask <= 6)%nat ->
    (i + List.length mask <= List.length full)%nat ->
    np_compress mask (skipn i full')
    = Some (firstn (count_true mask) (skipn curr arr)).
Proof.
  induction mask as [|act rest IH]; intros i curr arr full full' H Hc Hlen.
  - reflexivity.
  - simpl in H. simpl in Hlen.
    destruct act.
    + unfold count_true in Hc. simpl in Hc. fold (count_true rest) in Hc.
      assert (Hlt : (curr <? 6)%nat = true) by (apply Nat.ltb_lt; lia).
      rewrite Hlt in H. simpl in H.
      destruct (nth_error arr curr) as [v|] eqn:Ev; [|discriminate].
      destruct (list_set i v full) as [full1|] eqn:E1; [|discriminate].
      pose proof (list_set_length _ _ _ _ E1) as L1.
      destruct (scatter_below _ _ _ _ _ _ H) as [L' Hkeep].
      specialize (IH _ _ _ _ _ H).
      assert (Hi : nth i full' 0 = v).
      { rewrite Hkeep by lia. eapply list_set_nth_same; eauto. }
      assert (Hs : skipn i full' = v :: skipn (S i) full').
      { rewrite <- Hi.
        assert (Hin : (i < List.length full')%nat) by lia.
        clear - Hin. revert i Hin.
        induction full' as [|h t IHt]; intros [|i] Hin; simpl in *; try lia.
        - reflexivity.
        - apply IHt. lia. }
      assert (Ha : skipn curr arr = v :: skipn (S curr) arr).
      { clear - Ev. revert curr Ev.
        induction arr as [|h t IHt]; intros [|c] Ev; simpl in *; try discriminate.
        - injection Ev as <-. reflexivity.
        - apply IHt. exact Ev. }
      simpl np_compress. rewrite Hs.
      rewrite IH by lia.
      unfold count_true at 2. simpl filter. simpl List.length.
      fold (count_true rest). rewrite Ha. reflexivity.
    + simpl in H.
      unfold count_true in Hc. simpl in Hc. fold (count_true rest) in Hc.
      specialize (IH _ _ _ _ _ H).
      simpl np_compress.
      replace (tl (skipn i full')) with (skipn (S i) full').
      * rewrite IH by lia. unfold count_true. reflexivity.
      * apply skipn_S_tl.
Qed.

Lemma skipn_nth_error (l : list R) (i : nat) (v : R) :
  nth_error l i = Some v -> skipn i l = v :: skipn (S i) l.
Proof.
  revert i. induction l as [|h t IH]; intros [|i] E; simpl in *; try discriminate.
  - injection E as <-. reflexivity.
  - apply IH. exact E.
Qed.

Lemma nth_tl (l : list R) (k : nat) (d : R) : nth k (tl l) d = nth (S k) l d.
Proof. destruct l; destruct k; reflexivity. Qed.

(** Scattering what was gathered restores the active positions. *)
Lemma scatter_compress (mask : list bool) :
  forall i curr arr full full' v r,
    scatter mask i curr arr full = Some full' ->
    (curr + count_true mask <= 6)%nat ->
    np_compress mask v = Some r ->
    firstn (count_true mask) (skipn curr arr) = r ->
    forall k, nth k mask false = true -> nth (i + k) full' 0 = nth k v 0.
Proof.
  induction mask as [|act rest IH]; intros i curr arr full full' v r H Hc Hv Hr k Hk.
  - destruct k; discriminate.
  - simpl in H. destruct act.
    + unfold count_true in Hc, Hr. simpl in Hc, Hr. fold (count_true rest) in Hc, Hr.
      assert (Hlt : (curr <? 6)%nat = true) by (apply Nat.ltb_lt; lia).
      rewrite Hlt in H. simpl in H.
      destruct (nth_error arr curr) as [v0|] eqn:Ev; [|discriminate].
      destruct (list_set i v0 full) as [full1|] eqn:E1; [|discriminate].
      simpl in Hv. destruct v as [|x v']; [discriminate|].
      destruct (np_compress rest v') as [r'|] eqn:Er; [|discriminate].
      simpl in Hv. injection Hv as <-.
      rewrite (skipn_nth_error _ _ _ Ev) in Hr. simpl in Hr.
      injection Hr as Hx Hr'.
      destruct (scatter_below _ _ _ _ _ _ H) as [_ Hkeep].
      destruct k as [|k'].
      * rewrite Nat.add_0_r. rewrite Hkeep by lia.
        rewrite (list_set_nth_same _ _ 0 _ _ E1). simpl. exact Hx.
      * replace (i + S k')%nat with (S i + k')%nat by lia.
        simpl in Hk. simpl nth.
        eapply (IH (S i) (S curr) arr full1 full' v' r'); eauto. lia.
    + simpl in H. simpl in Hv.
      unfold count_true in Hc, Hr. simpl in Hc, Hr. fold (count_true rest) in Hc, Hr.
      destruct k as [|k']; [discriminate|].
      replace (i + S k')%nat with (S i + k')%nat by lia.
      simpl in Hk. rewrite <- nth_tl.
      eapply (IH (S i) curr arr full full' (tl v) r); eauto.
Qed.

Lemma coerce_active_six (a : list R) : List.length a = 6%nat -> coerce_active a = a.
Proof.
  intros H. unfold coerce_active. rewrite H. simpl. rewrite H. reflexivity.
Qed.

Lemma coerce_active_length (a : list R) : List.length (coerce_active a) = 6%nat.
Proof.
  destruct (Nat.eq_dec (List.length a) 6) as [H6|H6].
  - rewrite coerce_active_six; assumption.
  - destruct (coerce_active_cases a H6) as [H7|[Hr _]]; [|exact Hr].
    rewrite (proj1 H7). destruct a as [|x t]; [destruct H7; discriminate|].
    destruct H7 as [_ H7]. simpl in *. lia.
Qed.

Lemma count_true_nonempty (mask : list bool) : count_true mask = 6%nat -> mask <> [].
Proof. intros H ->. discriminate. Qed.

(** ** C6: expand and compress are mutually inverse over the mask *)

(** C6.  Under a mask with exactly six true entries (one entry per
    link): compressing a full-chain vector and expanding the result
    gives back the original value at every active position, and
    expanding a six-element vector and compressing the result gives
    back exactly that vector. *)
Theorem C6_mask_round_trip (eng : KinematicsEngine) (mask : list bool) :
  active_links_mask eng = Some mask ->
  List.length (links (chain eng)) = List.length mask ->
  count_true mask = 6%nat ->
  (forall full, List.length full = List.length mask ->
     exists reduced full',
       _full_to_active eng full = Some reduced /\
       _active_to_full eng reduced = Some full' /\
       forall i, nth i mask false = true -> nth i full' 0 = nth i full 0) /\
  (forall reduced, List.length reduced = 6%nat ->
     exists full,
       _active_to_full eng reduced = Some full /\
       _full_to_active eng full = Some reduced).
Proof.
  intros Hmask Hlinks Hsix.
  pose proof (count_true_nonempty _ Hsix) as Hne.
  assert (Hfta : forall v, _full_to_active eng v = np_compress mask v).
  { intros v. unfold _full_to_active. rewrite Hmask.
    destruct mask; [congruence | reflexivity]. }
  assert (Hatf : forall a, List.length a = 6%nat ->
             _active_to_full eng a
             = scatter mask 0 0 a (np_zeros (List.length mask))).
  { intros a Ha. unfold _active_to_full.
    rewrite Hmask, Hlinks, (coerce_active_six a Ha). reflexivity. }
  split.
  - intros full Hfull.
    destruct (np_compress_some mask full) as [r [Er Lr]]; [lia|].
    rewrite Hsix in Lr.
    destruct (scatter_some mask 0 0 r (np_zeros (List.length mask)))
      as [full' Ef]; [unfold np_zeros; rewrite repeat_length; lia | lia |].
    exists r, full'. rewrite Hfta, (Hatf r Lr). repeat split; try assumption.
    intros i Hi.
    apply (scatter_compress mask 0 0 r _ full' full r Ef); try assumption.
    + lia.
    + rewrite Hsix. change (skipn 0 r) with r. rewrite <- Lr. apply firstn_all.
  - intros reduced Hred.
    destruct (scatter_some mask 0 0 reduced (np_zeros (List.length mask)))
      as [full Ef]; [unfold np_zeros; rewrite repeat_length; lia | lia |].
    exists full. rewrite (Hatf reduced Hred), Hfta. split; [exact Ef|].
    pose proof (compress_scatter mask 0 0 reduced _ full Ef) as Hc.
    change (skipn 0 full) with full in Hc.
    change (skipn 0 reduced) with reduced in Hc. rewrite Hc.
    + rewrite Hsix, <- Hred. rewrite firstn_all. reflexivity.
    + lia.
    + unfold np_zeros. rewrite repeat_length. lia.
Qed.

(** C6 witness: the engine built for the gantry chain (seven links,
    six of them active). *)
Lemma C6_mask_round_trip_witness :
  exists full,
    _active_to_full Gantry.gantry_engine [1; 2; 3; 4; 5; 6] = Some full /\
    _full_to_active Gantry.gantry_engine full = Some [1; 2; 3; 4; 5; 6].
Proof.
  apply (C6_mask_round_trip Gantry.gantry_engine
           (auto_mask Gantry.gantry_links));
    reflexivity.
Defined.

(** ** C1: forward kinematics composes flange and tool *)

Lemma set_tool_frame (eng : KinematicsEngine) (tool : string) :
  chain (set_tool eng tool) = chain eng /\
  active_links_mask (set_tool eng tool) = active_links_mask eng /\
  world_offset (set_tool eng tool) = world_offset eng.
Proof.
  unfold set_tool. destruct (tools_get tool ROBOT_TOOLS) as [[t rpy]|]; simpl; auto.
Qed.

Lemma init_engine_frame (c : Chain) :
  chain (KinematicsEngine_init (Some c)) = c /\
  active_links_mask (KinematicsEngine_init (Some c)) = Some (auto_mask (links c)) /\
  world_offset (KinematicsEngine_init (Some c)) = vec3_zero.
Proof. simpl. repeat split. Qed.

Lemma active_to_full_some (eng : KinematicsEngine) (mask : list bool) (a : list R) :
  active_links_mask eng = Some mask ->
  List.length (links (chain eng)) = List.length mask ->
  exists full, _active_to_full eng a = Some full.
Proof.
  intros Hm Hl. unfold _active_to_full. rewrite Hm.
  apply scatter_some.
  - unfold np_zeros. rewrite repeat_length. lia.
  - rewrite coerce_active_length. lia.
Qed.

Lemma mat_mul_eye_l (m : Mat3) : mat_mul mat3_eye m = m.
Proof.
  destruct m as [[a b c] [d e f] [g h i]].
  unfold mat_mul, dot, col1, col2, col3, mat3_eye; simpl.
  repeat f_equal; lra.
Qed.

Lemma mat_vec_eye (v : Vec3) : mat_vec mat3_eye v = v.
Proof.
  destruct v as [a b c]. unfold mat_vec, dot, mat3_eye; simpl.
  f_equal; lra.
Qed.

(** C1.  For an engine built from a loaded chain, with any tool of the
    catalogue selected, forward kinematics of any joint vector returns
    the flange pose composed with the tool frame: position
    [P_flange + R_flange . t_tool], rotation [R_flange . R_tool].  With
    CHWYTAK_MALY and an identity flange pose the position is exactly
    (0.100, 0, -0.090) and the rotation is the tool's rotation matrix,
    the one scipy builds from the Euler angles (0, -180, 0) degrees. *)
Theorem C1_forward_kinematics_composes (c : Chain) (tool : string)
  (active_angles : list R) :
  let eng := set_tool (KinematicsEngine_init (Some c)) tool in
  exists full tcp,
    _active_to_full eng active_angles = Some full /\
    forward_kinematics eng active_angles = Some tcp /\
    let flange := chain_forward_kinematics c full in
    m_pos tcp
      = vec3_add (m_pos flange) (mat_vec (m_rot flange) (tool_translation eng)) /\
    m_rot tcp = mat_mul (m_rot flange) (tool_rotation_matrix eng) /\
    (tool = "CHWYTAK_MALY"%string ->
     m_rot flange = mat3_eye -> m_pos flange = vec3_zero ->
       m_pos tcp = mkVec3 0.100 0 (-0.090) /\
       m_rot tcp = from_euler_xyz_deg (mkVec3 0 (-180) 0) /\
       m_rot tcp = tool_rotation_matrix eng).
Proof.
  intros eng.
  destruct (set_tool_frame (KinematicsEngine_init (Some c)) tool) as [Hc [Hm Hw]].
  destruct (init_engine_frame c) as [Hc0 [Hm0 Hw0]].
  fold eng in Hc, Hm, Hw. rewrite Hc0 in Hc. rewrite Hm0 in Hm. rewrite Hw0 in Hw.
  destruct (active_to_full_some eng (auto_mask (links c)) active_angles) as [full Ef].
  { exact Hm. }
  { rewrite Hc. unfold auto_mask. rewrite length_map. reflexivity. }
  exists full.
  unfold forward_kinematics. rewrite Ef, Hc, Hw.
  eexists. split; [reflexivity|]. split; [reflexivity|].
  cbv zeta. simpl m_pos. simpl m_rot.
  set (flange := chain_forward_kinematics c full).
  split; [|split].
  - unfold vec3_add, vec3_zero; simpl. f_equal; lra.
  - reflexivity.
  - intros -> Hrot Hpos. rewrite Hrot, Hpos.
    subst eng. simpl tool_translation. simpl tool_rotation_matrix.
    rewrite mat_mul_eye_l, mat_vec_eye.
    repeat split.
    unfold vec3_add, vec3_zero; simpl. f_equal; lra.
Qed.

(** C1 witness: the gantry with all joints at zero has an identity
    flange pose. *)
Lemma C1_forward_kinematics_composes_witness :
  exists tcp,
    forward_kinematics Gantry.gantry_engine [0; 0; 0; 0; 0; 0] = Some tcp /\
    m_pos tcp = mkVec3 0.100 0 (-0.090) /\
    m_rot tcp = from_euler_xyz_deg (mkVec3 0 (-180) 0).
Proof.
  destruct (C1_forward_kinematics_composes Gantry.gantry_chain "CHWYTAK_MALY"
              [0; 0; 0; 0; 0; 0]) as [full [tcp [Ef [Ek [_ [_ H]]]]]].
  exists tcp. split; [exact Ek|].
  assert (Hfull : full = [0; 0; 0; 0; 0; 0; 0]).
  { cbv in Ef. injection Ef as <-. reflexivity. }
  destruct H as [Hp [Hr _]].
  - reflexivity.
  - reflexivity.
  - subst full. reflexivity.
  - auto.
Defined.

(** The fallback engine of a failed load never had its mask assigned:
    its forward kinematics raises instead of returning the identity. *)
Lemma fallback_forward_kinematics_raises (active_angles : list R) :
  forward_kinematics (KinematicsEngine_init None) active_angles = None.
Proof. reflexivity. Qed.

(** ** C2: accept, blend or reject *)

Lemma comprehension_map (idxs : list nat) (f : nat -> option R) (g : nat -> R) :
  (forall i, In i idxs -> f i = Some (g i)) ->
  comprehension idxs f = Some (map g idxs).
Proof.
  induction idxs as [|i rest IH]; intros H; simpl; [reflexivity|].
  rewrite (H i) by (left; reflexivity).
  rewrite IH by (intros j Hj; apply H; right; exact Hj).
  reflexivity.
Qed.

Lemma nth_error_nth_R (l : list R) (i : nat) :
  (i < List.length l)%nat -> nth_error l i = Some (nth i l 0).
Proof. intros H. apply nth_error_nth'. exact H. Qed.

Lemma joint_diffs_some (nj cur : list R) :
  (6 <= List.length nj)%nat -> (6 <= List.length cur)%nat ->
  joint_diffs nj cur
  = Some (map (fun i => Rabs (nth i nj 0 - nth i cur 0)) (seq 0 6)).
Proof.
  intros Hn Hc. unfold joint_diffs. apply comprehension_map.
  intros i Hi. apply in_seq in Hi.
  rewrite !nth_error_nth_R by lia. reflexivity.
Qed.

Lemma blended_some (nj cur : list R) :
  (6 <= List.length nj)%nat -> (6 <= List.length cur)%nat ->
  blended nj cur = Some (blend nj cur).
Proof.
  intros Hn Hc. unfold blended, blend. apply comprehension_map.
  intros i Hi. apply in_seq in Hi.
  rewrite !nth_error_nth_R by lia. reflexivity.
Qed.

Lemma Rltb_true (x y : R) : x < y -> Rltb x y = true.
Proof. intros H. unfold Rltb. destruct (Rlt_dec x y); [reflexivity | contradiction]. Qed.

Lemma Rltb_false (x y : R) : y <= x -> Rltb x y = false.
Proof. intros H. unfold Rltb. destruct (Rlt_dec x y); [lra | reflexivity]. Qed.

(** [max_abs_diff] is an upper bound of the six differences and is one
    of them. *)
Lemma max_abs_diff_spec (nj cur : list R) :
  (forall i, (i < 6)%nat -> Rabs (nth i nj 0 - nth i cur 0) <= max_abs_diff nj cur) /\
  (exists i, (i < 6)%nat /\ max_abs_diff nj cur = Rabs (nth i nj 0 - nth i cur 0)).
Proof.
  unfold max_abs_diff. simpl.
  set (d0 := Rabs (nth 0 nj 0 - nth 0 cur 0)).
  set (d1 := Rabs (nth 1 nj 0 - nth 1 cur 0)).
  set (d2 := Rabs (nth 2 nj 0 - nth 2 cur 0)).
  set (d3 := Rabs (nth 3 nj 0 - nth 3 cur 0)).
  set (d4 := Rabs (nth 4 nj 0 - nth 4 cur 0)).
  set (d5 := Rabs (nth 5 nj 0 - nth 5 cur 0)).
  split.
  - intros i Hi.
    assert (Hcase : (i = 0 \/ i = 1 \/ i = 2 \/ i = 3 \/ i = 4 \/ i = 5)%nat) by lia.
    destruct Hcase as [->|[->|[->|[->|[->| ->]]]]];
      fold d0 d1 d2 d3 d4 d5; unfold Rmax;
      repeat (destruct (Rle_dec _ _)); lra.
  - unfold Rmax; repeat (destruct (Rle_dec _ _));
      first [ exists 0%nat; split; [lia | reflexivity]
            | exists 1%nat; split; [lia | reflexivity]
            | exists 2%nat; split; [lia | reflexivity]
            | exists 3%nat; split; [lia | reflexivity]
            | exists 4%nat; split; [lia | reflexivity]
            | exists 5%nat; split; [lia | reflexivity] ].
Qed.

Lemma send_current_pose_commanded (s : CartesianView) :
  commanded_joints (send_current_pose s) = commanded_joints s.
Proof.
  unfold send_current_pose. destruct (has_uart (env s) && uart_is_open (env s));
    reflexivity.
Qed.

(** What the try block assigns, by cases on the largest joint step. *)
Lemma jog_try_cases (eng : KinematicsEngine) (tp : Vec3) (tr : Mat3)
  (cur sol : list R) :
  inverse_kinematics eng tp tr (Some cur) = Some sol ->
  (6 <= List.length sol)%nat -> (6 <= List.length cur)%nat ->
  let nj := map normalize_angle sol in
  let dmax := max_abs_diff nj cur in
  (dmax < 0.3 -> jog_try eng tp tr cur = Some nj) /\
  (0.3 <= dmax < 0.6 -> jog_try eng tp tr cur = Some (blend nj cur)) /\
  (0.6 <= dmax -> jog_try eng tp tr cur = None).
Proof.
  intros Hik Hs Hc nj dmax. unfold jog_try. rewrite Hik.
  fold nj.
  assert (Hn : (6 <= List.length nj)%nat) by (unfold nj; rewrite length_map; exact Hs).
  rewrite (joint_diffs_some nj cur Hn Hc).
  change (py_max (map (fun i => Rabs (nth i nj 0 - nth i cur 0)) (seq 0 6)))
    with (Some dmax).
  repeat split; intros H.
  - rewrite Rltb_true by lra. reflexivity.
  - rewrite Rltb_false by lra. rewrite Rltb_true by lra.
    apply blended_some; assumption.
  - rewrite !Rltb_false by lra. reflexivity.
Qed.

(** C2.  In a Cartesian jog pass over a six-joint commanded vector,
    with [d] the largest absolute per-joint difference between the
    normalised solver result and the commanded vector: [d < 0.3] makes
    the normalised result the commanded vector; [0.3 <= d < 0.6] makes
    it [current + 0.2 * (result - current)] joint by joint;
    [d >= 0.6], and likewise a solve that raises, leaves the commanded
    vector as it was before the pass. *)
Theorem C2_jog_gate (a : axis) (d : direction) (s s' : CartesianView) (tcp : Mat4) :
  (6 <= List.length (commanded_joints s))%nat ->
  forward_kinematics (ik s) (commanded_joints s) = Some tcp ->
  jog_pass a d s = Some s' ->
  let cur := commanded_joints s in
  let target := jog_target a d (jog_speed_percent s) tcp in
  match inverse_kinematics (ik s) (fst target) (snd target) (Some cur) with
  | None => commanded_joints s' = cur
  | Some sol =>
      (6 <= List.length sol)%nat ->
      let nj := map normalize_angle sol in
      let dmax := max_abs_diff nj cur in
      (dmax < 0.3 -> commanded_joints s' = nj) /\
      (0.3 <= dmax < 0.6 -> commanded_joints s' = blend nj cur) /\
      (0.6 <= dmax -> commanded_joints s' = cur)
  end.
Proof.
  intros Hc Hfk Hpass cur target.
  unfold jog_pass in Hpass. rewrite Hfk in Hpass.
  fold target in Hpass. destruct target as [tp tr] eqn:Et.
  injection Hpass as <-. rewrite send_current_pose_commanded.
  simpl fst. simpl snd.
  destruct (inverse_kinematics (ik s) tp tr (Some cur)) as [sol|] eqn:Hik.
  - intros Hs nj dmax.
    destruct (jog_try_cases (ik s) tp tr cur sol Hik Hs Hc) as [H1 [H2 H3]].
    fold nj dmax in H1, H2, H3. fold cur.
    repeat split; intros H.
    + rewrite (H1 H). reflexivity.
    + rewrite (H2 H). reflexivity.
    + rewrite (H3 H). reflexivity.
  - fold cur. unfold jog_try. rewrite Hik. reflexivity.
Qed.

(** ** The gantry chain, evaluated *)

Lemma maly_rotation : from_euler_xyz_deg (mkVec3 0 (-180) 0) = half_turn_y.
Proof.
  unfold from_euler_xyz_deg, np_radians. simpl vx. simpl vy. simpl vz.
  replace (0 * PI / 180) with 0 by field.
  replace (-180 * PI / 180) with (- PI) by field.
  unfold rot_x, rot_y, rot_z.
  rewrite cos_neg, sin_neg, cos_0, sin_0, cos_PI, sin_PI.
  unfold mat_mul, dot, col1, col2, col3, half_turn_y. simpl.
  componentwise.
Qed.

Lemma half_turn_y_inv : np_linalg_inv half_turn_y = Some half_turn_y.
Proof.
  unfold np_linalg_inv, half_turn_y.
  assert (Hd : det3 (mkMat3 (mkVec3 (-1) 0 0) (mkVec3 0 1 0) (mkVec3 0 0 (-1))) = 1).
  { unfold det3. lra. }
  rewrite Hd.
  destruct (Req_dec_T 1 0) as [E|_]; [lra|].
  componentwise.
Qed.

Lemma gantry_tool_rotation :
  tool_rotation_matrix Gantry.gantry_engine = half_turn_y.
Proof. simpl. apply maly_rotation. Qed.

Lemma gantry_forward (q0 q1 q2 q3 q4 q5 : R) :
  forward_kinematics Gantry.gantry_engine [q0; q1; q2; q3; q4; q5]
  = Some (mkMat4 half_turn_y (mkVec3 (q0 + 0.1) q1 (q2 - 0.09)) (0, 0, 0, 1)).
Proof.
  unfold forward_kinematics.
  change (_active_to_full Gantry.gantry_engine [q0; q1; q2; q3; q4; q5])
    with (Some [0; q0; q1; q2; q3; q4; q5]).
  cbv iota beta zeta.
  rewrite gantry_tool_rotation.
  simpl.
  unfold mat_mul, dot, col1, col2, col3, half_turn_y, mat3_eye, vec3_add, mat_vec,
    vec3_zero. simpl.
  componentwise.
Qed.

Lemma gantry_inverse (p : Vec3) (q0 q1 q2 q3 q4 q5 : R) :
  inverse_kinematics Gantry.gantry_engine p half_turn_y
    (Some [q0; q1; q2; q3; q4; q5])
  = Some [vx p - 0.1; vy p; vz p + 0.09; q3; q4; q5].
Proof.
  unfold inverse_kinematics.
  rewrite gantry_tool_rotation, half_turn_y_inv.
  change (_active_to_full Gantry.gantry_engine [q0; q1; q2; q3; q4; q5])
    with (Some [0; q0; q1; q2; q3; q4; q5]).
  cbv iota beta zeta.
  simpl. destruct p as [px py pz].
  unfold vec3_sub, mat_vec, mat_mul, dot, col1, col2, col3, half_turn_y, vec3_zero.
  simpl. unfold _full_to_active. simpl. componentwise.
Qed.

Lemma max_abs_diff_lt (nj cur : list R) (b : R) :
  (forall i, (i < 6)%nat -> Rabs (nth i nj 0 - nth i cur 0) < b) ->
  max_abs_diff nj cur < b.
Proof.
  intros H. destruct (max_abs_diff_spec nj cur) as [_ [i [Hi ->]]]. apply H, Hi.
Qed.


(** The pose the gantry reports for a commanded vector, and the pass
    a linear jog performs from it. *)
Lemma gantry_view_fields (homed : bool) (q : list R) :
  ik (Gantry.gantry_view homed q) = Gantry.gantry_engine /\
  commanded_joints (Gantry.gantry_view homed q) = q /\
  jog_speed_percent (Gantry.gantry_view homed q) = 50.
Proof. repeat split. Qed.

Lemma gantry_pass_some (a : axis) (d : direction) (homed : bool)
  (q0 q1 q2 q3 q4 q5 : R) :
  exists s', jog_pass a d (Gantry.gantry_view homed [q0; q1; q2; q3; q4; q5]) = Some s'.
Proof.
  unfold jog_pass.
  destruct (gantry_view_fields homed [q0; q1; q2; q3; q4; q5]) as [-> [-> ->]].
  rewrite gantry_forward.
  destruct (jog_target a d 50 _) as [tp tr]. eauto.
Qed.

(** C2 witness: one +x pass of the gantry from the zero vector moves
    the first joint by one millimetre, a step far below 0.3. *)
Lemma C2_jog_gate_witness :
  exists s',
    jog_pass AxX Plus (Gantry.gantry_view true [0; 0; 0; 0; 0; 0]) = Some s' /\
    commanded_joints s' = [0.001; 0; 0; 0; 0; 0].
Proof.
  set (s := Gantry.gantry_view true [0; 0; 0; 0; 0; 0]).
  destruct (gantry_pass_some AxX Plus true 0 0 0 0 0 0) as [s' Hpass].
  fold s in Hpass. exists s'. split; [exact Hpass|].
  assert (Hlen : (6 <= List.length (commanded_joints s))%nat) by (simpl; lia).
  pose proof (gantry_forward 0 0 0 0 0 0) as Hfk.
  pose proof (C2_jog_gate AxX Plus s s' _ Hlen Hfk Hpass) as H.
  cbv zeta in H.
  assert (Hik : inverse_kinematics (ik s)
            (fst (jog_target AxX Plus (jog_speed_percent s)
                    (mkMat4 half_turn_y (mkVec3 (0 + 0.1) 0 (0 - 0.09)) (0, 0, 0, 1))))
            (snd (jog_target AxX Plus (jog_speed_percent s)
                    (mkMat4 half_turn_y (mkVec3 (0 + 0.1) 0 (0 - 0.09)) (0, 0, 0, 1))))
            (Some (commanded_joints s))
          = Some [0.001; 0; 0; 0; 0; 0]).
  { etransitivity; [apply gantry_inverse|].
    simpl. componentwise; real_cases. }
  rewrite Hik in H.
  assert (Hnj : map normalize_angle [0.001; 0; 0; 0; 0; 0] = [0.001; 0; 0; 0; 0; 0]).
  { pose proof PI_gt_3. simpl. rewrite !normalize_angle_id by lra. reflexivity. }
  rewrite Hnj in H.
  destruct H as [H _]; [simpl; lia|].
  apply H. apply max_abs_diff_lt.
  intros i Hi.
  assert (Hcase : (i = 0 \/ i = 1 \/ i = 2 \/ i = 3 \/ i = 4 \/ i = 5)%nat) by lia.
  destruct Hcase as [->|[->|[->|[->|[->| ->]]]]]; simpl; real_cases.
Defined.

(** ** C3: the workspace clamp *)








(** ** C4: feedback never overwrites the command while motion is recent *)

(** A loop whose body rewrites entry [i] of a list of length [n] as a
    function of its old value, visiting distinct indices. *)
Lemma for_each_update (body : nat -> list R -> option (list R))
  (w : nat -> R -> R) (n : nat) :
  (forall i l, (i < n)%nat -> List.length l = n ->
     exists l', body i l = Some l' /\ List.length l' = n /\
       nth i l' 0 = w i (nth i l 0) /\
       forall j, j <> i -> nth j l' 0 = nth j l 0) ->
  forall idxs l, NoDup idxs -> (forall i, In i idxs -> (i < n)%nat) ->
    List.length l = n ->
    exists l', for_each idxs body l = (l', true) /\ List.length l' = n /\
      (forall i, In i idxs -> nth i l' 0 = w i (nth i l 0)) /\
      (forall j, ~ In j idxs -> nth j l' 0 = nth j l 0).
Proof.
  intros Hbody. induction idxs as [|i rest IH]; intros l Hnd Hlt Hlen.
  - exists l. simpl. repeat split; auto. intros i [].
  - inversion Hnd as [|? ? Hnotin Hnd']; subst.
    destruct (Hbody i l) as [l1 [E1 [L1 [Hi Ho]]]]; [apply Hlt; left; reflexivity | reflexivity |].
    destruct (IH l1 Hnd') as [l' [E' [L' [Hin Hout]]]].
    { intros j Hj. apply Hlt. right. exact Hj. }
    { exact L1. }
    exists l'. simpl. rewrite E1. split; [exact E'|]. split; [exact L'|]. split.
    + intros j [<-|Hj].
      * rewrite Hout by exact Hnotin. exact Hi.
      * rewrite Hin by exact Hj. f_equal. apply Ho. intros ->. contradiction.
    + intros j Hj. rewrite Hout by (intros Hr; apply Hj; right; exact Hr).
      apply Ho. intros ->. apply Hj. left. reflexivity.
Qed.

Lemma list_set_update (i : nat) (v : R) (l : list R) :
  (i < List.length l)%nat ->
  exists l', list_set i v l = Some l' /\ List.length l' = List.length l /\
    nth i l' 0 = v /\ forall j, j <> i -> nth j l' 0 = nth j l 0.
Proof.
  intros Hi. destruct (list_set_some i v l Hi) as [l' E]. exists l'.
  split; [exact E|]. split; [eapply list_set_length; eauto|].
  split; [eapply list_set_nth_same; eauto|].
  intros j Hj. eapply list_set_nth_other; eauto.
Qed.

(** The display copy of the feedback after a sample. *)
Lemma store_feedback_spec (jv : dict) (fb : list R) :
  List.length fb = 6%nat ->
  exists fb',
    for_each (seq 0 6)
      (fun i fb => match dict_get (joint_key i) jv with
                   | Some v => list_set i v fb
                   | None => Some fb
                   end) fb = (fb', true) /\
    List.length fb' = 6%nat /\
    forall i, (i < 6)%nat ->
      nth i fb' 0 = match dict_get (joint_key i) jv with
                    | Some v => v
                    | None => nth i fb 0
                    end.
Proof.
  intros Hlen.
  destruct (for_each_update
              (fun i fb => match dict_get (joint_key i) jv with
                           | Some v => list_set i v fb
                           | None => Some fb
                           end)
              (fun i c => match dict_get (joint_key i) jv with
                          | Some v => v
                          | None => c
                          end) 6) with (idxs := seq 0 6) (l := fb)
    as [fb' [E [L [Hin _]]]].
  - intros i l Hi Hl. destruct (dict_get (joint_key i) jv) as [v|].
    + rewrite <- Hl. apply list_set_update. lia.
    + exists l. auto.
  - apply seq_NoDup.
  - intros i Hi. apply in_seq in Hi. lia.
  - exact Hlen.
  - exists fb'. split; [exact E|]. split; [exact L|].
    intros i Hi. apply Hin. apply in_seq. lia.
Qed.

(** The resynchronisation loop. *)
Lemma resync_spec (frad cmd : list R) :
  List.length frad = 6%nat -> List.length cmd = 6%nat ->
  exists cmd' ok,
    for_each (seq 0 6)
      (fun i cmd =>
         match nth_error cmd i, nth_error frad i with
         | Some c, Some f =>
             if Rltb (np_radians 0.5) (Rabs (c - f)) then list_set i f cmd
             else Some cmd
         | _, _ => None
         end) cmd = (cmd', ok) /\
    List.length cmd' = 6%nat /\
    forall i, (i < 6)%nat ->
      nth i cmd' 0
      = if Rltb (np_radians 0.5) (Rabs (nth i cmd 0 - nth i frad 0))
        then nth i frad 0 else nth i cmd 0.
Proof.
  intros Hf Hc.
  destruct (for_each_update
              (fun i cmd =>
                 match nth_error cmd i, nth_error frad i with
                 | Some c, Some f =>
                     if Rltb (np_radians 0.5) (Rabs (c - f)) then list_set i f cmd
                     else Some cmd
                 | _, _ => None
                 end)
              (fun i c => if Rltb (np_radians 0.5) (Rabs (c - nth i frad 0))
                          then nth i frad 0 else c) 6)
    with (idxs := seq 0 6) (l := cmd) as [cmd' [E [L [Hin _]]]].
  - intros i l Hi Hl.
    rewrite !nth_error_nth_R by lia.
    destruct (Rltb (np_radians 0.5) (Rabs (nth i l 0 - nth i frad 0))).
    + rewrite <- Hl. apply list_set_update. lia.
    + exists l. auto.
  - apply seq_NoDup.
  - intros i Hi. apply in_seq in Hi. lia.
  - exact Hc.
  - exists cmd', true. split; [exact E|]. split; [exact L|].
    intros i Hi. apply Hin. apply in_seq. lia.
Qed.



(** The fallback sync of the update loop looks at the motion flag only,
    not at the time since the last motion: with an all-zero commanded
    vector and a non-zero feedback it copies the feedback over, however
    recently the motion ended. *)
Lemma update_loop_fallback (s : CartesianView) :
  is_jogging s = false ->
  forallb (fun v => Rltb (Rabs v) 0.001) (commanded_joints s) = true ->
  existsb (fun v => Rltb 0.01 (Rabs v)) (feedback_joints_deg s) = true ->
  commanded_joints (_update_loop_pass s) = map np_radians (feedback_joints_deg s).
Proof.
  intros Hj Hz Hf. unfold _update_loop_pass. rewrite Hj, Hz, Hf. reflexivity.
Qed.

(** Both ways a motion ends stamp the time the window is counted from. *)
Lemma motion_end_stamps_time (now : R) (s : CartesianView) :
  last_jog_time (on_jog_stop now s) = now /\ is_jogging (on_jog_stop now s) = false /\
  last_jog_time (run_finally now s) = now /\ is_jogging (run_finally now s) = false.
Proof. repeat split. Qed.

(** The velocity buttons keep the speed between 10 and 100 percent. *)
Lemma change_speed_range (delta : R) (s : CartesianView) :
  10 <= jog_speed_percent (change_speed delta s) <= 100.
Proof. unfold change_speed. simpl. real_cases. Qed.

(** ** C5: the homing gate *)

(** A Cartesian jog requested before homing is refused: no worker, no
    change to the commanded vector or to the motion flag, and with a
    page and an error handler attached the dialog is shown and E1 is
    reported. *)
Lemma cartesian_jog_needs_homing (a : axis) (d : direction) (s : CartesianView) :
  is_robot_homed s = false ->
  let r := on_jog_start a d s in
  snd r = None /\
  commanded_joints (fst r) = commanded_joints s /\
  is_jogging (fst r) = is_jogging s /\
  (has_page (env s) = true ->
   dialog (fst r) = Some "HOMING REQUIRED"%string /\
   (has_on_error (env s) = true -> In "E1"%string (error_log (fst r)))).
Proof.
  intros Hh r. subst r. unfold on_jog_start. rewrite Hh. simpl.
  unfold show_homing_required_dialog, report.
  destruct (has_page (env s)) eqn:Hp; simpl; repeat split;
    try (destruct (has_on_error (env s)); reflexivity); try discriminate.
  intros He. rewrite He. simpl. left. reflexivity.
Qed.

(** The same gate in the joint view. *)
Lemma joint_jog_needs_homing (code : string) (d : direction) (s : Jog.JogView) :
  Jog.is_robot_homed s = false ->
  let r := Jog.on_jog_start code d s in
  snd r = None /\
  Jog.internal_target_values (fst r) = Jog.internal_target_values s /\
  Jog.is_jogging (fst r) = Jog.is_jogging s /\
  (has_page (Jog.env s) = true ->
   Jog.dialog (fst r) = Some "HOMING REQUIRED"%string /\
   (has_on_error (Jog.env s) = true -> In "E1"%string (Jog.error_log (fst r)))).
Proof.
  intros Hh r. subst r. unfold Jog.on_jog_start. rewrite Hh. simpl.
  unfold Jog.show_homing_required_dialog, Jog.report.
  destruct (has_page (Jog.env s)) eqn:Hp; simpl; repeat split;
    try (destruct (has_on_error (Jog.env s)); reflexivity); try discriminate.
  intros He. rewrite He. simpl. left. reflexivity.
Qed.

(** The point-to-point moves have no such gate: whatever the homing
    state, an idle view accepts the move and starts the worker. *)
Lemma cartesian_move_ignores_homing (target : list R) (s : CartesianView) :
  is_jogging s = false ->
  _animate_move target s = (with_is_jogging true s, Some (MoveThread target)).
Proof. intros H. unfold _animate_move. rewrite H. reflexivity. Qed.

Lemma joint_move_ignores_homing (target : list R) (s : Jog.JogView) :
  Jog.is_jogging s = false ->
  Jog._animate_move target s
  = (Jog.with_is_jogging true s, Some (Jog.MoveThread target)).
Proof. intros H. unfold Jog._animate_move. rewrite H. reflexivity. Qed.

(** ** Norms and the interpolation step *)

Lemma sum_sq_nonneg (v : list R) : 0 <= sum_sq v.
Proof.
  induction v as [|x t IH]; simpl; [lra|]. pose proof (Rle_0_sqr x) as H.
  unfold Rsqr in H. lra.
Qed.

Lemma np_norm_nonneg (v : list R) : 0 <= np_norm v.
Proof. unfold np_norm. apply sqrt_pos. Qed.

Lemma sum_sq_vscale (k : R) (v : list R) : sum_sq (vscale k v) = k * k * sum_sq v.
Proof.
  induction v as [|x t IH].
  - unfold vscale, sum_sq. simpl. lra.
  - change (sum_sq (vscale k (x :: t))) with (x * k * (x * k) + sum_sq (vscale k t)).
    change (sum_sq (x :: t)) with (x * x + sum_sq t).
    rewrite IH. ring.
Qed.

Lemma np_norm_vscale (k : R) (v : list R) :
  0 <= k -> np_norm (vscale k v) = k * np_norm v.
Proof.
  intros Hk. unfold np_norm. rewrite sum_sq_vscale.
  rewrite sqrt_mult_alt by nra.
  rewrite sqrt_square by exact Hk. reflexivity.
Qed.

Lemma sqrt_lower (a x : R) : 0 <= a -> a * a <= x -> a <= sqrt x.
Proof.
  intros Ha Hx. rewrite <- (sqrt_square a Ha). apply sqrt_le_1_alt. exact Hx.
Qed.

Lemma vsub_length (a b : list R) :
  List.length a = List.length b -> List.length (vsub a b) = List.length a.
Proof.
  revert b. induction a as [|x a IH]; intros [|y b] H; simpl in *; try lia.
  f_equal. apply IH. lia.
Qed.

Lemma vadd_length (a b : list R) :
  List.length a = List.length b -> List.length (vadd a b) = List.length a.
Proof.
  revert b. induction a as [|x a IH]; intros [|y b] H; simpl in *; try lia.
  f_equal. apply IH. lia.
Qed.

(** After a step of length [step] along the unit direction to the
    target, what remains is the old difference shrunk by
    [1 - step / dist]. *)
Lemma remaining_after_step (target cur : list R) (dist step : R) :
  dist <> 0 -> List.length target = List.length cur ->
  vsub target (vadd cur (vscale step (vdiv (vsub target cur) dist)))
  = vscale (1 - step / dist) (vsub target cur).
Proof.
  intros Hd. revert cur.
  induction target as [|t target IH]; intros [|c cur] Hlen; simpl in *;
    try reflexivity; try lia.
  f_equal.
  - field. exact Hd.
  - apply IH. lia.
Qed.

Lemma step_length (target cur : list R) (dist step : R) :
  List.length target = List.length cur ->
  List.length (vadd cur (vscale step (vdiv (vsub target cur) dist)))
  = List.length cur.
Proof.
  intros H. rewrite vadd_length; [reflexivity|].
  unfold vscale, vdiv. rewrite !length_map. rewrite vsub_length; lia.
Qed.

(** The distance left after a step clamped to the distance. *)
Lemma distance_after_step (target cur : list R) (max_step : R) :
  List.length target = List.length cur ->
  let dist := np_norm (vsub target cur) in
  0 < dist ->
  let step := Rmin dist max_step in
  np_norm (vsub target (vadd cur (vscale step (vdiv (vsub target cur) dist))))
  = dist - step.
Proof.
  intros Hlen dist Hd step.
  rewrite remaining_after_step by (try lra; assumption).
  assert (Hs : step <= dist) by (unfold step; apply Rmin_l).
  assert (Hk : 0 <= 1 - step / dist).
  { assert (step / dist <= 1); [|lra].
    apply Rmult_le_reg_r with dist; [exact Hd|].
    unfold Rdiv. rewrite Rmult_assoc, Rinv_l; lra. }
  rewrite np_norm_vscale by exact Hk. fold dist. field. lra.
Qed.

(** ** The Cartesian move loop *)

Lemma cartesian_run_pass_snap (target : list R) (now : R) (s : CartesianView)
  (cur : list R) :
  is_jogging s = true -> alive s = true ->
  List.length target = List.length cur ->
  np_norm (vsub target cur) < 0.005 ->
  exists s', run_pass target now s cur = Finished s' /\
    commanded_joints s' = target /\ is_jogging s' = false /\
    last_jog_time s' = now.
Proof.
  intros Hj Ha Hlen Hd. unfold run_pass. rewrite Hj, Ha, Hlen, Nat.eqb_refl.
  simpl. rewrite Rltb_true by exact Hd.
  eexists. split; [reflexivity|].
  unfold run_finally, send_current_pose.
  destruct (has_uart _ && uart_is_open _); simpl; auto.
Qed.

Lemma cartesian_run_pass_step (target : list R) (now : R) (s : CartesianView)
  (cur : list R) :
  is_jogging s = true -> alive s = true ->
  List.length target = List.length cur ->
  let dist := np_norm (vsub target cur) in
  0.005 <= dist ->
  exists s' cur',
    run_pass target now s cur = Running s' cur' /\
    commanded_joints s' = cur' /\
    is_jogging s' = true /\ alive s' = true /\
    jog_speed_percent s' = jog_speed_percent s /\
    List.length target = List.length cur' /\
    np_norm (vsub target cur')
    = dist - Rmin dist (0.075 * (jog_speed_percent s / 100)).
Proof.
  intros Hj Ha Hlen dist Hd. unfold run_pass. rewrite Hj, Ha, Hlen, Nat.eqb_refl.
  simpl. fold dist. rewrite Rltb_false by exact Hd.
  eexists. eexists. split; [reflexivity|].
  unfold send_current_pose.
  repeat split; try (destruct (has_uart _ && uart_is_open _); simpl; auto; fail).
  - rewrite step_length; auto.
  - apply distance_after_step; [exact Hlen | fold dist; lra].
Qed.

Lemma run_passes_finished (n : nat) (target : list R) (now : R) (s : CartesianView) :
  run_passes n target now (Finished s) = Finished s.
Proof. induction n as [|n IH]; simpl; auto. Qed.

(** The Cartesian move reaches its target exactly within a number of
    passes fixed by the starting distance, for any speed setting of at
    least 10 percent. *)
Lemma cartesian_run_terminates (n : nat) (target : list R) (now : R) :
  forall (s : CartesianView) (cur : list R),
    is_jogging s = true -> alive s = true ->
    List.length target = List.length cur ->
    10 <= jog_speed_percent s ->
    np_norm (vsub target cur) < 0.005 + INR n * 0.0075 ->
    exists s', run_passes (S n) target now (Running s cur) = Finished s' /\
      commanded_joints s' = target /\ is_jogging s' = false.
Proof.
  induction n as [|n IH]; intros s cur Hj Ha Hlen Hsp Hd.
  - simpl in Hd.
    destruct (cartesian_run_pass_snap target now s cur Hj Ha Hlen) as [s' [E [Hc [Hf _]]]];
      [lra|].
    exists s'. simpl. rewrite E. auto.
  - destruct (Rlt_le_dec (np_norm (vsub target cur)) 0.005) as [Hlt|Hge].
    + destruct (cartesian_run_pass_snap target now s cur Hj Ha Hlen Hlt)
        as [s' [E [Hc [Hf _]]]].
      exists s'. change (run_passes (S (S n)) target now (Running s cur))
        with (run_passes (S n) target now (run_pass target now s cur)).
      rewrite E, run_passes_finished. auto.
    + destruct (cartesian_run_pass_step target now s cur Hj Ha Hlen Hge)
        as [s1 [cur1 [E [Hc1 [Hj1 [Ha1 [Hsp1 [Hlen1 Hd1]]]]]]]].
      change (run_passes (S (S n)) target now (Running s cur))
        with (run_passes (S n) target now (run_pass target now s cur)).
      rewrite E. apply IH; try assumption.
      * rewrite Hsp1. exact Hsp.
      * rewrite Hd1. rewrite S_INR in Hd. pose proof (pos_INR n) as Hn.
        unfold Rmin. destruct (Rle_dec _ _); lra.
Qed.

(** C5 at the failing input.  A freshly created Cartesian view is not
    homed.  Pressing SAFETY nevertheless starts the move worker: no
    E1, no dialog, the motion flag is set, and the first pass of the
    worker already changes the commanded vector. *)
Theorem C5_move_accepted_before_homing (loaded : option Chain) (e : Collaborators)
  (now : R) :
  let s := CartesianView_init loaded e in
  let r := on_safety_click s in
  let target := map np_radians SAFETY_TARGET_DEG in
  is_robot_homed s = false /\
  snd r = Some (MoveThread target) /\
  is_jogging (fst r) = true /\
  ~ In "E1"%string (error_log (fst r)) /\
  dialog (fst r) = None /\
  exists s2 cur2,
    run_pass target now (fst r) (commanded_joints (fst r)) = Running s2 cur2 /\
    commanded_joints s2 <> commanded_joints s.
Proof.
  intros s r target.
  assert (Hr : r = (with_is_jogging true (report "W2" s),
                    Some (MoveThread target))).
  { subst r. unfold on_safety_click, _animate_move, report.
    destruct (has_on_error (env s)); reflexivity. }
  rewrite Hr. simpl fst. simpl snd.
  split; [reflexivity|]. split; [reflexivity|]. split; [reflexivity|].
  split.
  { unfold report. destruct e as [pg oe u uo]. destruct oe; simpl.
    - intros [H|[]]. discriminate.
    - intros []. }
  split.
  { unfold report. destruct e as [pg oe u uo]. destruct oe; reflexivity. }
  set (s1 := with_is_jogging true (report "W2" s)).
  assert (Hcmd : commanded_joints s1 = [0; 0; 0; 0; 0; 0]).
  { subst s1. unfold report. destruct (has_on_error (env s)); reflexivity. }
  assert (Hsp : jog_speed_percent s1 = 50).
  { subst s1. unfold report. destruct (has_on_error (env s)); reflexivity. }
  assert (Hal : alive s1 = true).
  { subst s1. unfold report. destruct (has_on_error (env s)); reflexivity. }
  rewrite Hcmd.
  assert (Hdist : 0.005 <= np_norm (vsub target [0; 0; 0; 0; 0; 0])).
  { apply sqrt_lower; [lra|]. subst target. unfold SAFETY_TARGET_DEG, np_radians.
    simpl. pose proof PI_gt_3. nra. }
  destruct (cartesian_run_pass_step target now s1 [0; 0; 0; 0; 0; 0])
    as [s2 [cur2 [E [Hc2 [_ [_ [_ [_ Hd2]]]]]]]]; try reflexivity; try assumption.
  exists s2, cur2. split; [exact E|].
  intros Heq. change (commanded_joints s) with [0; 0; 0; 0; 0; 0] in Heq.
  rewrite Hc2 in Heq. rewrite Heq, Hsp in Hd2.
  revert Hd2. unfold Rmin. destruct (Rle_dec _ _); lra.
Qed.

(** ** C10: a joint jog stays inside the joint's limits *)

Lemma dict_get_set_same (k : string) (v : R) (d : dict) :
  dict_get k (dict_set k v d) = Some v.
Proof.
  induction d as [|[k' v'] t IH]; simpl.
  - rewrite String.eqb_refl. reflexivity.
  - destruct (String.eqb k k') eqn:E; simpl; rewrite E; [reflexivity | exact IH].
Qed.

(** Once the initial sync is done, refreshing the display leaves the
    targets alone. *)
Lemma update_keeps_targets (joint_values : dict) (s : Jog.JogView) :
  Jog.initial_sync_done s = true ->
  Jog.internal_target_values (Jog.update_joints_and_fk joint_values s)
  = Jog.internal_target_values s /\
  Jog.initial_sync_done (Jog.update_joints_and_fk joint_values s) = true.
Proof.
  intros Hs.
  assert (H : forall jv st, Jog.initial_sync_done st = true ->
            Jog.internal_target_values
              (fold_left (fun st kv => Jog.update_item kv st) jv st)
            = Jog.internal_target_values st /\
            Jog.initial_sync_done
              (fold_left (fun st kv => Jog.update_item kv st) jv st) = true).
  { induction jv as [|[k v] t IH]; intros st Hst; cbn [fold_left]; [auto|].
    assert (Hi : Jog.update_item (k, v) st
                 = Jog.with_raw (dict_set k (- v) (Jog.current_raw_values st)) st).
    { unfold Jog.update_item. simpl. rewrite Hst. reflexivity. }
    rewrite Hi. destruct (IH (Jog.with_raw (dict_set k (- v)
                                (Jog.current_raw_values st)) st)) as [H1 H2];
      [exact Hst|]. split; [rewrite H1; reflexivity | exact H2]. }
  unfold Jog.update_joints_and_fk.
  destruct (H joint_values s Hs) as [H1 H2].
  destruct joint_values; simpl in *; auto.
Qed.

Lemma send_all_joints_targets (s : Jog.JogView) :
  Jog.internal_target_values (Jog.send_all_joints s) = Jog.internal_target_values s /\
  Jog.initial_sync_done (Jog.send_all_joints s) = Jog.initial_sync_done s.
Proof.
  unfold Jog.send_all_joints. destruct (has_uart _ && uart_is_open _); auto.
Qed.



(** The homing gate is what keeps jog passes away from unsynchronised
    targets: a homed view is synced, every operation keeps it so, and a
    jog worker only starts in a homed view. *)
Lemma homed_synced_init (e : Collaborators) : homed_synced (Jog.JogView_init e).
Proof. unfold homed_synced. simpl. discriminate. Qed.

Lemma homed_synced_set_homed (b : bool) (s : Jog.JogView) :
  homed_synced (Jog.set_homed_status b s).
Proof.
  unfold homed_synced, Jog.set_homed_status. destruct b; simpl; [auto | discriminate].
Qed.

Lemma update_homed (joint_values : dict) (s : Jog.JogView) :
  Jog.is_robot_homed (Jog.update_joints_and_fk joint_values s) = Jog.is_robot_homed s.
Proof.
  assert (H : forall jv st,
            Jog.is_robot_homed (fold_left (fun st kv => Jog.update_item kv st) jv st)
            = Jog.is_robot_homed st).
  { induction jv as [|[k v] t IH]; intros st; cbn [fold_left]; [reflexivity|].
    rewrite IH. unfold Jog.update_item.
    destruct (negb (Jog.initial_sync_done _)); reflexivity. }
  unfold Jog.update_joints_and_fk. specialize (H joint_values s).
  destruct joint_values; simpl in *; auto.
Qed.

Lemma homed_synced_update (joint_values : dict) (s : Jog.JogView) :
  homed_synced s -> homed_synced (Jog.update_joints_and_fk joint_values s).
Proof.
  unfold homed_synced. intros H Hh. rewrite update_homed in Hh.
  apply update_keeps_targets. auto.
Qed.

Lemma joint_jog_session_synced (code : string) (d : direction) (s s1 : Jog.JogView)
  (th : Jog.thread) :
  homed_synced s -> Jog.on_jog_start code d s = (s1, Some th) ->
  Jog.initial_sync_done s1 = true /\ th = Jog.JogThread code d.
Proof.
  unfold homed_synced, Jog.on_jog_start. intros H.
  destruct (Jog.is_robot_homed s); simpl; [|discriminate].
  destruct (Jog.is_jogging s); [discriminate|].
  intros E. injection E as <- <-. simpl. auto.
Qed.

(** ** C8: the joint view's move loop before the initial sync *)

(** Before the initial sync, the display refresh at the end of a pass
    writes every target back negated. *)
Lemma commit_unsynced (v0 v1 v2 v3 v4 v5 a0 a1 a2 a3 a4 a5 : R) (s : Jog.JogView) :
  Jog.initial_sync_done s = false ->
  Jog.internal_target_values s = joint_dict a0 a1 a2 a3 a4 a5 ->
  Jog.target_vals (Jog.commit [v0; v1; v2; v3; v4; v5] s)
  = [- v0; - v1; - v2; - v3; - v4; - v5].
Proof.
  destruct s as [j sp h raw tg sd [pg oe u uo] el dl ul]. simpl.
  intros -> ->. unfold Jog.commit, Jog.send_all_joints. simpl.
  destruct (u && uo); reflexivity.
Qed.

(** After the initial sync the stored targets are the ones written. *)
Lemma commit_synced (v0 v1 v2 v3 v4 v5 a0 a1 a2 a3 a4 a5 : R) (s : Jog.JogView) :
  Jog.initial_sync_done s = true ->
  Jog.internal_target_values s = joint_dict a0 a1 a2 a3 a4 a5 ->
  Jog.target_vals (Jog.commit [v0; v1; v2; v3; v4; v5] s)
  = [v0; v1; v2; v3; v4; v5] /\
  Jog.is_jogging (Jog.commit [v0; v1; v2; v3; v4; v5] s) = Jog.is_jogging s.
Proof.
  destruct s as [j sp h raw tg sd [pg oe u uo] el dl ul]. simpl.
  intros -> ->. unfold Jog.commit, Jog.send_all_joints. simpl.
  destruct (u && uo); split; reflexivity.
Qed.

(** Once synced, the joint view's move loop behaves as the Cartesian
    one: it snaps to the target below 0.1 degrees and otherwise
    shortens the distance by the clamped step. *)
Lemma joint_run_pass_synced (t0 t1 t2 t3 t4 t5 a0 a1 a2 a3 a4 a5 : R)
  (s : Jog.JogView) :
  Jog.is_jogging s = true ->
  Jog.initial_sync_done s = true ->
  Jog.internal_target_values s = joint_dict a0 a1 a2 a3 a4 a5 ->
  let target := [t0; t1; t2; t3; t4; t5] in
  let dist := np_norm (vsub target [a0; a1; a2; a3; a4; a5]) in
  (dist < 0.1 ->
   exists s', Jog.run_pass target s = Jog.Finished s' /\
     Jog.target_vals s' = target /\ Jog.is_jogging s' = false) /\
  (0.1 <= dist ->
   exists s', Jog.run_pass target s = Jog.Running s' /\
     Jog.distance_to target s'
     = dist - Rmin dist (4.5 * (Jog.speed_percent s / 100))).
Proof.
  intros Hj Hs Htg target dist.
  assert (Hread : Jog.read_targets s = Some [a0; a1; a2; a3; a4; a5]).
  { unfold Jog.read_targets. rewrite Htg. reflexivity. }
  split; intros Hd; unfold Jog.run_pass; rewrite Hj, Hread; simpl negb; cbv iota;
    fold target; fold dist.
  - rewrite Rltb_true by exact Hd. eexists. split; [reflexivity|].
    destruct (commit_synced t0 t1 t2 t3 t4 t5 a0 a1 a2 a3 a4 a5 s Hs Htg) as [Hv _].
    split; [exact Hv | reflexivity].
  - rewrite Rltb_false by exact Hd. eexists. split; [reflexivity|].
    unfold Jog.distance_to.
    set (step := Rmin dist (4.5 * (Jog.speed_percent s / 100))).
    assert (Hnew : exists v0 v1 v2 v3 v4 v5,
              vadd [a0; a1; a2; a3; a4; a5]
                (vscale step (vdiv (vsub target [a0; a1; a2; a3; a4; a5]) dist))
              = [v0; v1; v2; v3; v4; v5]).
    { repeat eexists. }
    destruct Hnew as [v0 [v1 [v2 [v3 [v4 [v5 Hnew]]]]]].
    rewrite Hnew.
    destruct (commit_synced v0 v1 v2 v3 v4 v5 a0 a1 a2 a3 a4 a5 s Hs Htg) as [Hv _].
    rewrite Hv, <- Hnew.
    apply (distance_after_step target [a0; a1; a2; a3; a4; a5]
             (4.5 * (Jog.speed_percent s / 100))); [reflexivity|].
    fold dist. lra.
Qed.

(** C8 at the failing input.  A joint view fresh from start-up (no
    feedback yet, never homed, all targets zero, speed 50) accepts the
    SAFETY move; the first pass of its worker steps 2.25 degrees
    towards the target and then stores the negated step, so the
    distance to the target after the pass is larger than before. *)
Theorem C8_joint_move_first_pass_recedes (e : Collaborators) :
  let s0 := Jog.JogView_init e in
  let s1 := fst (Jog.on_safety_click s0) in
  snd (Jog.on_safety_click s0) = Some (Jog.MoveThread SAFETY_TARGET_DEG) /\
  exists s2,
    Jog.run_pass SAFETY_TARGET_DEG s1 = Jog.Running s2 /\
    Jog.distance_to SAFETY_TARGET_DEG s1 < Jog.distance_to SAFETY_TARGET_DEG s2.
Proof.
  intros s0 s1.
  assert (Hs1 : s1 = Jog.with_is_jogging true (Jog.report "W2" s0)
                /\ snd (Jog.on_safety_click s0)
                   = Some (Jog.MoveThread SAFETY_TARGET_DEG)).
  { subst s1. unfold Jog.on_safety_click, Jog._animate_move, Jog.report.
    destruct (has_on_error (Jog.env s0)); auto. }
  destruct Hs1 as [Hs1 Hth]. split; [exact Hth|].
  assert (Hf : Jog.is_jogging s1 = true /\ Jog.initial_sync_done s1 = false /\
               Jog.internal_target_values s1 = Jog.zero_joints /\
               Jog.speed_percent s1 = 50).
  { rewrite Hs1. unfold Jog.report. destruct (has_on_error (Jog.env s0)); auto. }
  destruct Hf as [Hj [Hsync [Htg Hsp]]].
  assert (Hread : Jog.read_targets s1 = Some [0; 0; 0; 0; 0; 0]).
  { unfold Jog.read_targets. rewrite Htg. reflexivity. }
  assert (Hvals : Jog.target_vals s1 = [0; 0; 0; 0; 0; 0]).
  { unfold Jog.target_vals. rewrite Htg. reflexivity. }
  set (diff := vsub SAFETY_TARGET_DEG [0; 0; 0; 0; 0; 0]).
  set (dist := np_norm diff).
  assert (Hsum : sum_sq diff = 15500).
  { subst diff. unfold SAFETY_TARGET_DEG, sum_sq. simpl. lra. }
  assert (Hdist : 1 <= dist).
  { subst dist. apply sqrt_lower; lra. }
  assert (Hd2 : dist * dist = 15500).
  { subst dist. unfold np_norm. rewrite sqrt_sqrt; lra. }
  set (step := Rmin dist (4.5 * (50 / 100))).
  assert (Hstep : 0 < step).
  { subst step. clearbody dist. unfold Rmin. destruct (Rle_dec _ _); lra. }
  unfold Jog.run_pass. rewrite Hj, Hread. simpl negb. cbv iota.
  fold diff. fold dist. rewrite Rltb_false by (clearbody dist; lra).
  rewrite Hsp. fold step.
  eexists. split; [reflexivity|].
  unfold Jog.distance_to. rewrite Hvals. fold diff. fold dist.
  assert (Hnew : vadd [0; 0; 0; 0; 0; 0] (vscale step (vdiv diff dist))
                 = [0 + (0 - 0) / dist * step; 0 + (-50 - 0) / dist * step;
                    0 + (70 - 0) / dist * step; 0 + (90 - 0) / dist * step;
                    0 + (0 - 0) / dist * step; 0 + (0 - 0) / dist * step])
    by reflexivity.
  rewrite Hnew, (commit_unsynced _ _ _ _ _ _ 0 0 0 0 0 0) by assumption.
  set (c := step / dist).
  assert (Hc : 0 < c).
  { apply Rdiv_lt_0_compat; [exact Hstep | clearbody dist; lra]. }
  assert (Hk : forall t, t - - (0 + (t - 0) / dist * step) = t * (1 + c)).
  { intros t. unfold c. clearbody step dist. field. lra. }
  clearbody c step dist. clear Hnew.
  match goal with
  | |- _ < np_norm ?v =>
      assert (Hlt : dist * dist < sum_sq v)
  end.
  { unfold SAFETY_TARGET_DEG. cbn [vsub]. rewrite !Hk.
    unfold sum_sq. simpl. nra. }
  apply sqrt_lt_1 in Hlt; [|nra | apply sum_sq_nonneg].
  rewrite sqrt_square in Hlt by lra. exact Hlt.
Qed.
(* ================================================================== *)
(** * Further properties of the engine and of the two views *)

(** ** Matrix algebra *)

Lemma mat_mul_assoc (a b c : Mat3) :
  mat_mul (mat_mul a b) c = mat_mul a (mat_mul b c).
Proof.
  destruct a as [[a1 a2 a3] [a4 a5 a6] [a7 a8 a9]],
           b as [[b1 b2 b3] [b4 b5 b6] [b7 b8 b9]],
           c as [[c1 c2 c3] [c4 c5 c6] [c7 c8 c9]].
  unfold mat_mul, dot, col1, col2, col3; simpl. entrywise ltac:(ring).
Qed.

Lemma mat_mul_eye_r (m : Mat3) : mat_mul m mat3_eye = m.
Proof.
  destruct m as [[a b c] [d e f] [g h i]].
  unfold mat_mul, dot, col1, col2, col3, mat3_eye; simpl. entrywise ltac:(ring).
Qed.

Lemma mat_vec_mul (a b : Mat3) (v : Vec3) :
  mat_vec (mat_mul a b) v = mat_vec a (mat_vec b v).
Proof.
  destruct a as [[a1 a2 a3] [a4 a5 a6] [a7 a8 a9]],
           b as [[b1 b2 b3] [b4 b5 b6] [b7 b8 b9]], v as [x y z].
  unfold mat_vec, mat_mul, dot, col1, col2, col3; simpl. entrywise ltac:(ring).
Qed.

Lemma mat_transpose_mul (a b : Mat3) :
  mat_transpose (mat_mul a b) = mat_mul (mat_transpose b) (mat_transpose a).
Proof.
  destruct a as [[a1 a2 a3] [a4 a5 a6] [a7 a8 a9]],
           b as [[b1 b2 b3] [b4 b5 b6] [b7 b8 b9]].
  unfold mat_transpose, mat_mul, dot, col1, col2, col3; simpl. entrywise ltac:(ring).
Qed.

Lemma det3_mul (a b : Mat3) : det3 (mat_mul a b) = det3 a * det3 b.
Proof.
  destruct a as [[a1 a2 a3] [a4 a5 a6] [a7 a8 a9]],
           b as [[b1 b2 b3] [b4 b5 b6] [b7 b8 b9]].
  unfold mat_mul, dot, col1, col2, col3; simpl. ring.
Qed.

Lemma sin_cos_square (t : R) : cos t * cos t + sin t * sin t = 1.
Proof. pose proof (sin2_cos2 t) as H. unfold Rsqr in H. lra. Qed.

(** Each single-axis rotation has determinant one and its transpose as
    inverse; the rotation by the opposite angle undoes it. *)
Lemma rot_axis_det (t : R) :
  det3 (rot_x t) = 1 /\ det3 (rot_y t) = 1 /\ det3 (rot_z t) = 1.
Proof.
  pose proof (sin_cos_square t). unfold rot_x, rot_y, rot_z; simpl.
  repeat split; lra.
Qed.

Lemma rot_axis_orthonormal (t : R) :
  orthonormal (rot_x t) /\ orthonormal (rot_y t) /\ orthonormal (rot_z t).
Proof.
  pose proof (sin_cos_square t).
  unfold orthonormal, mat_transpose, mat_mul, dot, col1, col2, col3,
    rot_x, rot_y, rot_z, mat3_eye; simpl.
  repeat split; entrywise ltac:(lra).
Qed.

Lemma rot_axis_back (t : R) :
  mat_mul (rot_x t) (rot_x (- t)) = mat3_eye /\
  mat_mul (rot_y t) (rot_y (- t)) = mat3_eye /\
  mat_mul (rot_z t) (rot_z (- t)) = mat3_eye.
Proof.
  pose proof (sin_cos_square t).
  unfold mat_mul, dot, col1, col2, col3, rot_x, rot_y, rot_z, mat3_eye; simpl.
  rewrite cos_neg, sin_neg.
  repeat split; entrywise ltac:(lra).
Qed.

Lemma det3_from_euler (rpy : Vec3) : det3 (from_euler_xyz_deg rpy) = 1.
Proof.
  unfold from_euler_xyz_deg. rewrite !det3_mul.
  destruct (rot_axis_det (np_radians (vx rpy))) as [-> _].
  destruct (rot_axis_det (np_radians (vy rpy))) as [_ [-> _]].
  destruct (rot_axis_det (np_radians (vz rpy))) as [_ [_ ->]].
  lra.
Qed.

(** [np.linalg.inv] of a regular matrix returns its two-sided inverse. *)
Lemma np_linalg_inv_spec (m : Mat3) :
  det3 m <> 0 ->
  exists inv, np_linalg_inv m = Some inv /\
    mat_mul inv m = mat3_eye /\ mat_mul m inv = mat3_eye.
Proof.
  destruct m as [[a b c] [d e f] [g h i]]. intros Hdet.
  unfold np_linalg_inv.
  destruct (Req_dec_T (det3 (mkMat3 (mkVec3 a b c) (mkVec3 d e f) (mkVec3 g h i))) 0)
    as [E | _]; [contradiction|].
  eexists. split; [reflexivity|].
  unfold det3 in *.
  unfold mat_mul, dot, col1, col2, col3, mat3_eye; simpl.
  split; entrywise ltac:(field; exact Hdet).
Qed.

(** ** The engine: expansion layout, tool compensation *)

Lemma count_true_cons (b : bool) (l : list bool) :
  count_true (b :: l) = ((if b then 1 else 0) + count_true l)%nat.
Proof. destruct b; reflexivity. Qed.

(** Where the scatter loop leaves each entry: the [j]-th active link
    (counting from the cursor) reads entry [j] of the input as long as
    [j < 6]; every other position keeps what the array held. *)
Lemma scatter_layout (mask : list bool) :
  forall i curr arr full full',
    scatter mask i curr arr full = Some full' ->
    forall k, (k < List.length mask)%nat ->
      nth (i + k) full' 0
      = if nth k mask false && (curr + count_true (firstn k mask) <? 6)%nat
        then nth (curr + count_true (firstn k mask)) arr 0
        else nth (i + k) full 0.
Proof.
  induction mask as [|act rest IH]; intros i curr arr full full' H k Hk.
  - simpl in Hk. lia.
  - simpl in H. destruct (act && (curr <? 6)%nat) eqn:E.
    + destruct (nth_error arr curr) as [v|] eqn:En; [|discriminate].
      destruct (list_set i v full) as [full1|] eqn:Es; [|discriminate].
      apply andb_true_iff in E. destruct E as [-> Hc].
      destruct (scatter_below rest _ _ _ _ _ H) as [_ Hb].
      destruct k as [|k].
      * rewrite !Nat.add_0_r. simpl. rewrite Hc.
        rewrite Hb by lia. rewrite (list_set_nth_same _ _ 0 _ _ Es).
        symmetry. apply nth_error_nth. exact En.
      * simpl in Hk. replace (i + S k)%nat with (S i + k)%nat by lia.
        rewrite (IH _ _ _ _ _ H k) by lia.
        rewrite (list_set_nth_other i (S i + k) v 0 _ _ Es) by lia.
        change (firstn (S k) (true :: rest)) with (true :: firstn k rest).
        rewrite count_true_cons.
        change (nth (S k) (true :: rest) false) with (nth k rest false).
        replace (curr + (1 + count_true (firstn k rest)))%nat
          with (S curr + count_true (firstn k rest))%nat by lia.
        reflexivity.
    + destruct (scatter_below rest _ _ _ _ _ H) as [_ Hb].
      destruct k as [|k].
      * rewrite !Nat.add_0_r. simpl. rewrite E. apply Hb. lia.
      * simpl in Hk. replace (i + S k)%nat with (S i + k)%nat by lia.
        rewrite (IH _ _ _ _ _ H k) by lia.
        change (firstn (S k) (act :: rest)) with (act :: firstn k rest).
        rewrite count_true_cons.
        change (nth (S k) (act :: rest) false) with (nth k rest false).
        apply andb_false_iff in E. destruct E as [-> | Hc].
        -- reflexivity.
        -- apply Nat.ltb_ge in Hc.
           replace (curr + count_true (firstn k rest) <? 6)%nat with false
             by (symmetry; apply Nat.ltb_ge; lia).
           replace (curr + ((if act then 1 else 0) + count_true (firstn k rest)) <? 6)%nat
             with false by (symmetry; apply Nat.ltb_ge; lia).
           rewrite !andb_false_r. reflexivity.
Qed.

(** What every engine built from a loaded chain has, whatever tool
    name was passed to [set_tool]: the chain, the mask derived from the
    link types, no world offset and a tool rotation of determinant
    one. *)
Lemma loaded_engine_frame (c : Chain) (tool : string) :
  let eng := set_tool (KinematicsEngine_init (Some c)) tool in
  chain eng = c /\
  active_links_mask eng = Some (auto_mask (links c)) /\
  world_offset eng = vec3_zero /\
  det3 (tool_rotation_matrix eng) = 1.
Proof.
  intros eng.
  destruct (set_tool_frame (KinematicsEngine_init (Some c)) tool) as [Hc [Hm Hw]].
  destruct (init_engine_frame c) as [Hc0 [Hm0 Hw0]].
  fold eng in Hc, Hm, Hw.
  repeat split; try congruence.
  assert (H : exists rpy, tool_rotation_matrix eng = from_euler_xyz_deg rpy).
  { subst eng. unfold set_tool at 1.
    destruct (tools_get tool ROBOT_TOOLS) as [[t rpy]|].
    - exists rpy. reflexivity.
    - exists (mkVec3 0 (-180) 0). reflexivity. }
  destruct H as [rpy ->]. apply det3_from_euler.
Qed.

Lemma inverse_kinematics_request (eng : KinematicsEngine) (p : Vec3) (rot : Mat3)
  (guess : option (list R)) :
  inverse_kinematics eng p rot guess
  = match flange_request eng p rot with
    | None => None
    | Some (fp, fr) =>
        match _active_to_full eng
                (match guess with Some g => g | None => np_zeros 6 end) with
        | None => None
        | Some fg =>
            match chain_inverse_kinematics (chain eng) fp fr fg with
            | None => None
            | Some fs => _full_to_active eng fs
            end
        end
    end.
Proof.
  unfold inverse_kinematics, flange_request.
  destruct (np_linalg_inv (tool_rotation_matrix eng)); reflexivity.
Qed.

(** The requested flange pose, composed with the tool frame, is the
    requested tool pose. *)
Lemma flange_request_spec (eng : KinematicsEngine) (p : Vec3) (rot : Mat3) :
  det3 (tool_rotation_matrix eng) <> 0 ->
  world_offset eng = vec3_zero ->
  exists fp fr,
    flange_request eng p rot = Some (fp, fr) /\
    mat_mul fr (tool_rotation_matrix eng) = rot /\
    vec3_add fp (mat_vec fr (tool_translation eng)) = p.
Proof.
  intros Hdet Hw.
  destruct (np_linalg_inv_spec _ Hdet) as [inv [Ei [Hl _]]].
  unfold flange_request. rewrite Ei, Hw.
  eexists. eexists. split; [reflexivity|]. split.
  - rewrite mat_mul_assoc, Hl. apply mat_mul_eye_r.
  - destruct p as [x y z].
    destruct (mat_vec (mat_mul rot inv) (tool_translation eng)) as [u v w].
    unfold vec3_add, vec3_sub, vec3_zero; simpl. entrywise ltac:(lra).
Qed.

(** X1.  On an engine built from a loaded chain, with any tool name:
    inverting the tool rotation never raises; the chain solver is asked
    for the flange pose that, composed with the tool frame, is exactly
    the requested tool pose; and the call returns the solver's answer
    compressed to the active joints (it raises only if the solver or
    the compression does). *)
Theorem X1_inverse_kinematics_undoes_tool (c : Chain) (tool : string)
  (p : Vec3) (rot : Mat3) (guess : option (list R)) :
  let eng := set_tool (KinematicsEngine_init (Some c)) tool in
  exists fp fr fg,
    _active_to_full eng (match guess with Some g => g | None => np_zeros 6 end)
    = Some fg /\
    mat_mul fr (tool_rotation_matrix eng) = rot /\
    vec3_add fp (mat_vec fr (tool_translation eng)) = p /\
    inverse_kinematics eng p rot guess
    = match chain_inverse_kinematics c fp fr fg with
      | Some fs => _full_to_active eng fs
      | None => None
      end.
Proof.
  intros eng.
  destruct (loaded_engine_frame c tool) as [Hc [Hm [Hw Hd]]]. fold eng in Hc, Hm, Hw, Hd.
  destruct (flange_request_spec eng p rot) as [fp [fr [Er [Hr Hp]]]];
    [rewrite Hd; lra | exact Hw |].
  destruct (active_to_full_some eng (auto_mask (links c))
              (match guess with Some g => g | None => np_zeros 6 end))
    as [fg Eg];
    [exact Hm | rewrite Hc; unfold auto_mask; rewrite length_map; reflexivity |].
  exists fp, fr, fg. repeat split; try assumption.
  rewrite inverse_kinematics_request, Er, Eg, Hc.
  destruct (chain_inverse_kinematics c fp fr fg); reflexivity.
Qed.

(** X2.  The layout [_active_to_full] produces on an engine built from
    a loaded chain: one entry per link; the [j]-th non-fixed link holds
    entry [j] of the (length-coerced) input for [j < 6]; fixed links,
    and any non-fixed link after the sixth, hold zero. *)
Theorem X2_active_to_full_layout (c : Chain) (tool : string) (a : list R) :
  let eng := set_tool (KinematicsEngine_init (Some c)) tool in
  let mask := auto_mask (links c) in
  exists full,
    _active_to_full eng a = Some full /\
    List.length full = List.length (links c) /\
    forall k, (k < List.length (links c))%nat ->
      nth k full 0
      = if nth k mask false && (count_true (firstn k mask) <? 6)%nat
        then nth (count_true (firstn k mask)) (coerce_active a) 0
        else 0.
Proof.
  intros eng mask.
  destruct (loaded_engine_frame c tool) as [Hc [Hm _]]. fold eng in Hc, Hm.
  assert (Hlen : List.length mask = List.length (links c))
    by (unfold mask, auto_mask; apply length_map).
  destruct (active_to_full_some eng mask a) as [full Ef];
    [exact Hm | rewrite Hc; auto |].
  exists full. split; [exact Ef|].
  unfold _active_to_full in Ef. rewrite Hm, Hc in Ef. fold mask in Ef.
  destruct (scatter_below mask _ _ _ _ _ Ef) as [Hl _].
  split.
  - rewrite Hl. unfold np_zeros. apply repeat_length.
  - intros k Hk.
    pose proof (scatter_layout mask _ _ _ _ _ Ef k) as H.
    simpl in H. rewrite H by lia.
    destruct (nth k mask false && (count_true (firstn k mask) <? 6)%nat);
      [reflexivity|].
    unfold np_zeros. apply nth_repeat.
Qed.

Lemma vec3_add_zero_r (v : Vec3) : vec3_add v vec3_zero = v.
Proof. destruct v as [x y z]. unfold vec3_add, vec3_zero; simpl. entrywise ltac:(lra). Qed.

(** Under a six-joint mask, expanding the compression of a full vector
    that is zero at the fixed links gives that vector back. *)
Lemma expand_compressed (eng : KinematicsEngine) (mask : list bool) (fs sol : list R) :
  active_links_mask eng = Some mask ->
  List.length (links (chain eng)) = List.length mask ->
  count_true mask = 6%nat ->
  List.length fs = List.length mask ->
  (forall k, (k < List.length mask)%nat -> nth k mask false = false -> nth k fs 0 = 0) ->
  _full_to_active eng fs = Some sol ->
  _active_to_full eng sol = Some fs.
Proof.
  intros Hm Hl Hsix Hfs Hzero Hc.
  pose proof (count_true_nonempty _ Hsix) as Hne.
  unfold _full_to_active in Hc. rewrite Hm in Hc.
  assert (Hc' : np_compress mask fs = Some sol) by (destruct mask; [congruence | exact Hc]).
  destruct (np_compress_some mask fs) as [r [Er Lr]]; [lia|].
  rewrite Hc' in Er. injection Er as <-. rewrite Hsix in Lr.
  unfold _active_to_full. rewrite Hm, Hl, (coerce_active_six sol Lr).
  destruct (scatter_some mask 0 0 sol (np_zeros (List.length mask))) as [full' Ef];
    [unfold np_zeros; rewrite repeat_length; lia | lia |].
  rewrite Ef. f_equal.
  destruct (scatter_below mask _ _ _ _ _ Ef) as [Hlen _].
  unfold np_zeros in Hlen. rewrite repeat_length in Hlen.
  apply (nth_ext _ _ 0 0); [lia|].
  intros k Hk. rewrite Hlen in Hk.
  destruct (nth k mask false) eqn:Ek.
  - apply (scatter_compress mask 0 0 sol _ full' fs sol Ef); try assumption.
    + lia.
    + rewrite Hsix. change (skipn 0 sol) with sol. rewrite <- Lr. apply firstn_all.
  - pose proof (scatter_layout mask _ _ _ _ _ Ef k Hk) as H.
    simpl in H. rewrite H, Ek. simpl.
    unfold np_zeros. rewrite nth_repeat. symmetry. apply Hzero; assumption.
Qed.

(** X3.  Solving and then evaluating reaches the requested tool pose.
    On an engine built from a loaded chain with six non-fixed links: if
    the chain solver's answer to the flange request is exact (its own
    forward kinematics gives the requested flange pose) and has one
    entry per link with zeros at the fixed links, then forward
    kinematics of the joints [inverse_kinematics] returns is exactly
    the requested position and orientation. *)
Theorem X3_solution_reaches_requested_pose (c : Chain) (tool : string)
  (p : Vec3) (rot : Mat3) (guess : option (list R)) (sol : list R) :
  let eng := set_tool (KinematicsEngine_init (Some c)) tool in
  count_true (auto_mask (links c)) = 6%nat ->
  (forall fp fr fg fs,
     flange_request eng p rot = Some (fp, fr) ->
     chain_inverse_kinematics c fp fr fg = Some fs ->
     List.length fs = List.length (links c) /\
     (forall k, (k < List.length (links c))%nat ->
        nth k (auto_mask (links c)) false = false -> nth k fs 0 = 0) /\
     m_pos (chain_forward_kinematics c fs) = fp /\
     m_rot (chain_forward_kinematics c fs) = fr) ->
  inverse_kinematics eng p rot guess = Some sol ->
  exists tcp,
    forward_kinematics eng sol = Some tcp /\ m_pos tcp = p /\ m_rot tcp = rot.
Proof.
  intros eng Hsix Hexact Hik.
  destruct (loaded_engine_frame c tool) as [Hc [Hm [Hw Hd]]]. fold eng in Hc, Hm, Hw, Hd.
  assert (Hlen : List.length (auto_mask (links c)) = List.length (links c))
    by (unfold auto_mask; apply length_map).
  destruct (flange_request_spec eng p rot) as [fp [fr [Er [Hr Hp]]]];
    [rewrite Hd; lra | exact Hw |].
  rewrite inverse_kinematics_request, Er, Hc in Hik.
  destruct (_active_to_full eng (match guess with Some g => g | None => np_zeros 6 end))
    as [fg|]; [|discriminate].
  destruct (chain_inverse_kinematics c fp fr fg) as [fs|] eqn:Es; [|discriminate].
  destruct (Hexact fp fr fg fs Er Es) as [Hfs [Hzero [Hpos Hrot]]].
  assert (Hfull : _active_to_full eng sol = Some fs).
  { apply (expand_compressed eng (auto_mask (links c))); try assumption.
    - rewrite Hc, Hlen. reflexivity.
    - rewrite Hlen. exact Hfs.
    - rewrite Hlen. exact Hzero. }
  unfold forward_kinematics. rewrite Hfull, Hc, Hw, Hpos, Hrot.
  eexists. split; [reflexivity|]. simpl. split.
  - rewrite vec3_add_zero_r. exact Hp.
  - exact Hr.
Qed.

(** X3 witness: the gantry, asked for the point (0.3, 0.1, 0.2) with
    the tool pointing down. *)
Lemma X3_solution_reaches_requested_pose_witness :
  exists tcp,
    forward_kinematics Gantry.gantry_engine [0.3 - 0.1; 0.1; 0.2 + 0.09; 0; 0; 0]
    = Some tcp /\
    m_pos tcp = mkVec3 0.3 0.1 0.2 /\ m_rot tcp = half_turn_y.
Proof.
  apply (X3_solution_reaches_requested_pose Gantry.gantry_chain "CHWYTAK_MALY"
           (mkVec3 0.3 0.1 0.2) half_turn_y (Some [0; 0; 0; 0; 0; 0])).
  - reflexivity.
  - intros fp fr fg fs Hreq Hs.
    unfold flange_request in Hreq.
    change (tool_rotation_matrix
              (set_tool (KinematicsEngine_init (Some Gantry.gantry_chain))
                 "CHWYTAK_MALY"))
      with (from_euler_xyz_deg (mkVec3 0 (-180) 0)) in Hreq.
    rewrite maly_rotation, half_turn_y_inv in Hreq.
    injection Hreq as <- <-.
    simpl in Hs. injection Hs as <-.
    split; [reflexivity|]. split; [|split].
    + intros k Hk Hmask.
      destruct k as [|[|[|[|[|[|[|k]]]]]]]; simpl in Hmask; try discriminate;
        [reflexivity | simpl in Hk; lia].
    + reflexivity.
    + unfold Gantry.gantry_fk, half_turn_y, mat_mul, dot, col1, col2, col3;
        simpl. unfold mat3_eye. entrywise ltac:(lra).
  - exact (gantry_inverse (mkVec3 0.3 0.1 0.2) 0 0 0 0 0 0).
Defined.

(** ** Angle normalisation *)



(** ** One Cartesian jog step *)

Lemma np_clip_inside (x lo hi : R) : lo <= x <= hi -> np_clip x lo hi = x.
Proof. intros H. real_cases. Qed.

Lemma step_mm_allowed (speed : R) :
  10 <= speed -> Rmax 0.2 (BASE_STEP_MM * (speed / 100)) = speed / 50.
Proof. intros H. real_cases. Qed.

(** The target pose of a pass whose step stays inside the workspace
    box. *)
Lemma jog_target_unclamped (a : axis) (d : direction) (speed : R) (tcp : Mat4) :
  10 <= speed ->
  in_workspace (stepped a d speed (m_pos tcp)) ->
  jog_target a d speed tcp
  = (stepped a d speed (m_pos tcp),
     let angle := Rmax 0.002 (BASE_STEP_RAD * (speed / 100)) * sign_of d in
     match a with
     | AxRX => mat_mul (m_rot tcp) (rot_x angle)
     | AxRY => mat_mul (m_rot tcp) (rot_y angle)
     | AxRZ => mat_mul (m_rot tcp) (rot_z angle)
     | _ => m_rot tcp
     end).
Proof.
  intros Hs Hin. unfold jog_target. rewrite (step_mm_allowed speed Hs).
  destruct tcp as [rot [x y z] bottom]. unfold in_workspace in Hin.
  cbv zeta. f_equal; [|destruct a; reflexivity].
  unfold WORKSPACE_LIMITS_x, WORKSPACE_LIMITS_y, WORKSPACE_LIMITS_z, vec3_add, vec3_div.
  destruct a, d; unfold stepped, sign_of in *; simpl in *;
    rewrite !np_clip_inside by lra; entrywise ltac:(lra).
Qed.

(** X5.  A linear jog step at an allowed speed (10 to 100 percent)
    whose end point lies in the workspace box: the target is the
    current tool position moved by [speed / 50] millimetres along the
    jogged axis, in the direction of the button, the other two
    coordinates and the orientation unchanged.  The 0.2 mm floor of the
    step never applies at an allowed speed; the step is between 0.2 mm
    and 2 mm. *)
Theorem X5_linear_jog_step (a : axis) (d : direction) (speed : R) (tcp : Mat4) :
  a = AxX \/ a = AxY \/ a = AxZ ->
  10 <= speed <= 100 ->
  in_workspace (stepped a d speed (m_pos tcp)) ->
  jog_target a d speed tcp = (stepped a d speed (m_pos tcp), m_rot tcp) /\
  linear_step speed = speed / 50000 /\
  0.0002 <= linear_step speed <= 0.002.
Proof.
  intros Ha Hs Hin.
  assert (El : linear_step speed = speed / 50000).
  { unfold linear_step. rewrite step_mm_allowed by lra. lra. }
  split; [|split; [exact El | rewrite El; lra]].
  rewrite jog_target_unclamped by (lra || assumption).
  destruct Ha as [-> | [-> | ->]]; reflexivity.
Qed.

(** X5 witness: jogging +X at 50 percent from the origin of the
    workspace. *)
Lemma X5_linear_jog_step_witness :
  jog_target AxX Plus 50 mat4_eye
  = (stepped AxX Plus 50 (m_pos mat4_eye), m_rot mat4_eye) /\
  linear_step 50 = 50 / 50000 /\
  0.0002 <= linear_step 50 <= 0.002.
Proof.
  apply (X5_linear_jog_step AxX Plus 50 mat4_eye).
  - left. reflexivity.
  - lra.
  - unfold in_workspace, stepped; simpl. lra.
Defined.

Lemma orthonormal_mul (a b : Mat3) :
  orthonormal a -> orthonormal b -> orthonormal (mat_mul a b).
Proof.
  unfold orthonormal. intros Ha Hb.
  rewrite mat_transpose_mul, mat_mul_assoc, <- (mat_mul_assoc b), Hb, mat_mul_eye_l.
  exact Ha.
Qed.

(** X6.  A rotary jog step keeps the orientation a rotation and leaves
    the position alone: if the current orientation matrix is
    orthonormal so is the target orientation, with the same
    determinant, and a tool position inside the workspace box is the
    target position unchanged. *)
Theorem X6_rotary_jog_step (a : axis) (d : direction) (speed : R) (tcp : Mat4) :
  a = AxRX \/ a = AxRY \/ a = AxRZ ->
  orthonormal (m_rot tcp) ->
  let target := jog_target a d speed tcp in
  orthonormal (snd target) /\
  det3 (snd target) = det3 (m_rot tcp) /\
  (in_workspace (m_pos tcp) -> fst target = m_pos tcp).
Proof.
  intros Ha Ho target. subst target.
  set (angle := Rmax 0.002 (BASE_STEP_RAD * (speed / 100)) * sign_of d).
  destruct (rot_axis_orthonormal angle) as [Hx [Hy Hz]].
  destruct (rot_axis_det angle) as [Dx [Dy Dz]].
  split; [|split].
  - destruct Ha as [-> | [-> | ->]]; unfold jog_target; cbn [snd]; fold angle;
      apply orthonormal_mul; assumption.
  - destruct Ha as [-> | [-> | ->]]; unfold jog_target; cbn [snd]; fold angle;
      rewrite det3_mul; [rewrite Dx | rewrite Dy | rewrite Dz]; lra.
  - intros Hin. destruct tcp as [rot [x y z] bottom]. unfold in_workspace in Hin.
    simpl in Hin.
    destruct Ha as [-> | [-> | ->]]; unfold jog_target; cbn [fst];
      unfold WORKSPACE_LIMITS_x, WORKSPACE_LIMITS_y, WORKSPACE_LIMITS_z,
        vec3_add, vec3_div; simpl;
      rewrite !np_clip_inside by lra; entrywise ltac:(lra).
Qed.

(** X6 witness: a yaw step from the identity orientation. *)
Lemma X6_rotary_jog_step_witness :
  orthonormal (snd (jog_target AxRZ Plus 50 mat4_eye)) /\
  det3 (snd (jog_target AxRZ Plus 50 mat4_eye)) = det3 (m_rot mat4_eye).
Proof.
  destruct (X6_rotary_jog_step AxRZ Plus 50 mat4_eye) as [H1 [H2 _]].
  - right. right. reflexivity.
  - unfold orthonormal. simpl. apply mat_mul_eye_l.
  - split; assumption.
Defined.

Lemma stepped_back (a : axis) (d : direction) (speed : R) (p : Vec3) :
  stepped a (opposite d) speed (stepped a d speed p) = p.
Proof.
  destruct p as [x y z].
  destruct a, d; unfold stepped, opposite, sign_of; simpl; entrywise ltac:(lra).
Qed.

Lemma well_inside_step (a : axis) (d : direction) (speed : R) (p : Vec3) :
  10 <= speed <= 100 -> well_inside p ->
  in_workspace p /\ in_workspace (stepped a d speed p).
Proof.
  intros Hs Hw. destruct p as [x y z]. unfold well_inside, in_workspace in *.
  simpl in Hw.
  destruct a, d; unfold stepped, sign_of; simpl; lra.
Qed.

(** X7.  Jog steps are reversible away from the workspace boundary: at
    an allowed speed, from a tool position at least 2 mm inside the
    box, the target of one step followed by the target of the opposite
    step on the same axis is the original position and orientation,
    for all six axes. *)
Theorem X7_opposite_jog_steps_cancel (a : axis) (d : direction) (speed : R)
  (tcp : Mat4) :
  10 <= speed <= 100 ->
  well_inside (m_pos tcp) ->
  let there := jog_target a d speed tcp in
  jog_target a (opposite d) speed (mkMat4 (snd there) (fst there) (m_bottom tcp))
  = (m_pos tcp, m_rot tcp).
Proof.
  intros Hs Hw there.
  destruct (well_inside_step a d speed (m_pos tcp) Hs Hw) as [Hin Hstep].
  assert (E : there = jog_target a d speed tcp) by reflexivity.
  rewrite jog_target_unclamped in E by (lra || assumption).
  rewrite E. cbn [fst snd].
  rewrite jog_target_unclamped; cbn [m_pos m_rot].
  - rewrite stepped_back. f_equal.
    set (s := Rmax 0.002 (BASE_STEP_RAD * (speed / 100))).
    assert (Eo : s * sign_of (opposite d) = - (s * sign_of d))
      by (destruct d; unfold sign_of, opposite; lra).
    cbv zeta. rewrite Eo.
    destruct (rot_axis_back (s * sign_of d)) as [Bx [By Bz]].
    destruct a; try reflexivity; rewrite mat_mul_assoc;
      [rewrite Bx | rewrite By | rewrite Bz]; apply mat_mul_eye_r.
  - lra.
  - rewrite stepped_back. exact Hin.
Qed.

(** X7 witness: +Z then -Z at full speed from the centre of the box. *)
Lemma X7_opposite_jog_steps_cancel_witness :
  let there := jog_target AxZ Plus 100 mat4_eye in
  jog_target AxZ Minus 100 (mkMat4 (snd there) (fst there) (m_bottom mat4_eye))
  = (m_pos mat4_eye, m_rot mat4_eye).
Proof.
  apply (X7_opposite_jog_steps_cancel AxZ Plus 100 mat4_eye).
  - lra.
  - unfold well_inside; simpl. lra.
Defined.

(** ** The Cartesian view: point-to-point moves *)

(** How many steps of length [step] bring a distance below [eps]. *)
Lemma passes_bound (dist eps step : R) :
  0 <= dist -> 0 <= eps -> 0 < step ->
  exists n, dist < eps + INR n * step /\ INR n <= dist / step + 1.
Proof.
  intros Hd He Hs. set (q := dist / step).
  assert (Eq : dist = q * step) by (unfold q; field; lra).
  assert (Hq : 0 <= q) by (unfold q; apply Rle_mult_inv_pos; assumption).
  destruct (archimed q) as [Hup Hlow].
  assert (Hpos : (0 <= up q)%Z) by (apply le_IZR; lra).
  exists (Z.to_nat (up q)).
  rewrite INR_IZR_INZ, Z2Nat.id by exact Hpos.
  split; [|lra].
  assert (q * step < IZR (up q) * step) by (apply Rmult_lt_compat_r; lra).
  lra.
Qed.

Lemma cartesian_run_reaches (n : nat) (target : list R) (now : R) :
  forall (s : CartesianView) (cur : list R),
    is_jogging s = true -> alive s = true ->
    List.length target = List.length cur ->
    10 <= jog_speed_percent s ->
    np_norm (vsub target cur) < 0.005 + INR n * 0.0075 ->
    exists s', run_passes (S n) target now (Running s cur) = Finished s' /\
      commanded_joints s' = target /\ is_jogging s' = false /\
      last_jog_time s' = now /\ is_robot_homed s' = is_robot_homed s.
Proof.
  assert (Hsnap : forall s cur,
            is_jogging s = true -> alive s = true ->
            List.length target = List.length cur ->
            np_norm (vsub target cur) < 0.005 ->
            exists s', run_pass target now s cur = Finished s' /\
              commanded_joints s' = target /\ is_jogging s' = false /\
              last_jog_time s' = now /\ is_robot_homed s' = is_robot_homed s).
  { intros s cur Hj Ha Hlen Hd. unfold run_pass. rewrite Hj, Ha, Hlen, Nat.eqb_refl.
    simpl. rewrite Rltb_true by exact Hd.
    eexists. split; [reflexivity|].
    unfold run_finally, send_current_pose.
    destruct (has_uart _ && uart_is_open _); simpl; auto. }
  assert (Hstep : forall s cur,
            is_jogging s = true -> alive s = true ->
            List.length target = List.length cur ->
            0.005 <= np_norm (vsub target cur) ->
            exists s' cur',
              run_pass target now s cur = Running s' cur' /\
              is_jogging s' = true /\ alive s' = true /\
              jog_speed_percent s' = jog_speed_percent s /\
              is_robot_homed s' = is_robot_homed s /\
              List.length target = List.length cur' /\
              np_norm (vsub target cur')
              = np_norm (vsub target cur)
                - Rmin (np_norm (vsub target cur)) (0.075 * (jog_speed_percent s / 100))).
  { intros s cur Hj Ha Hlen Hd. unfold run_pass. rewrite Hj, Ha, Hlen, Nat.eqb_refl.
    simpl. rewrite Rltb_false by exact Hd.
    eexists. eexists. split; [reflexivity|].
    unfold send_current_pose.
    repeat split; try (destruct (has_uart _ && uart_is_open _); simpl; auto; fail).
    - rewrite step_length; auto.
    - apply distance_after_step; [exact Hlen | lra]. }
  induction n as [|n IH]; intros s cur Hj Ha Hlen Hsp Hd.
  - simpl in Hd.
    destruct (Hsnap s cur Hj Ha Hlen) as [s' [E H]]; [lra|].
    exists s'. simpl. rewrite E. auto.
  - change (run_passes (S (S n)) target now (Running s cur))
      with (run_passes (S n) target now (run_pass target now s cur)).
    destruct (Rlt_le_dec (np_norm (vsub target cur)) 0.005) as [Hlt|Hge].
    + destruct (Hsnap s cur Hj Ha Hlen Hlt) as [s' [E H]].
      exists s'. rewrite E, run_passes_finished. auto.
    + destruct (Hstep s cur Hj Ha Hlen Hge)
        as [s1 [cur1 [E [Hj1 [Ha1 [Hsp1 [Hh1 [Hlen1 Hd1]]]]]]]].
      rewrite E.
      destruct (IH s1 cur1) as [s' [E' [H1 [H2 [H3 H4]]]]]; try assumption.
      * rewrite Hsp1. exact Hsp.
      * rewrite Hd1. rewrite S_INR in Hd. pose proof (pos_INR n) as Hn.
        unfold Rmin. destruct (Rle_dec _ _); lra.
      * exists s'. rewrite H4, Hh1. auto.
Qed.

(** X8.  A point-to-point move of the Cartesian view arrives.  Started
    in an idle, mounted view at a speed of at least 10 percent, and left
    alone (no stop, no speed change), the worker ends after at most
    [dist / 0.0075 + 2] passes, [dist] being the joint-space distance to
    the target in radians; when it ends the commanded joints are
    exactly the target, the motion flag is cleared and the end of
    motion is time-stamped. *)
Theorem X8_cartesian_move_reaches_target (target : list R) (now : R)
  (s : CartesianView) :
  is_jogging s = false -> alive s = true ->
  List.length target = List.length (commanded_joints s) ->
  10 <= jog_speed_percent s ->
  snd (_animate_move target s) = Some (MoveThread target) /\
  exists n s',
    INR n <= np_norm (vsub target (commanded_joints s)) / 0.0075 + 2 /\
    run_passes n target now (run_start (fst (_animate_move target s))) = Finished s' /\
    commanded_joints s' = target /\ is_jogging s' = false /\
    last_jog_time s' = now.
Proof.
  intros Hj Ha Hlen Hsp. unfold _animate_move. rewrite Hj. cbn [fst snd].
  split; [reflexivity|].
  destruct (passes_bound (np_norm (vsub target (commanded_joints s))) 0.005 0.0075)
    as [n [Hn Hb]]; [apply np_norm_nonneg | lra | lra |].
  destruct (cartesian_run_reaches n target now (with_is_jogging true s)
              (commanded_joints s)) as [s' [E [H1 [H2 [H3 _]]]]]; try assumption;
    try reflexivity.
  exists (S n), s'. rewrite S_INR. repeat split; try assumption. lra.
Qed.

(** X8 witness: the STANDBY-like move of a homed gantry view from
    (0.1, 0, 0, 0, 0, 0) back to all zeros. *)
Lemma X8_cartesian_move_reaches_target_witness :
  exists n s',
    run_passes n (np_zeros 6) 7
      (run_start (fst (_animate_move (np_zeros 6)
                         (Gantry.gantry_view true [0.1; 0; 0; 0; 0; 0]))))
    = Finished s' /\
    commanded_joints s' = np_zeros 6 /\ is_jogging s' = false.
Proof.
  destruct (X8_cartesian_move_reaches_target (np_zeros 6) 7
              (Gantry.gantry_view true [0.1; 0; 0; 0; 0; 0]))
    as [_ [n [s' [_ [E [H1 [H2 _]]]]]]].
  - reflexivity.
  - reflexivity.
  - reflexivity.
  - simpl. lra.
  - exists n, s'. auto.
Defined.

(** X9.  One pass of the Cartesian move that does not yet snap to the
    target moves the commanded joints along the straight line towards
    it: the remaining joint-space vector is the old one scaled by
    [1 - step / dist], the distance shrinks by exactly
    [step = min (dist, 0.075 * speed / 100)], and the loop keeps
    running with the new vector as its local copy. *)
Theorem X9_cartesian_move_pass_is_straight (target : list R) (now : R)
  (s : CartesianView) (cur : list R) :
  is_jogging s = true -> alive s = true ->
  List.length target = List.length cur ->
  0 < jog_speed_percent s ->
  let dist := np_norm (vsub target cur) in
  let step := Rmin dist (0.075 * (jog_speed_percent s / 100)) in
  0.005 <= dist ->
  exists s' cur',
    run_pass target now s cur = Running s' cur' /\
    commanded_joints s' = cur' /\
    0 < step <= dist /\
    vsub target cur' = vscale (1 - step / dist) (vsub target cur) /\
    np_norm (vsub target cur') = dist - step.
Proof.
  intros Hj Ha Hlen Hsp dist step Hd.
  unfold run_pass. rewrite Hj, Ha, Hlen, Nat.eqb_refl.
  simpl. fold dist. rewrite Rltb_false by exact Hd. fold step.
  eexists. eexists. split; [reflexivity|].
  split; [unfold send_current_pose; destruct (has_uart _ && uart_is_open _); reflexivity|].
  split; [|split].
  - unfold step, Rmin. destruct (Rle_dec _ _); lra.
  - apply remaining_after_step; [lra | exact Hlen].
  - apply distance_after_step; [exact Hlen | fold dist; lra].
Qed.

(** X9 witness: the first pass of a move from all zeros to
    (0.1, 0, 0, 0, 0, 0) at 50 percent. *)
Lemma X9_cartesian_move_pass_is_straight_witness :
  exists s' cur',
    run_pass [0.1; 0; 0; 0; 0; 0] 7
      (with_is_jogging true (Gantry.gantry_view true [0; 0; 0; 0; 0; 0]))
      [0; 0; 0; 0; 0; 0]
    = Running s' cur' /\
    commanded_joints s' = cur'.
Proof.
  destruct (X9_cartesian_move_pass_is_straight [0.1; 0; 0; 0; 0; 0] 7
              (with_is_jogging true (Gantry.gantry_view true [0; 0; 0; 0; 0; 0]))
              [0; 0; 0; 0; 0; 0]) as [s' [cur' [E [H _]]]].
  - reflexivity.
  - reflexivity.
  - reflexivity.
  - simpl. lra.
  - apply sqrt_lower; [lra|]. simpl. lra.
  - exists s', cur'. auto.
Defined.

(** ** One worker at a time *)

Lemma cartesian_serve_busy (r : cartesian_request) (s : CartesianView) :
  is_jogging s = true ->
  snd (cartesian_serve r s) = None /\ is_jogging (fst (cartesian_serve r s)) = true.
Proof.
  intros Hj. destruct r as [a d | |]; simpl.
  - unfold on_jog_start, show_homing_required_dialog, report.
    destruct (is_robot_homed s); simpl; [rewrite Hj; auto|].
    destruct (has_page (env s)); simpl; [|auto].
    destruct (has_on_error (env s)); simpl; auto.
  - unfold on_safety_click, _animate_move, report.
    destruct (has_on_error (env s)); simpl; rewrite Hj; auto.
  - unfold on_standby_click, _animate_move. rewrite Hj. auto.
Qed.

Lemma cartesian_serve_started (r : cartesian_request) (s : CartesianView) (t : thread) :
  snd (cartesian_serve r s) = Some t -> is_jogging (fst (cartesian_serve r s)) = true.
Proof.
  destruct r as [a d | |]; simpl.
  - unfold on_jog_start. destruct (negb (is_robot_homed s)); [discriminate|].
    destruct (is_jogging s); [discriminate | reflexivity].
  - unfold on_safety_click, _animate_move.
    destruct (is_jogging (report "W2" s)); [discriminate | reflexivity].
  - unfold on_standby_click, _animate_move.
    destruct (is_jogging s); [discriminate | reflexivity].
Qed.

Lemma cartesian_serve_all_busy (rs : list cartesian_request) :
  forall s, is_jogging s = true ->
    snd (cartesian_serve_all rs s) = [] /\
    is_jogging (fst (cartesian_serve_all rs s)) = true.
Proof.
  induction rs as [|r rest IH]; intros s Hj; simpl; [auto|].
  destruct (cartesian_serve_busy r s Hj) as [Hn Hb].
  destruct (cartesian_serve r s) as [s1 th]. simpl in Hn, Hb. subst th.
  destruct (IH s1 Hb) as [H1 H2].
  destruct (cartesian_serve_all rest s1) as [s2 ths]. simpl in *. auto.
Qed.

Lemma joint_serve_busy (r : joint_request) (s : Jog.JogView) :
  Jog.is_jogging s = true ->
  snd (joint_serve r s) = None /\ Jog.is_jogging (fst (joint_serve r s)) = true.
Proof.
  intros Hj. destruct r as [c d | |]; simpl.
  - unfold Jog.on_jog_start, Jog.show_homing_required_dialog, Jog.report.
    destruct (Jog.is_robot_homed s); simpl; [rewrite Hj; auto|].
    destruct (has_page (Jog.env s)); simpl; [|auto].
    destruct (has_on_error (Jog.env s)); simpl; auto.
  - unfold Jog.on_safety_click, Jog._animate_move, Jog.report.
    destruct (has_on_error (Jog.env s)); simpl; rewrite Hj; auto.
  - unfold Jog.on_standby_click, Jog._animate_move. rewrite Hj. auto.
Qed.

Lemma joint_serve_started (r : joint_request) (s : Jog.JogView) (t : Jog.thread) :
  snd (joint_serve r s) = Some t -> Jog.is_jogging (fst (joint_serve r s)) = true.
Proof.
  destruct r as [c d | |]; simpl.
  - unfold Jog.on_jog_start. destruct (negb (Jog.is_robot_homed s)); [discriminate|].
    destruct (Jog.is_jogging s); [discriminate | reflexivity].
  - unfold Jog.on_safety_click, Jog._animate_move.
    destruct (Jog.is_jogging (Jog.report "W2" s)); [discriminate | reflexivity].
  - unfold Jog.on_standby_click, Jog._animate_move.
    destruct (Jog.is_jogging s); [discriminate | reflexivity].
Qed.

Lemma joint_serve_all_busy (rs : list joint_request) :
  forall s, Jog.is_jogging s = true ->
    snd (joint_serve_all rs s) = [] /\
    Jog.is_jogging (fst (joint_serve_all rs s)) = true.
Proof.
  induction rs as [|r rest IH]; intros s Hj; simpl; [auto|].
  destruct (joint_serve_busy r s Hj) as [Hn Hb].
  destruct (joint_serve r s) as [s1 th]. simpl in Hn, Hb. subst th.
  destruct (IH s1 Hb) as [H1 H2].
  destruct (joint_serve_all rest s1) as [s2 ths]. simpl in *. auto.
Qed.

(** X10.  One worker at a time.  Whatever sequence of motion requests
    (jog presses, SAFETY, STANDBY) reaches a view while no worker ends
    and no button is released, at most one worker thread is started,
    none at all if a motion was already in progress, and once one is
    started the motion flag stays set.  This holds for the Cartesian
    view and for the joint view. *)
Theorem X10_one_worker_at_a_time (rs : list cartesian_request) (s : CartesianView)
  (jrs : list joint_request) (js : Jog.JogView) :
  ((List.length (snd (cartesian_serve_all rs s)) <= 1)%nat /\
   (is_jogging s = true -> snd (cartesian_serve_all rs s) = []) /\
   (snd (cartesian_serve_all rs s) <> [] ->
    is_jogging (fst (cartesian_serve_all rs s)) = true)) /\
  ((List.length (snd (joint_serve_all jrs js)) <= 1)%nat /\
   (Jog.is_jogging js = true -> snd (joint_serve_all jrs js) = []) /\
   (snd (joint_serve_all jrs js) <> [] ->
    Jog.is_jogging (fst (joint_serve_all jrs js)) = true)).
Proof.
  split.
  - split; [|split].
    + revert s. induction rs as [|r rest IH]; intros s; simpl; [lia|].
      pose proof (cartesian_serve_started r s) as Hst.
      destruct (cartesian_serve r s) as [s1 [t|]]; simpl in Hst.
      * destruct (cartesian_serve_all_busy rest s1 (Hst t eq_refl)) as [H1 _].
        destruct (cartesian_serve_all rest s1) as [s2 ths]. simpl in *.
        subst ths. simpl. lia.
      * specialize (IH s1). destruct (cartesian_serve_all rest s1) as [s2 ths].
        exact IH.
    + intros Hj. apply cartesian_serve_all_busy. exact Hj.
    + revert s. induction rs as [|r rest IH]; intros s; simpl; [congruence|].
      pose proof (cartesian_serve_started r s) as Hst.
      destruct (cartesian_serve r s) as [s1 [t|]]; simpl in Hst.
      * destruct (cartesian_serve_all_busy rest s1 (Hst t eq_refl)) as [_ H2].
        destruct (cartesian_serve_all rest s1) as [s2 ths]. simpl in *. auto.
      * specialize (IH s1). destruct (cartesian_serve_all rest s1) as [s2 ths].
        exact IH.
  - split; [|split].
    + revert js. induction jrs as [|r rest IH]; intros js; simpl; [lia|].
      pose proof (joint_serve_started r js) as Hst.
      destruct (joint_serve r js) as [s1 [t|]]; simpl in Hst.
      * destruct (joint_serve_all_busy rest s1 (Hst t eq_refl)) as [H1 _].
        destruct (joint_serve_all rest s1) as [s2 ths]. simpl in *.
        subst ths. simpl. lia.
      * specialize (IH s1). destruct (joint_serve_all rest s1) as [s2 ths].
        exact IH.
    + intros Hj. apply joint_serve_all_busy. exact Hj.
    + revert js. induction jrs as [|r rest IH]; intros js; simpl; [congruence|].
      pose proof (joint_serve_started r js) as Hst.
      destruct (joint_serve r js) as [s1 [t|]]; simpl in Hst.
      * destruct (joint_serve_all_busy rest s1 (Hst t eq_refl)) as [_ H2].
        destruct (joint_serve_all rest s1) as [s2 ths]. simpl in *. auto.
      * specialize (IH s1). destruct (joint_serve_all rest s1) as [s2 ths].
        exact IH.
Qed.

(** ** The Cartesian view: feedback *)

Lemma update_from_feedback_unlocked (joint_values : dict) (now : R)
  (s : CartesianView) :
  is_jogging s = false -> 1.5 <= now - last_jog_time s ->
  List.length (feedback_joints_deg s) = 6%nat ->
  List.length (commanded_joints s) = 6%nat ->
  exists fb cmd,
    update_from_feedback joint_values now s = with_commanded cmd (with_feedback fb s) /\
    List.length fb = 6%nat /\ List.length cmd = 6%nat /\
    (forall i, (i < 6)%nat ->
       nth i fb 0 = match dict_get (joint_key i) joint_values with
                    | Some v => v
                    | None => nth i (feedback_joints_deg s) 0
                    end) /\
    (forall i, (i < 6)%nat ->
       nth i cmd 0
       = if Rltb (np_radians 0.5)
              (Rabs (nth i (commanded_joints s) 0 - np_radians (nth i fb 0)))
         then np_radians (nth i fb 0) else nth i (commanded_joints s) 0).
Proof.
  intros Hj Hw Hfb Hc. unfold update_from_feedback.
  destruct (store_feedback_spec joint_values _ Hfb) as [fb [E [L Hnth]]].
  rewrite E. simpl negb. cbv iota.
  change (is_jogging (with_feedback fb s)) with (is_jogging s). rewrite Hj.
  change (last_jog_time (with_feedback fb s)) with (last_jog_time s).
  rewrite Rltb_false by exact Hw.
  change (commanded_joints (with_feedback fb s)) with (commanded_joints s).
  destruct (resync_spec (map np_radians fb) (commanded_joints s))
    as [cmd [ok [E' [L' Hcmd]]]]; [rewrite length_map; exact L | exact Hc |].
  rewrite E'. exists fb, cmd. repeat split; try assumption.
  intros i Hi. rewrite (Hcmd i Hi).
  replace (nth i (map np_radians fb) 0) with (np_radians (nth i fb 0)); [reflexivity|].
  rewrite <- (map_nth np_radians). f_equal. unfold np_radians. field.
Qed.

Lemma Rltb_cases (x y : R) : (Rltb x y = true /\ x < y) \/ (Rltb x y = false /\ y <= x).
Proof. unfold Rltb. destruct (Rlt_dec x y); [left | right]; split; auto; lra. Qed.

(** X11.  What a feedback frame leaves behind when the view is idle
    and the 1.5 s window after the last motion has passed: every
    commanded joint is within 0.5 degrees of the stored feedback, and
    delivering the same frame again changes neither the commanded
    joints nor the stored feedback. *)
Theorem X11_feedback_resync_settles (joint_values : dict) (now : R)
  (s : CartesianView) :
  is_jogging s = false -> 1.5 <= now - last_jog_time s ->
  List.length (feedback_joints_deg s) = 6%nat ->
  List.length (commanded_joints s) = 6%nat ->
  let s' := update_from_feedback joint_values now s in
  (forall i, (i < 6)%nat ->
     Rabs (nth i (commanded_joints s') 0
           - np_radians (nth i (feedback_joints_deg s') 0)) <= np_radians 0.5) /\
  commanded_joints (update_from_feedback joint_values now s') = commanded_joints s' /\
  feedback_joints_deg (update_from_feedback joint_values now s')
  = feedback_joints_deg s'.
Proof.
  intros Hj Hw Hfb Hc s'.
  destruct (update_from_feedback_unlocked joint_values now s Hj Hw Hfb Hc)
    as [fb [cmd [E [Lf [Lc [Hf Hcm]]]]]].
  subst s'. rewrite E.
  destruct (update_from_feedback_unlocked joint_values now
              (with_commanded cmd (with_feedback fb s)))
    as [fb2 [cmd2 [E2 [Lf2 [Lc2 [Hf2 Hcm2]]]]]]; try assumption.
  rewrite E2. simpl in *.
  assert (Hthr : 0 < np_radians 0.5).
  { unfold np_radians. pose proof PI_gt_3. lra. }
  assert (Hfb2 : forall i, (i < 6)%nat -> nth i fb2 0 = nth i fb 0).
  { intros i Hi. rewrite (Hf2 i Hi), (Hf i Hi).
    destruct (dict_get (joint_key i) joint_values); reflexivity. }
  split; [|split].
  - intros i Hi. rewrite (Hcm i Hi).
    destruct (Rltb_cases (np_radians 0.5)
                (Rabs (nth i (commanded_joints s) 0 - np_radians (nth i fb 0))))
      as [[-> H] | [-> H]].
    + replace (np_radians (nth i fb 0) - np_radians (nth i fb 0)) with 0 by lra.
      rewrite Rabs_R0. lra.
    + exact H.
  - apply (nth_ext _ _ 0 0); [lia|]. intros i Hi. rewrite Lc2 in Hi.
    rewrite (Hcm2 i Hi), (Hfb2 i Hi), (Hcm i Hi).
    destruct (Rltb_cases (np_radians 0.5)
                (Rabs (nth i (commanded_joints s) 0 - np_radians (nth i fb 0))))
      as [[-> H] | [-> H]].
    + replace (np_radians (nth i fb 0) - np_radians (nth i fb 0)) with 0 by lra.
      rewrite Rabs_R0, Rltb_false by lra. reflexivity.
    + rewrite Rltb_false by exact H. reflexivity.
  - apply (nth_ext _ _ 0 0); [lia|]. intros i Hi. rewrite Lf2 in Hi.
    apply Hfb2. exact Hi.
Qed.

(** X11 witness: a frame reporting J1 = 5 degrees to an idle gantry
    view two seconds after its last motion. *)
Lemma X11_feedback_resync_settles_witness :
  let s := with_last_jog_time 10 (Gantry.gantry_view true [0; 0; 0; 0; 0; 0]) in
  let s' := update_from_feedback [("J1"%string, 5)] 12 s in
  commanded_joints (update_from_feedback [("J1"%string, 5)] 12 s')
  = commanded_joints s'.
Proof.
  intros s s'.
  destruct (X11_feedback_resync_settles [("J1"%string, 5)] 12 s) as [_ [H _]].
  - reflexivity.
  - simpl. lra.
  - reflexivity.
  - reflexivity.
  - exact H.
Defined.

Lemma forallb_false_witness (f : R -> bool) (l : list R) (v : R) :
  In v l -> f v = false -> forallb f l = false.
Proof.
  intros Hin Hf. destruct (forallb f l) eqn:E; [|reflexivity].
  rewrite forallb_forall in E. rewrite (E v Hin) in Hf. discriminate.
Qed.

Lemma existsb_all_false (f : R -> bool) (l : list R) :
  (forall v, In v l -> f v = false) -> existsb f l = false.
Proof.
  intros H. destruct (existsb f l) eqn:E; [|reflexivity].
  apply existsb_exists in E. destruct E as [v [Hin Hf]].
  rewrite (H v Hin) in Hf. discriminate.
Qed.

(** X12.  When the background fallback of [_update_loop] stays out of
    the way: a pass changes nothing while a motion is in progress, as
    soon as one commanded joint is at least 0.001 rad away from zero,
    or as long as no stored feedback exceeds 0.01 degrees; it never
    touches anything but the commanded joints; and a second pass right
    after a first changes nothing more. *)
Theorem X12_update_loop_fallback_is_inert (s : CartesianView) :
  (is_jogging s = true -> _update_loop_pass s = s) /\
  ((exists v, In v (commanded_joints s) /\ 0.001 <= Rabs v) ->
   _update_loop_pass s = s) /\
  ((forall v, In v (feedback_joints_deg s) -> Rabs v <= 0.01) ->
   _update_loop_pass s = s) /\
  (exists c, _update_loop_pass s = with_commanded c s) /\
  _update_loop_pass (_update_loop_pass s) = _update_loop_pass s.
Proof.
  split; [|split; [|split; [|split]]].
  - intros Hj. unfold _update_loop_pass. rewrite Hj. reflexivity.
  - intros [v [Hin Hv]]. unfold _update_loop_pass.
    destruct (negb (is_jogging s)); [|reflexivity].
    rewrite (forallb_false_witness _ _ v Hin); [reflexivity|].
    apply Rltb_false. exact Hv.
  - intros Hall. unfold _update_loop_pass.
    destruct (negb (is_jogging s)); [|reflexivity].
    rewrite (existsb_all_false _ (feedback_joints_deg s)).
    + rewrite andb_false_r. reflexivity.
    + intros v Hin. apply Rltb_false. apply Hall. exact Hin.
  - unfold _update_loop_pass.
    destruct (negb (is_jogging s));
      [destruct (forallb _ _ && existsb _ _)|];
      first [ eexists; reflexivity
            | exists (commanded_joints s); destruct s; reflexivity ].
  - destruct (is_jogging s) eqn:Hj.
    + assert (E : _update_loop_pass s = s)
        by (unfold _update_loop_pass; rewrite Hj; reflexivity).
      rewrite !E. reflexivity.
    + destruct (forallb (fun v => Rltb (Rabs v) 0.001) (commanded_joints s)
                && existsb (fun v => Rltb 0.01 (Rabs v)) (feedback_joints_deg s))
        eqn:Hc.
      * assert (E : _update_loop_pass s
                    = with_commanded (map np_radians (feedback_joints_deg s)) s)
          by (unfold _update_loop_pass; rewrite Hj; simpl; rewrite Hc; reflexivity).
        rewrite E. unfold _update_loop_pass. simpl. rewrite Hj. simpl.
        destruct (forallb (fun v => Rltb (Rabs v) 0.001)
                    (map np_radians (feedback_joints_deg s))
                  && existsb (fun v => Rltb 0.01 (Rabs v)) (feedback_joints_deg s));
          reflexivity.
      * assert (E : _update_loop_pass s = s)
          by (unfold _update_loop_pass; rewrite Hj; simpl; rewrite Hc; reflexivity).
        rewrite !E. reflexivity.
Qed.

(** X12 witness: an idle view whose first commanded joint is at 0.2
    rad is left alone whatever the feedback says. *)
Lemma X12_update_loop_fallback_is_inert_witness :
  let s := with_feedback [30; 0; 0; 0; 0; 0]
             (Gantry.gantry_view true [0.2; 0; 0; 0; 0; 0]) in
  _update_loop_pass s = s.
Proof.
  intros s.
  destruct (X12_update_loop_fallback_is_inert s) as [_ [H _]].
  apply H. exists 0.2. split; [left; reflexivity|].
  unfold Rabs. destruct (Rcase_abs 0.2); lra.
Defined.

(** ** The engine of a failed load *)

(** X13.  A view whose URDF failed to load cannot jog.  The engine the
    constructor's except branch leaves behind has no
    [active_links_mask]; forward and inverse kinematics raise for
    every input instead of returning the stand-in chain's identity
    pose, so the first pass of any Cartesian jog raises outside the
    try block and ends the worker before anything is sent.  The
    homing gate and the start of the worker are unaffected. *)
Theorem X13_fallback_engine_cannot_jog (e : Collaborators) (s : CartesianView)
  (a : axis) (d : direction) (q : list R) (p : Vec3) (rot : Mat3)
  (guess : option (list R)) :
  ik (CartesianView_init None e) = KinematicsEngine_init None /\
  forward_kinematics (KinematicsEngine_init None) q = None /\
  inverse_kinematics (KinematicsEngine_init None) p rot guess = None /\
  (ik s = KinematicsEngine_init None ->
   jog_pass a d s = None /\
   (is_robot_homed s = true -> is_jogging s = false ->
    on_jog_start a d s = (with_is_jogging true s, Some (JogThread a d)))).
Proof.
  split; [reflexivity|]. split; [reflexivity|]. split.
  - unfold inverse_kinematics.
    destruct (np_linalg_inv (tool_rotation_matrix (KinematicsEngine_init None)));
      reflexivity.
  - intros Hik. split.
    + unfold jog_pass. rewrite Hik. reflexivity.
    + intros Hh Hj. unfold on_jog_start. rewrite Hh, Hj. reflexivity.
Qed.

(** X13 witness: the freshly built view of a failed load. *)
Lemma X13_fallback_engine_cannot_jog_witness :
  jog_pass AxX Plus (CartesianView_init None Gantry.all_present) = None.
Proof.
  destruct (X13_fallback_engine_cannot_jog Gantry.all_present
              (CartesianView_init None Gantry.all_present) AxX Plus [] vec3_zero
              mat3_eye None) as [_ [_ [_ H]]].
  destruct H as [H _]; [reflexivity | exact H].
Defined.

(** ** Speed buttons *)

Lemma change_speed_in_range (x delta : R) : 10 <= Rmax 10 (Rmin 100 (x + delta)) <= 100.
Proof. unfold Rmax, Rmin. repeat destruct (Rle_dec _ _); lra. Qed.

(** X14.  The speed setting stays between 10 and 100 percent under
    any sequence of presses on the speed buttons, whatever the
    increments, in both views; a press that stays inside the range
    adds its increment exactly. *)
Theorem X14_speed_stays_in_range (deltas : list R) (s : CartesianView)
  (js : Jog.JogView) :
  (10 <= jog_speed_percent s <= 100 ->
   10 <= jog_speed_percent (cartesian_speed_presses deltas s) <= 100) /\
  (10 <= Jog.speed_percent js <= 100 ->
   10 <= Jog.speed_percent (joint_speed_presses deltas js) <= 100) /\
  (forall delta, 10 <= jog_speed_percent s + delta <= 100 ->
     jog_speed_percent (change_speed delta s) = jog_speed_percent s + delta) /\
  (forall delta, 10 <= Jog.speed_percent js + delta <= 100 ->
     Jog.speed_percent (Jog.change_speed delta js) = Jog.speed_percent js + delta).
Proof.
  split; [|split; [|split]].
  - revert s. unfold cartesian_speed_presses.
    induction deltas as [|delta rest IH]; intros s Hs; cbn [fold_left]; [exact Hs|].
    apply IH. unfold change_speed. simpl. apply change_speed_in_range.
  - revert js. unfold joint_speed_presses.
    induction deltas as [|delta rest IH]; intros js Hs; cbn [fold_left]; [exact Hs|].
    apply IH. unfold Jog.change_speed. simpl. apply change_speed_in_range.
  - intros delta H. unfold change_speed. simpl.
    unfold Rmax, Rmin. repeat destruct (Rle_dec _ _); lra.
  - intros delta H. unfold Jog.change_speed. simpl.
    unfold Rmax, Rmin. repeat destruct (Rle_dec _ _); lra.
Qed.

(** X14 witness: twelve presses on [+10] from the initial 50 percent
    stop at 100. *)
Lemma X14_speed_stays_in_range_witness :
  10 <= jog_speed_percent
          (cartesian_speed_presses (repeat 10 12)
             (CartesianView_init None Gantry.all_present)) <= 100.
Proof.
  destruct (X14_speed_stays_in_range (repeat 10 12)
              (CartesianView_init None Gantry.all_present)
              (Jog.JogView_init Gantry.all_present)) as [H _].
  apply H. simpl. lra.
Defined.

(** ** The joint view *)

Lemma dict_get_set_other (k k' : string) (v : R) (d : dict) :
  k <> k' -> dict_get k (dict_set k' v d) = dict_get k d.
Proof.
  intros Hne. induction d as [|[k0 v0] t IH]; simpl.
  - destruct (String.eqb k k') eqn:E; [|reflexivity].
    apply String.eqb_eq in E. contradiction.
  - destruct (String.eqb k' k0) eqn:E0; simpl.
    + apply String.eqb_eq in E0. subst k0.
      destruct (String.eqb k k') eqn:E; [|reflexivity].
      apply String.eqb_eq in E. contradiction.
    + rewrite IH. reflexivity.
Qed.

Lemma dict_get_in_keys (k : string) (v : R) (d : dict) :
  dict_get k d = Some v -> In k (map fst d).
Proof.
  induction d as [|[k0 v0] t IH]; simpl; [discriminate|].
  destruct (String.eqb k k0) eqn:E.
  - apply String.eqb_eq in E. auto.
  - auto.
Qed.

Lemma dict_set_keys (k : string) (v : R) (d : dict) :
  NoDup (map fst d) -> NoDup (map fst (dict_set k v d)) /\
  forall k', In k' (map fst (dict_set k v d)) <-> k' = k \/ In k' (map fst d).
Proof.
  induction d as [|[k0 v0] t IH]; simpl; intros Hnd.
  - split; [repeat constructor; simpl; tauto|].
    intros k'. split; intros H; intuition (subst; auto).
  - inversion Hnd as [|? ? Hnotin Hnd']; subst.
    destruct (String.eqb k k0) eqn:E; simpl.
    + apply String.eqb_eq in E. subst k0. split; [exact Hnd|].
      intros k'. split; intros H; intuition (subst; auto).
    + destruct (IH Hnd') as [H1 H2]. apply String.eqb_neq in E. split.
      * constructor; [|exact H1]. rewrite H2. intros [H|H]; [congruence | contradiction].
      * intros k'. rewrite H2. split; intros H; intuition (subst; auto).
Qed.

(** One pass of the joint jog loop in a synchronised view: the jogged
    key receives the clamped target, nothing else in the targets
    changes. *)
Lemma joint_jog_pass_synced (code : string) (d : direction) (s : Jog.JogView) :
  Jog.initial_sync_done s = true ->
  Jog.internal_target_values (Jog.jog_pass code d s)
  = dict_set code (Jog.jog_new_target code d s) (Jog.internal_target_values s) /\
  Jog.initial_sync_done (Jog.jog_pass code d s) = true.
Proof.
  intros Hs.
  assert (Hs1 : Jog.initial_sync_done (Jog.jog_store code d s) = true).
  { unfold Jog.jog_store. rewrite (proj2 (send_all_joints_targets _)). exact Hs. }
  unfold Jog.jog_pass.
  destruct (update_keeps_targets
              (Jog.internal_target_values (Jog.jog_store code d s)) _ Hs1) as [H1 H2].
  split; [|exact H2].
  rewrite H1. unfold Jog.jog_store. rewrite (proj1 (send_all_joints_targets _)).
  reflexivity.
Qed.

Lemma joint_limits_entry (code : string) (lo hi : R) :
  In (code, (lo, hi)) Jog.joint_limits ->
  Jog.limits_get code Jog.joint_limits = Some (lo, hi) /\ lo <= hi.
Proof.
  intros Hin. simpl in Hin.
  destruct Hin as [H|[H|[H|[H|[H|[H|[]]]]]]]; injection H as <- <- <-;
    (split; [reflexivity | lra]).
Qed.

(** X15.  The first feedback frame, and only the first, sets the joint
    view's targets.  Before the initial sync a frame with the six joint
    values replaces every target by the negated feedback value and
    marks the view as synchronised; from then on no frame changes a
    target, whatever it contains.  An empty dict does nothing and
    leaves the view unsynchronised. *)
Theorem X15_joint_feedback_syncs_once (f0 f1 f2 f3 f4 f5 a0 a1 a2 a3 a4 a5 : R)
  (later : dict) (s : Jog.JogView) :
  Jog.initial_sync_done s = false ->
  Jog.internal_target_values s = joint_dict a0 a1 a2 a3 a4 a5 ->
  let s1 := Jog.update_joints_and_fk (joint_dict f0 f1 f2 f3 f4 f5) s in
  Jog.internal_target_values s1
  = joint_dict (- f0) (- f1) (- f2) (- f3) (- f4) (- f5) /\
  Jog.initial_sync_done s1 = true /\
  Jog.internal_target_values (Jog.update_joints_and_fk later s1)
  = Jog.internal_target_values s1 /\
  Jog.update_joints_and_fk [] s = s.
Proof.
  intros Hs Ht s1.
  assert (H1 : Jog.internal_target_values s1
               = joint_dict (- f0) (- f1) (- f2) (- f3) (- f4) (- f5)
               /\ Jog.initial_sync_done s1 = true).
  { subst s1. destruct s as [j sp h raw tg sd e el dl ul]. simpl in Hs, Ht.
    subst sd tg. split; reflexivity. }
  destruct H1 as [H1 H2]. repeat split; try assumption.
  apply update_keeps_targets. exact H2.
Qed.

(** X15 witness: the view as constructed receives its first frame. *)
Lemma X15_joint_feedback_syncs_once_witness :
  Jog.internal_target_values
    (Jog.update_joints_and_fk (joint_dict 10 20 30 40 50 60)
       (Jog.JogView_init Gantry.all_present))
  = joint_dict (- 10) (- 20) (- 30) (- 40) (- 50) (- 60).
Proof.
  destruct (X15_joint_feedback_syncs_once 10 20 30 40 50 60 0 0 0 0 0 0 []
              (Jog.JogView_init Gantry.all_present)) as [H _].
  - reflexivity.
  - reflexivity.
  - exact H.
Defined.

(** X16.  Holding a joint jog button.  In a synchronised view, with
    the jogged joint's target inside its range, [n] passes of the jog
    loop move that target by half a degree each until the limit and
    keep it there: the result is [min (hi, v + n / 2)] for the plus
    button and [max (lo, v - n / 2)] for the minus button.  The targets
    of the other joints do not change. *)
Theorem X16_joint_jog_held (n : nat) (code : string) (lo hi : R) (d : direction) :
  forall (v : R) (s : Jog.JogView),
    In (code, (lo, hi)) Jog.joint_limits ->
    Jog.initial_sync_done s = true ->
    dict_get code (Jog.internal_target_values s) = Some v ->
    lo <= v <= hi ->
    let s' := joint_jog_passes n code d s in
    dict_get code (Jog.internal_target_values s')
    = Some (match d with
            | Plus => Rmin hi (v + 0.5 * INR n)
            | Minus => Rmax lo (v - 0.5 * INR n)
            end) /\
    (forall k, k <> code ->
       dict_get k (Jog.internal_target_values s')
       = dict_get k (Jog.internal_target_values s)).
Proof.
  induction n as [|n IH]; intros v s Hin Hs Hv Hr s'.
  - subst s'. simpl. split; [|auto]. rewrite Hv. f_equal.
    destruct d; unfold Rmin, Rmax; destruct (Rle_dec _ _); lra.
  - destruct (joint_limits_entry code lo hi Hin) as [Hget Hle].
    destruct (joint_jog_pass_synced code d s Hs) as [Ht1 Hs1].
    set (v1 := Jog.jog_new_target code d s) in *.
    assert (Hv1 : dict_get code (Jog.internal_target_values (Jog.jog_pass code d s))
                  = Some v1) by (rewrite Ht1; apply dict_get_set_same).
    assert (Ev1 : v1 = match d with
                       | Plus => Rmin hi (v + 0.5)
                       | Minus => Rmax lo (v - 0.5)
                       end).
    { unfold v1, Jog.jog_new_target. rewrite Hv, Hget.
      unfold Jog.STEP_INCREMENT, sign_of, Rltb, Rmin, Rmax.
      destruct d; repeat destruct (Rlt_dec _ _); repeat destruct (Rle_dec _ _); lra. }
    assert (Hr1 : lo <= v1 <= hi).
    { rewrite Ev1. unfold Rmin, Rmax.
      destruct d; destruct (Rle_dec _ _); lra. }
    destruct (IH v1 (Jog.jog_pass code d s) Hin Hs1 Hv1 Hr1) as [IH1 IH2].
    subst s'. simpl joint_jog_passes. split.
    + rewrite IH1. f_equal. rewrite Ev1, S_INR. pose proof (pos_INR n) as Hn.
      unfold Rmin, Rmax.
      destruct d; repeat destruct (Rle_dec _ _); lra.
    + intros k Hk. rewrite (IH2 k Hk), Ht1. apply dict_get_set_other. exact Hk.
Qed.

(** X16 witness: J1 held on plus for 400 passes from zero stops at its
    limit of 90 degrees. *)
Lemma X16_joint_jog_held_witness :
  dict_get "J1"
    (Jog.internal_target_values
       (joint_jog_passes 400 "J1" Plus
          (Jog.set_homed_status true (Jog.JogView_init Gantry.all_present))))
  = Some (Rmin 90 (0 + 0.5 * INR 400)).
Proof.
  apply (X16_joint_jog_held 400 "J1" (-90) 90 Plus 0
           (Jog.set_homed_status true (Jog.JogView_init Gantry.all_present))).
  - left. reflexivity.
  - reflexivity.
  - reflexivity.
  - lra.
Defined.

Lemma fold_update_raw (d : dict) :
  forall st, Jog.initial_sync_done st = true -> NoDup (map fst d) ->
    let st' := fold_left (fun st kv => Jog.update_item kv st) d st in
    (forall k v, dict_get k d = Some v ->
       dict_get k (Jog.current_raw_values st') = Some (- v)) /\
    (forall k, ~ In k (map fst d) ->
       dict_get k (Jog.current_raw_values st') = dict_get k (Jog.current_raw_values st)).
Proof.
  induction d as [|[k0 v0] t IH]; intros st Hs Hnd; cbn [fold_left].
  - split; [intros k v H; discriminate | auto].
  - inversion Hnd as [|? ? Hnotin Hnd']; subst.
    assert (Hi : Jog.update_item (k0, v0) st
                 = Jog.with_raw (dict_set k0 (- v0) (Jog.current_raw_values st)) st).
    { unfold Jog.update_item. simpl. rewrite Hs. reflexivity. }
    rewrite Hi.
    destruct (IH (Jog.with_raw (dict_set k0 (- v0) (Jog.current_raw_values st)) st)
                Hs Hnd') as [H1 H2].
    cbv zeta in *. split.
    + intros k v Hk. simpl in Hk. destruct (String.eqb k k0) eqn:E.
      * apply String.eqb_eq in E. subst k0. injection Hk as <-.
        rewrite (H2 k Hnotin). simpl. apply dict_get_set_same.
      * apply H1. exact Hk.
    + intros k Hk. simpl in Hk. rewrite H2 by tauto. simpl.
      apply dict_get_set_other. intros ->. tauto.
Qed.

(** X17.  What the joint view displays while jogging.  Every pass of
    the jog loop ends by refreshing the display values from the targets
    through the feedback routine, which negates: after a pass in a
    synchronised view, the display value of every joint is the negated
    target of that joint. *)
Theorem X17_joint_display_mirrors_targets (code : string) (d : direction)
  (s : Jog.JogView) :
  Jog.initial_sync_done s = true ->
  NoDup (map fst (Jog.internal_target_values s)) ->
  let s' := Jog.jog_pass code d s in
  forall k v,
    dict_get k (Jog.internal_target_values s') = Some v ->
    dict_get k (Jog.current_raw_values s') = Some (- v).
Proof.
  intros Hs Hnd s' k v Hk.
  destruct (joint_jog_pass_synced code d s Hs) as [Ht _].
  fold s' in Ht. rewrite Ht in Hk.
  assert (Hs1 : Jog.initial_sync_done (Jog.jog_store code d s) = true).
  { unfold Jog.jog_store. rewrite (proj2 (send_all_joints_targets _)). exact Hs. }
  assert (Ht1 : Jog.internal_target_values (Jog.jog_store code d s)
                = dict_set code (Jog.jog_new_target code d s)
                    (Jog.internal_target_values s)).
  { unfold Jog.jog_store. rewrite (proj1 (send_all_joints_targets _)). reflexivity. }
  subst s'. unfold Jog.jog_pass, Jog.update_joints_and_fk. rewrite Ht1.
  destruct (dict_set_keys code (Jog.jog_new_target code d s) _ Hnd) as [Hnd1 _].
  destruct (fold_update_raw _ (Jog.jog_store code d s) Hs1 Hnd1) as [H1 _].
  cbv zeta in H1. specialize (H1 k v Hk).
  destruct (dict_set code (Jog.jog_new_target code d s) (Jog.internal_target_values s));
    [discriminate | exact H1].
Qed.

(** X17 witness: after one plus pass on J1 from zero the target is 0.5
    and the display shows -0.5. *)
Lemma X17_joint_display_mirrors_targets_witness :
  let s' := Jog.jog_pass "J1" Plus
              (Jog.set_homed_status true (Jog.JogView_init Gantry.all_present)) in
  dict_get "J1" (Jog.internal_target_values s') = Some (0 + 0.5 * 1) /\
  dict_get "J1" (Jog.current_raw_values s') = Some (- (0 + 0.5 * 1)).
Proof.
  intros s'.
  assert (H : dict_get "J1" (Jog.internal_target_values s') = Some (0 + 0.5 * 1)).
  { cbv [s' Jog.jog_pass Jog.jog_store Jog.send_all_joints Jog.update_joints_and_fk].
    simpl. unfold Jog.jog_new_target. simpl.
    unfold Jog.STEP_INCREMENT, Rltb.
    repeat destruct (Rlt_dec _ _); try lra. reflexivity. }
  split; [exact H|].
  apply (X17_joint_display_mirrors_targets "J1" Plus
           (Jog.set_homed_status true (Jog.JogView_init Gantry.all_present))).
  - reflexivity.
  - simpl. repeat constructor; simpl; intuition discriminate.
  - exact H.
Defined.

Lemma commit_synced_state (v0 v1 v2 v3 v4 v5 a0 a1 a2 a3 a4 a5 : R) (s : Jog.JogView) :
  Jog.initial_sync_done s = true ->
  Jog.internal_target_values s = joint_dict a0 a1 a2 a3 a4 a5 ->
  let s' := Jog.commit [v0; v1; v2; v3; v4; v5] s in
  Jog.internal_target_values s' = joint_dict v0 v1 v2 v3 v4 v5 /\
  Jog.initial_sync_done s' = true /\
  Jog.is_jogging s' = Jog.is_jogging s /\
  Jog.speed_percent s' = Jog.speed_percent s.
Proof.
  destruct s as [j sp h raw tg sd [pg oe u uo] el dl ul]. simpl.
  intros -> ->. unfold Jog.commit, Jog.send_all_joints. simpl.
  destruct (u && uo); repeat split; reflexivity.
Qed.

Lemma joint_run_passes_finished (n : nat) (target : list R) (s : Jog.JogView) :
  Jog.run_passes n target (Jog.Finished s) = Jog.Finished s.
Proof. induction n as [|n IH]; simpl; auto. Qed.

Lemma joint_run_reaches (t0 t1 t2 t3 t4 t5 : R) (n : nat) :
  let target := [t0; t1; t2; t3; t4; t5] in
  forall (a0 a1 a2 a3 a4 a5 : R) (s : Jog.JogView),
    Jog.is_jogging s = true ->
    Jog.initial_sync_done s = true ->
    Jog.internal_target_values s = joint_dict a0 a1 a2 a3 a4 a5 ->
    10 <= Jog.speed_percent s ->
    np_norm (vsub target [a0; a1; a2; a3; a4; a5]) < 0.1 + INR n * 0.45 ->
    exists s', Jog.run_passes (S n) target (Jog.Running s) = Jog.Finished s' /\
      Jog.internal_target_values s' = joint_dict t0 t1 t2 t3 t4 t5 /\
      Jog.is_jogging s' = false.
Proof.
  intros target.
  assert (Hsnap : forall a0 a1 a2 a3 a4 a5 s,
            Jog.is_jogging s = true -> Jog.initial_sync_done s = true ->
            Jog.internal_target_values s = joint_dict a0 a1 a2 a3 a4 a5 ->
            np_norm (vsub target [a0; a1; a2; a3; a4; a5]) < 0.1 ->
            exists s', Jog.run_pass target s = Jog.Finished s' /\
              Jog.internal_target_values s' = joint_dict t0 t1 t2 t3 t4 t5 /\
              Jog.is_jogging s' = false).
  { intros a0 a1 a2 a3 a4 a5 s Hj Hs Htg Hd.
    assert (Hread : Jog.read_targets s = Some [a0; a1; a2; a3; a4; a5])
      by (unfold Jog.read_targets; rewrite Htg; reflexivity).
    unfold Jog.run_pass. rewrite Hj, Hread. simpl negb. cbv iota.
    rewrite Rltb_true by exact Hd. eexists. split; [reflexivity|].
    destruct (commit_synced_state t0 t1 t2 t3 t4 t5 a0 a1 a2 a3 a4 a5 s Hs Htg)
      as [H1 _].
    split; [exact H1 | reflexivity]. }
  induction n as [|n IH]; intros a0 a1 a2 a3 a4 a5 s Hj Hs Htg Hsp Hd.
  - change (INR 0) with 0 in Hd.
    destruct (Hsnap a0 a1 a2 a3 a4 a5 s Hj Hs Htg) as [s' [E H]]; [lra|].
    exists s'. simpl. rewrite E. split; [reflexivity | exact H].
  - change (Jog.run_passes (S (S n)) target (Jog.Running s))
      with (Jog.run_passes (S n) target (Jog.run_pass target s)).
    destruct (Rlt_le_dec (np_norm (vsub target [a0; a1; a2; a3; a4; a5])) 0.1)
      as [Hlt|Hge].
    + destruct (Hsnap a0 a1 a2 a3 a4 a5 s Hj Hs Htg Hlt) as [s' [E H]].
      exists s'. rewrite E, joint_run_passes_finished. split; [reflexivity | exact H].
    + assert (Hread : Jog.read_targets s = Some [a0; a1; a2; a3; a4; a5])
        by (unfold Jog.read_targets; rewrite Htg; reflexivity).
      set (dist := np_norm (vsub target [a0; a1; a2; a3; a4; a5])) in *.
      set (step := Rmin dist (4.5 * (Jog.speed_percent s / 100))).
      assert (Hnew : exists v0 v1 v2 v3 v4 v5,
                vadd [a0; a1; a2; a3; a4; a5]
                  (vscale step (vdiv (vsub target [a0; a1; a2; a3; a4; a5]) dist))
                = [v0; v1; v2; v3; v4; v5]) by (repeat eexists).
      destruct Hnew as [v0 [v1 [v2 [v3 [v4 [v5 Hnew]]]]]].
      assert (E : Jog.run_pass target s
                  = Jog.Running (Jog.commit [v0; v1; v2; v3; v4; v5] s)).
      { unfold Jog.run_pass. rewrite Hj, Hread. simpl negb. cbv iota.
        fold dist. rewrite Rltb_false by exact Hge. fold step. rewrite Hnew.
        reflexivity. }
      rewrite E.
      destruct (commit_synced_state v0 v1 v2 v3 v4 v5 a0 a1 a2 a3 a4 a5 s Hs Htg)
        as [H1 [H2 [H3 H4]]].
      apply (IH v0 v1 v2 v3 v4 v5); try assumption.
      * rewrite H3. exact Hj.
      * rewrite H4. exact Hsp.
      * rewrite <- Hnew.
        pose proof (distance_after_step target [a0; a1; a2; a3; a4; a5]
                      (4.5 * (Jog.speed_percent s / 100)) eq_refl) as Hds.
        cbv zeta in Hds. fold dist in Hds. fold step in Hds.
        rewrite Hds by lra.
        rewrite S_INR in Hd. pose proof (pos_INR n) as Hn.
        unfold step, Rmin. destruct (Rle_dec _ _); lra.
Qed.

(** X18.  Once the joint view is synchronised its point-to-point move
    arrives.  Started in an idle view at a speed of at least 10
    percent and left alone, the worker ends after at most
    [dist / 0.45 + 2] passes, [dist] being the distance to the target
    in degrees, with the six targets exactly at the requested values
    and the motion flag cleared. *)
Theorem X18_joint_move_reaches_target (t0 t1 t2 t3 t4 t5 a0 a1 a2 a3 a4 a5 : R)
  (s : Jog.JogView) :
  let target := [t0; t1; t2; t3; t4; t5] in
  Jog.is_jogging s = false ->
  Jog.initial_sync_done s = true ->
  Jog.internal_target_values s = joint_dict a0 a1 a2 a3 a4 a5 ->
  10 <= Jog.speed_percent s ->
  snd (Jog._animate_move target s) = Some (Jog.MoveThread target) /\
  exists n s',
    INR n <= Jog.distance_to target s / 0.45 + 2 /\
    Jog.run_passes n target (Jog.Running (fst (Jog._animate_move target s)))
    = Jog.Finished s' /\
    Jog.target_vals s' = target /\ Jog.is_jogging s' = false.
Proof.
  intros target Hj Hs Htg Hsp. unfold Jog._animate_move. rewrite Hj. cbn [fst snd].
  split; [reflexivity|].
  assert (Hd : Jog.distance_to target s
               = np_norm (vsub target [a0; a1; a2; a3; a4; a5])).
  { unfold Jog.distance_to, Jog.target_vals. rewrite Htg. reflexivity. }
  destruct (passes_bound (Jog.distance_to target s) 0.1 0.45)
    as [n [Hn Hb]]; [apply np_norm_nonneg | lra | lra |].
  destruct (joint_run_reaches t0 t1 t2 t3 t4 t5 n a0 a1 a2 a3 a4 a5
              (Jog.with_is_jogging true s)) as [s' [E [H1 H2]]];
    try assumption; try reflexivity.
  - rewrite Hd in Hn. exact Hn.
  - exists (S n), s'. rewrite S_INR. repeat split; try assumption; [lra|].
    unfold Jog.target_vals. rewrite H1. reflexivity.
Qed.

(** X18 witness: the SAFETY move of a homed joint view from all
    zeros. *)
Lemma X18_joint_move_reaches_target_witness :
  exists n s',
    Jog.run_passes n SAFETY_TARGET_DEG
      (Jog.Running (fst (Jog.on_safety_click
                           (Jog.set_homed_status true
                              (Jog.JogView_init Gantry.all_present)))))
    = Jog.Finished s' /\
    Jog.target_vals s' = SAFETY_TARGET_DEG /\ Jog.is_jogging s' = false.
Proof.
  destruct (X18_joint_move_reaches_target 0 (-50) 70 90 0 0 0 0 0 0 0 0
              (Jog.report "W2" (Jog.set_homed_status true
                                  (Jog.JogView_init Gantry.all_present))))
    as [_ [n [s' [_ [E H]]]]].
  - reflexivity.
  - reflexivity.
  - reflexivity.
  - simpl. lra.
  - exists n, s'. split; [exact E | exact H].
Defined.

(** ** Stopping a motion *)



(** ** Strings: stripping and upper-casing *)

Lemma is_space_upper (c : ascii) : PyStr.is_space (PyStr.upper_char c) = PyStr.is_space c.
Proof. destruct c as [[] [] [] [] [] [] [] []]; vm_compute; reflexivity. Qed.

Lemma upper_char_idem (c : ascii) :
  PyStr.upper_char (PyStr.upper_char c) = PyStr.upper_char c.
Proof. destruct c as [[] [] [] [] [] [] [] []]; vm_compute; reflexivity. Qed.

Lemma py_upper_idem (s : string) : PyStr.py_upper (PyStr.py_upper s) = PyStr.py_upper s.
Proof.
  induction s as [|c r IH]; simpl; [reflexivity|].
  rewrite upper_char_idem, IH. reflexivity.
Qed.

Lemma lstrip_upper (s : string) :
  PyStr.lstrip (PyStr.py_upper s) = PyStr.py_upper (PyStr.lstrip s).
Proof.
  induction s as [|c r IH]; simpl; [reflexivity|].
  rewrite is_space_upper. destruct (PyStr.is_space c); [exact IH | reflexivity].
Qed.

Lemma rstrip_upper (s : string) :
  PyStr.rstrip (PyStr.py_upper s) = PyStr.py_upper (PyStr.rstrip s).
Proof.
  induction s as [|c r IH]; simpl; [reflexivity|].
  rewrite IH, is_space_upper.
  destruct (PyStr.rstrip r) as [|c' r']; simpl; [|reflexivity].
  destruct (PyStr.is_space c); reflexivity.
Qed.

Lemma rstrip_idem (s : string) : PyStr.rstrip (PyStr.rstrip s) = PyStr.rstrip s.
Proof.
  induction s as [|c r IH]; simpl; [reflexivity|].
  destruct (PyStr.rstrip r) as [|c' r'] eqn:E.
  - destruct (PyStr.is_space c) eqn:Ec; simpl; [reflexivity|]. rewrite Ec. reflexivity.
  - change (PyStr.rstrip (String c (String c' r')))
      with (match PyStr.rstrip (String c' r') with
            | EmptyString =>
                if PyStr.is_space c then EmptyString else String c EmptyString
            | x => String c x
            end).
    rewrite IH. reflexivity.
Qed.

Lemma lstrip_head (s : string) :
  PyStr.lstrip s = EmptyString \/
  exists c r, PyStr.lstrip s = String c r /\ PyStr.is_space c = false.
Proof.
  induction s as [|c r IH]; simpl; [auto|].
  destruct (PyStr.is_space c) eqn:E; [exact IH|].
  right. exists c, r. auto.
Qed.

Lemma py_strip_idem (s : string) : PyStr.py_strip (PyStr.py_strip s) = PyStr.py_strip s.
Proof.
  unfold PyStr.py_strip.
  assert (H : PyStr.lstrip (PyStr.rstrip (PyStr.lstrip s)) = PyStr.rstrip (PyStr.lstrip s)).
  { destruct (lstrip_head s) as [-> | [c [r [-> Hc]]]]; [reflexivity|].
    simpl. destruct (PyStr.rstrip r); rewrite ?Hc; simpl; rewrite Hc; reflexivity. }
  rewrite H. apply rstrip_idem.
Qed.

(** The form in which the errors view compares codes is a fixed point
    of the conversion. *)
Lemma normal_code_idem (code : string) :
  PyStr.py_upper (PyStr.py_strip (PyStr.py_upper (PyStr.py_strip code)))
  = PyStr.py_upper (PyStr.py_strip code).
Proof.
  assert (H : forall x,
            PyStr.py_strip (PyStr.py_upper x) = PyStr.py_upper (PyStr.py_strip x)).
  { intros x. unfold PyStr.py_strip. rewrite lstrip_upper, rstrip_upper. reflexivity. }
  rewrite H, py_upper_idem, py_strip_idem. reflexivity.
Qed.

(** ** The errors view *)

Lemma set_row_timestamp_length (p : nat) (v : string) (rows : list Errors.LogRow) :
  List.length (Errors.set_row_timestamp p v rows) = List.length rows.
Proof.
  revert p. induction rows as [|r rest IH]; intros p; destruct p; simpl;
    try reflexivity.
  rewrite IH. reflexivity.
Qed.

Lemma set_row_timestamp_other (p q : nat) (v : string) (rows : list Errors.LogRow) :
  q <> p -> nth_error (Errors.set_row_timestamp p v rows) q = nth_error rows q.
Proof.
  revert p q. induction rows as [|r rest IH]; intros p q Hne;
    destruct p, q; simpl; try reflexivity; try congruence.
  apply IH. congruence.
Qed.

Lemma set_row_timestamp_same (p : nat) (v : string) (rows : list Errors.LogRow)
  (r : Errors.LogRow) :
  nth_error rows p = Some r ->
  nth_error (Errors.set_row_timestamp p v rows) p
  = Some (Errors.mkRow v (Errors.row_level r) (Errors.row_message r)).
Proof.
  revert p. induction rows as [|r0 rest IH]; intros p H; destruct p; simpl in *;
    try discriminate.
  - injection H as ->. reflexivity.
  - apply IH. exact H.
Qed.

(** X20.  An alarm that is already active is not raised again.  When
    the code of an incoming error (compared upper-cased and stripped)
    is among the active alarms, [handle_error_code] only rewrites the
    timestamp of that alarm's row: no row is added, the set of active
    alarms and the header are unchanged, and [on_status_change] is not
    called, so the alert level of the application stays what it was,
    even if it has been reset in the meantime. *)
Theorem X20_active_alarm_is_not_raised_again (A : Type)
  (on_status_change : option (Errors.Level -> A -> A))
  (code timestamp : string) (p : nat) (st : Errors.ErrorsView * A) :
  Errors.alarms_get (PyStr.py_upper (PyStr.py_strip code))
    (Errors.active_alarms (fst st)) = Some p ->
  let st' := Errors.handle_error_code on_status_change code timestamp st in
  snd st' = snd st /\
  List.length (Errors.logs (fst st')) = List.length (Errors.logs (fst st)) /\
  Errors.active_alarms (fst st') = Errors.active_alarms (fst st) /\
  Errors.system_ok (fst st') = Errors.system_ok (fst st) /\
  (forall q, q <> p ->
     nth_error (Errors.logs (fst st')) q = nth_error (Errors.logs (fst st)) q) /\
  (forall r, nth_error (Errors.logs (fst st)) p = Some r ->
     nth_error (Errors.logs (fst st')) p
     = Some (Errors.mkRow ("[" ++ timestamp ++ "]")
               (Errors.row_level r) (Errors.row_message r))).
Proof.
  intros Hact st'. subst st'. unfold Errors.handle_error_code. rewrite Hact. simpl.
  repeat split.
  - apply set_row_timestamp_length.
  - intros q Hq. apply set_row_timestamp_other. exact Hq.
  - intros r Hr. apply set_row_timestamp_same. exact Hr.
Qed.

(** X20 witness: W1 reported twice, the second time in lower case
    with blanks around it; in between the operator opened the errors
    tab, which reset the alert level to NONE, and NONE it stays. *)
Lemma X20_active_alarm_is_not_raised_again_witness :
  let cb := Some Main.update_global_error_state in
  let st1 := Errors.handle_error_code cb "W1" "10:00:00"
               (Errors.ErrorsView_init, Main.mkAlert Errors.NONE false false) in
  let st2 := (fst st1, Main.update_global_error_state Errors.NONE (snd st1)) in
  let st3 := Errors.handle_error_code cb " w1 " "10:00:05" st2 in
  Main.current_alert_level (snd st1) = Errors.WARNING /\
  Main.current_alert_level (snd st3) = Errors.NONE /\
  List.length (Errors.logs (fst st3)) = 1%nat.
Proof.
  intros cb st1 st2 st3.
  destruct (X20_active_alarm_is_not_raised_again Main.Alert cb " w1 " "10:00:05" 0 st2)
    as [H1 [H2 _]].
  - reflexivity.
  - split; [reflexivity|]. split.
    + fold st3 in H1. rewrite H1. reflexivity.
    + fold st3 in H2. rewrite H2. reflexivity.
Defined.

(** X21.  Error codes are matched without regard to case and
    surrounding white space: handling or sending a code and handling or
    sending its normal form (stripped, upper-cased) have the same
    effect on the log, the alarms, the alert callback and the serial
    line. *)
Theorem X21_error_codes_are_normalised (A : Type)
  (on_status_change : option (Errors.Level -> A -> A))
  (code timestamp : string) (uart_open : bool) (st : Errors.ErrorsView * A) :
  let normal := PyStr.py_upper (PyStr.py_strip code) in
  Errors.handle_error_code on_status_change code timestamp st
  = Errors.handle_error_code on_status_change normal timestamp st /\
  Errors.send_error_code on_status_change code timestamp uart_open st
  = Errors.send_error_code on_status_change normal timestamp uart_open st.
Proof.
  intros normal. subst normal.
  unfold Errors.send_error_code, Errors.handle_error_code.
  rewrite !normal_code_idem. split; reflexivity.
Qed.

(** ** The alert level of the application *)

Lemma update_keeps_lock_rule (level : Errors.Level) (a : Main.Alert) :
  locked_iff_error a -> locked_iff_error (Main.update_global_error_state level a).
Proof.
  unfold locked_iff_error. destruct a as [l jd cd]. simpl. intros [-> H].
  destruct level, l; simpl; split; try reflexivity; try exact H;
    split; intros E; try discriminate; try reflexivity.
Qed.

Lemma update_error_sticks (level : Errors.Level) (a : Main.Alert) :
  Main.current_alert_level a = Errors.ERROR -> level <> Errors.NONE ->
  Main.current_alert_level (Main.update_global_error_state level a) = Errors.ERROR.
Proof.
  destruct a as [l jd cd]. simpl. intros -> Hl.
  destruct level; simpl; try reflexivity. congruence.
Qed.

(** X22.  The alert level latches on ERROR and locks the controls.
    Whatever sequence of notifications reaches
    [update_global_error_state]: the two motion views are disabled
    together and exactly while the level is ERROR (if that held before
    the sequence); a level of ERROR survives every WARNING and is
    cleared only by NONE; and an ERROR notification with no NONE after
    it leaves the level at ERROR. *)
Theorem X22_alert_level_latches (levels : list Errors.Level) (a : Main.Alert) :
  (locked_iff_error a -> locked_iff_error (alert_after levels a)) /\
  (Main.current_alert_level a = Errors.ERROR -> ~ In Errors.NONE levels ->
   Main.current_alert_level (alert_after levels a) = Errors.ERROR) /\
  (forall later, ~ In Errors.NONE later ->
   Main.current_alert_level (alert_after (levels ++ Errors.ERROR :: later) a)
   = Errors.ERROR).
Proof.
  assert (Hstick : forall ls b, Main.current_alert_level b = Errors.ERROR ->
            ~ In Errors.NONE ls ->
            Main.current_alert_level (alert_after ls b) = Errors.ERROR).
  { induction ls as [|l rest IH]; intros b Hb Hn; simpl; [exact Hb|].
    apply IH.
    - apply update_error_sticks; [exact Hb|]. intros ->. apply Hn. left. reflexivity.
    - intros Hin. apply Hn. right. exact Hin. }
  split; [|split].
  - revert a. induction levels as [|l rest IH]; intros a Ha; simpl; [exact Ha|].
    apply IH. apply update_keeps_lock_rule. exact Ha.
  - apply Hstick.
  - intros later Hn. unfold alert_after. rewrite fold_left_app. simpl.
    apply Hstick; [|exact Hn].
    destruct (fold_left _ levels a) as [l jd cd]. reflexivity.
Qed.

(** X22 witness: from the initial alert state, an ERROR followed by
    two warnings. *)
Lemma X22_alert_level_latches_witness :
  let a := alert_after [Errors.WARNING; Errors.ERROR; Errors.WARNING; Errors.WARNING]
             (Main.mkAlert Errors.NONE false false) in
  Main.current_alert_level a = Errors.ERROR /\ locked_iff_error a.
Proof.
  destruct (X22_alert_level_latches
              [Errors.WARNING; Errors.ERROR; Errors.WARNING; Errors.WARNING]
              (Main.mkAlert Errors.NONE false false)) as [H1 _].
  destruct (X22_alert_level_latches [Errors.WARNING]
              (Main.mkAlert Errors.NONE false false)) as [_ [_ H3]].
  split.
  - apply (H3 [Errors.WARNING; Errors.WARNING]).
    simpl. intros [H|[H|[]]]; discriminate.
  - apply H1. unfold locked_iff_error. simpl. split; [reflexivity|].
    split; discriminate.
Defined.

Lemma alarms_get_set (c code : string) (p : nat) (d : list (string * nat)) :
  Errors.alarms_get c (Errors.alarms_set code p d)
  = if String.eqb c code then Some p else Errors.alarms_get c d.
Proof.
  induction d as [|[c0 p0] rest IH]; simpl.
  - reflexivity.
  - destruct (String.eqb code c0) eqn:E; simpl.
    + apply String.eqb_eq in E. subst c0.
      destruct (String.eqb c code); reflexivity.
    + rewrite IH. destruct (String.eqb c c0) eqn:E0; [|reflexivity].
      apply String.eqb_eq in E0. subst c0.
      destruct (String.eqb c code) eqn:E1; [|reflexivity].
      apply String.eqb_eq in E1. subst c. rewrite String.eqb_refl in E. discriminate.
Qed.

Lemma alarms_lock_alert (level : Errors.Level) (v : Errors.ErrorsView) (a : Main.Alert) :
  level <> Errors.NONE -> alarms_lock v a ->
  alarms_lock
    (fst (Errors._update_alert_status (Some Main.update_global_error_state) level (v, a)))
    (snd (Errors._update_alert_status (Some Main.update_global_error_state) level (v, a))).
Proof.
  intros Hl [Hc Ha]. unfold Errors._update_alert_status. simpl. split.
  - apply update_keeps_lock_rule. exact Hc.
  - intros code p message H1 H2. apply update_error_sticks; [|exact Hl].
    apply (Ha code p message); assumption.
Qed.

Lemma alarms_lock_add_log (level : Errors.Level) (message t : string)
  (v : Errors.ErrorsView) (a : Main.Alert) :
  alarms_lock v a ->
  alarms_lock
    (fst (Errors.add_log (Some Main.update_global_error_state) level message t (v, a)))
    (snd (Errors.add_log (Some Main.update_global_error_state) level message t (v, a))).
Proof.
  intros H. unfold Errors.add_log.
  destruct level.
  - pose proof (alarms_lock_alert Errors.ERROR v a) as H'.
    destruct (Errors._update_alert_status _ Errors.ERROR (v, a)) as [v' a'].
    simpl in *. apply H'; [discriminate | exact H].
  - pose proof (alarms_lock_alert Errors.WARNING v a) as H'.
    destruct (Errors._update_alert_status _ Errors.WARNING (v, a)) as [v' a'].
    simpl in *. apply H'; [discriminate | exact H].
  - exact H.
  - exact H.
Qed.

Lemma alarms_lock_handle (code t : string) (v : Errors.ErrorsView) (a : Main.Alert) :
  alarms_lock v a ->
  alarms_lock
    (fst (Errors.handle_error_code (Some Main.update_global_error_state) code t (v, a)))
    (snd (Errors.handle_error_code (Some Main.update_global_error_state) code t (v, a))).
Proof.
  intros H. unfold Errors.handle_error_code. cbn [fst snd].
  set (c := PyStr.py_upper (PyStr.py_strip code)).
  destruct (Errors.alarms_get c (Errors.active_alarms v)) as [p|] eqn:Eact.
  - exact H.
  - destruct (Errors.codes_get c Errors.ERROR_CODES) as [[level message]|] eqn:Ecode.
    + unfold Errors._add_alarm_log.
      destruct H as [Hc Ha].
      assert (Hgen : forall v' a',
                Errors.active_alarms v' = Errors.active_alarms v ->
                locked_iff_error a' ->
                (level = Errors.ERROR -> Main.current_alert_level a' = Errors.ERROR) ->
                (Main.current_alert_level a = Errors.ERROR ->
                 Main.current_alert_level a' = Errors.ERROR) ->
                alarms_lock
                  (Errors.with_logs
                     (Errors.logs
                        (Errors.with_alarms
                           (Errors.alarms_set c (List.length (Errors.logs v'))
                              (Errors.active_alarms v')) v')
                      ++ [Errors.mkRow ("[" ++ t ++ "]") level
                            ("[" ++ c ++ "] " ++ message)])
                     (Errors.with_alarms
                        (Errors.alarms_set c (List.length (Errors.logs v'))
                           (Errors.active_alarms v')) v'))
                  a').
      { intros v' a' Hv Hc' Hnew Hold. split; [exact Hc'|].
        intros code' p' m' H1 H2. simpl in H1. rewrite alarms_get_set, Hv in H1.
        destruct (String.eqb code' c) eqn:E.
        - apply String.eqb_eq in E. subst code'. rewrite Ecode in H2.
          injection H2 as -> _. apply Hnew. reflexivity.
        - apply Hold. apply (Ha code' p' m'); assumption. }
      destruct level.
      * apply (Hgen (Errors.with_system_ok false v)
                 (Main.update_global_error_state Errors.ERROR a));
          [reflexivity | apply update_keeps_lock_rule; exact Hc | |].
        -- intros _. destruct a; reflexivity.
        -- intros _. destruct a; reflexivity.
      * apply (Hgen (Errors.with_system_ok false v)
                 (Main.update_global_error_state Errors.WARNING a));
          [reflexivity | apply update_keeps_lock_rule; exact Hc | |].
        -- discriminate.
        -- intros E. apply update_error_sticks; [exact E | discriminate].
      * apply (Hgen v a); auto. discriminate.
      * apply (Hgen v a); auto. discriminate.
    + apply alarms_lock_add_log. exact H.
Qed.

Lemma locked_iff_error_init : locked_iff_error (Main.mkAlert Errors.NONE false false).
Proof. unfold locked_iff_error. simpl. split; [reflexivity|]. split; discriminate. Qed.

Lemma alert_step_keeps_lock (ev : alert_event) (app : Main.App) :
  error_alarms_lock app -> error_alarms_lock (alert_step ev app).
Proof.
  unfold error_alarms_lock. intros H.
  destruct ev as [code t | code t uo | level message t | t | t t' uo | mode_name];
    simpl.
  - unfold Main.errors_call. simpl. apply alarms_lock_handle. exact H.
  - unfold Main.global_error_handler, Main.errors_call, Errors.send_error_code.
    pose proof (alarms_lock_handle (PyStr.py_upper (PyStr.py_strip code)) t _ _ H) as H'.
    destruct (Errors.handle_error_code _ _ t (Main.ERRORS app, Main.alert app))
      as [v' a'].
    destruct uo; simpl in *; exact H'.
  - unfold Main.errors_call. simpl. apply alarms_lock_add_log. exact H.
  - unfold Main.errors_call, Errors._clear_logs. simpl.
    split; [exact (proj1 H) | intros code p message H1; discriminate].
  - unfold Main.errors_call, Errors._reset_robot_errors. simpl.
    assert (H0 : alarms_lock
                   (Errors.with_logs
                      (Errors.logs (Main.ERRORS app)
                       ++ [Errors.mkRow ("[" ++ t ++ "]") Errors.INFO
                             "Resetting robot errors..."])
                      (Errors.with_alarms []
                         (Errors.with_system_ok true (Main.ERRORS app))))
                   (Main.update_global_error_state Errors.NONE (Main.alert app))).
    { split; [apply update_keeps_lock_rule; exact (proj1 H)|].
      intros code p message H1; discriminate. }
    destruct uo; simpl.
    + destruct H0 as [H1 H2]. split; [exact H1 | exact H2].
    + pose proof (alarms_lock_add_log Errors.WARNING
                    "Cannot send reset command: UART disconnected." t' _ _ H0) as H'.
      exact H'.
  - unfold Main.wrapped_change_mode_clicked.
    assert (H1 : alarms_lock (Main.ERRORS app)
                   (Main.alert
                      (if String.eqb mode_name "ERRORS"
                       then match Main.current_alert_level (Main.alert app) with
                            | Errors.WARNING =>
                                Main.with_alert
                                  (Main.update_global_error_state Errors.NONE
                                     (Main.alert app)) app
                            | _ => app
                            end
                       else app))).
    { destruct (String.eqb mode_name "ERRORS"); [|exact H].
      destruct (Main.current_alert_level (Main.alert app)) eqn:El; try exact H.
      split; [apply (update_keeps_lock_rule Errors.NONE); exact (proj1 H)|].
      intros code p message Ha Hb.
      rewrite (proj2 H code p message Ha Hb) in El. discriminate. }
    set (app1 := if String.eqb mode_name "ERRORS" then _ else app) in *.
    assert (He : Main.ERRORS app1 = Main.ERRORS app).
    { unfold app1. destruct (String.eqb mode_name "ERRORS"); [|reflexivity].
      destruct (Main.current_alert_level (Main.alert app)); reflexivity. }
    rewrite <- He in H1.
    destruct (String.eqb mode_name "CARTESIAN").
    + destruct (Jog.initial_sync_done (Main.JOG app1)); exact H1.
    + destruct (String.eqb mode_name "JOG"); [|exact H1].
      destruct (for_each _ _ (Main.JOG app1)) as [jog ok]. exact H1.
Qed.

(** Every state the application reaches from its start satisfies the
    invariant. *)
Lemma reachable_alarms_lock (loaded : option Chain) (e : Collaborators)
  (evs : list alert_event) :
  error_alarms_lock (alert_run evs (Main.App_init loaded e)).
Proof.
  unfold alert_run.
  assert (H : forall l a, error_alarms_lock a ->
            error_alarms_lock (fold_left (fun a ev => alert_step ev a) l a)).
  { induction l as [|ev rest IH]; intros a Ha; simpl; [exact Ha|].
    apply IH. apply alert_step_keeps_lock. exact Ha. }
  apply H. split; [apply locked_iff_error_init|].
  intros c q m Hq. discriminate.
Qed.

(** X23.  An active alarm of level ERROR keeps the controls locked.
    Starting from the application as built, after any sequence of
    events that reach the errors view or the alert level (codes from
    the serial line, codes reported by the motion views, free-text log
    lines, Clear History, Reset Robot Errors, any footer button): if a
    code whose level in the table is ERROR is among the active alarms,
    the alert level is ERROR and both motion views are disabled. *)
Theorem X23_error_alarm_keeps_controls_locked (loaded : option Chain)
  (e : Collaborators) (evs : list alert_event) (code message : string) (p : nat) :
  let app := alert_run evs (Main.App_init loaded e) in
  Errors.alarms_get code (Errors.active_alarms (Main.ERRORS app)) = Some p ->
  Errors.codes_get code Errors.ERROR_CODES = Some (Errors.ERROR, message) ->
  Main.current_alert_level (Main.alert app) = Errors.ERROR /\
  Main.jog_disabled (Main.alert app) = true /\
  Main.cartesian_disabled (Main.alert app) = true.
Proof.
  intros app Hact Hcode.
  destruct (reachable_alarms_lock loaded e evs) as [[Heq Hiff] Hal].
  fold app in Heq, Hiff, Hal.
  pose proof (Hal code p message Hact Hcode) as Hl.
  split; [exact Hl|]. apply Hiff in Hl. split; [exact Hl | rewrite <- Heq; exact Hl].
Qed.

(** X23 witness: an emergency-stop code, then the operator opens the
    errors tab, clears nothing, and a warning arrives. *)
Lemma X23_error_alarm_keeps_controls_locked_witness :
  let app := alert_run [GotCode "E2" "10:00:00"; FooterButton "ERRORS";
                        ViewError "W1" "10:00:07" true]
               (Main.App_init None Gantry.all_present) in
  Main.current_alert_level (Main.alert app) = Errors.ERROR /\
  Main.jog_disabled (Main.alert app) = true /\
  Main.cartesian_disabled (Main.alert app) = true.
Proof.
  apply (X23_error_alarm_keeps_controls_locked None Gantry.all_present
           [GotCode "E2" "10:00:00"; FooterButton "ERRORS";
            ViewError "W1" "10:00:07" true]
           "E2" "E-STOP Active - Emergency stop button pressed" 0).
  - reflexivity.
  - reflexivity.
Defined.

(** X24.  What Reset Robot Errors leaves behind.  The active alarms
    are cleared and both motion views are enabled in either case.  With
    the serial port open ROBOT_OK is sent and the alert level is NONE;
    with the port closed nothing is sent, a warning row is logged
    instead, and that warning raises the alert level to WARNING
    again. *)
Theorem X24_reset_robot_errors (t t' : string) (uart_open : bool) (app : Main.App) :
  let app' := Main.errors_call
                (fun cb => Errors._reset_robot_errors cb t t' uart_open) app in
  Errors.active_alarms (Main.ERRORS app') = [] /\
  Main.jog_disabled (Main.alert app') = false /\
  Main.cartesian_disabled (Main.alert app') = false /\
  Main.current_alert_level (Main.alert app')
  = (if uart_open then Errors.NONE else Errors.WARNING) /\
  Errors.sent (Main.ERRORS app')
  = (if uart_open then ["ROBOT_OK"%string] else []) ++ Errors.sent (Main.ERRORS app) /\
  Errors.system_ok (Main.ERRORS app') = uart_open /\
  List.length (Errors.logs (Main.ERRORS app'))
  = (List.length (Errors.logs (Main.ERRORS app)) + (if uart_open then 1 else 2))%nat.
Proof.
  intros app'. subst app'.
  unfold Main.errors_call, Errors._reset_robot_errors.
  destruct app as [j c [lg al ok sn] [l jd cd] ov ms].
  destruct uart_open; simpl; repeat split; rewrite ?length_app; simpl; lia.
Qed.

(** ** The application: views, errors view and alert level together *)

(** A code of level ERROR in normal form, handled in a state where
    every active ERROR alarm locks the controls: afterwards it is
    active and the controls are locked. *)
Lemma handle_error_level_code (c message t : string) (v : Errors.ErrorsView)
  (a : Main.Alert) :
  PyStr.py_upper (PyStr.py_strip c) = c ->
  Errors.codes_get c Errors.ERROR_CODES = Some (Errors.ERROR, message) ->
  alarms_lock v a ->
  let st := Errors.handle_error_code (Some Main.update_global_error_state) c t (v, a) in
  Main.current_alert_level (snd st) = Errors.ERROR /\
  Main.jog_disabled (snd st) = true /\
  Main.cartesian_disabled (snd st) = true /\
  Errors.alarms_get c (Errors.active_alarms (fst st)) <> None.
Proof.
  intros Hn Hc [[Heq Hiff] Ha] st. subst st.
  unfold Errors.handle_error_code. cbn [fst snd]. rewrite Hn.
  destruct (Errors.alarms_get c (Errors.active_alarms v)) as [p|] eqn:Eact.
  - cbn [fst snd]. pose proof (Ha c p message Eact Hc) as Hl.
    split; [exact Hl|]. pose proof (proj2 Hiff Hl) as Hj.
    split; [exact Hj|]. split; [rewrite <- Heq; exact Hj|].
    change (Errors.active_alarms (Errors.with_logs _ v)) with (Errors.active_alarms v).
    rewrite Eact. discriminate.
  - rewrite Hc. unfold Errors._add_alarm_log, Errors._update_alert_status.
    cbn [fst snd]. destruct a as [l jd cd]. cbn.
    repeat split. rewrite alarms_get_set, String.eqb_refl. discriminate.
Qed.

Lemma new_codes_one (code : string) (l : list string) :
  Main.new_codes l (code :: l) = [code].
Proof.
  unfold Main.new_codes.
  change (List.length (code :: l)) with (S (List.length l)).
  replace (S (List.length l) - List.length l)%nat with 1%nat by lia.
  reflexivity.
Qed.

Lemma error_alarms_lock_init (loaded : option Chain) (e : Collaborators) :
  error_alarms_lock (Main.App_init loaded e).
Proof.
  split; [apply locked_iff_error_init|]. intros c p m H. discriminate.
Qed.

(** X25.  A jog refused for lack of homing locks the controls.  In
    the application, pressing a jog button of the Cartesian view while
    the robot is not homed starts no worker and leaves the commanded
    joints alone; the E1 the view reports travels through
    [global_error_handler] into the errors view, which raises the alert
    level to ERROR, so that both motion views end up disabled, with E1
    among the active alarms.  (Premise on the state: active ERROR
    alarms lock the controls, which holds in every state the
    application reaches.) *)
Theorem X25_refused_jog_locks_controls (a : axis) (d : direction) (t : string)
  (uart_open : bool) (app : Main.App) :
  is_robot_homed (Main.CARTESIAN app) = false ->
  has_page (env (Main.CARTESIAN app)) = true ->
  has_on_error (env (Main.CARTESIAN app)) = true ->
  error_alarms_lock app ->
  let app' := Main.in_cartesian (fun s => fst (on_jog_start a d s)) t uart_open app in
  snd (on_jog_start a d (Main.CARTESIAN app)) = None /\
  commanded_joints (Main.CARTESIAN app') = commanded_joints (Main.CARTESIAN app) /\
  Main.current_alert_level (Main.alert app') = Errors.ERROR /\
  Main.jog_disabled (Main.alert app') = true /\
  Main.cartesian_disabled (Main.alert app') = true /\
  Errors.alarms_get "E1" (Errors.active_alarms (Main.ERRORS app')) <> None.
Proof.
  intros Hh Hp He Hinv app'.
  assert (Ev : on_jog_start a d (Main.CARTESIAN app)
               = (with_dialog (Some "HOMING REQUIRED"%string)
                    (with_error_log ("E1"%string :: error_log (Main.CARTESIAN app))
                       (Main.CARTESIAN app)), None)).
  { unfold on_jog_start, show_homing_required_dialog, report.
    rewrite Hh, Hp, He. reflexivity. }
  split; [rewrite Ev; reflexivity|].
  subst app'. unfold Main.in_cartesian. rewrite Ev. cbn [fst].
  change (error_log (with_dialog _ (with_error_log ?l _))) with l.
  rewrite new_codes_one. unfold Main.deliver. cbn [fold_left].
  unfold Main.global_error_handler, Main.errors_call, Errors.send_error_code.
  change (PyStr.py_upper (PyStr.py_strip "E1")) with "E1"%string.
  pose proof (handle_error_level_code "E1"
                "Not Homed - Robot requires homing before movement" t
                (Main.ERRORS app) (Main.alert app) eq_refl eq_refl Hinv) as H.
  cbv zeta in H.
  change (Main.ERRORS (Main.with_CARTESIAN _ app)) with (Main.ERRORS app).
  change (Main.alert (Main.with_CARTESIAN _ app)) with (Main.alert app).
  destruct (Errors.handle_error_code _ "E1" t (Main.ERRORS app, Main.alert app))
    as [v' a'].
  cbn [fst snd] in H. destruct H as [H1 [H2 [H3 H4]]].
  destruct uart_open; cbn; auto.
Qed.

(** X25 witness: the first jog press in the application as built. *)
Lemma X25_refused_jog_locks_controls_witness :
  let app' := Main.in_cartesian (fun s => fst (on_jog_start AxX Plus s)) "10:00:00"
                true (Main.App_init None Gantry.all_present) in
  Main.current_alert_level (Main.alert app') = Errors.ERROR /\
  Main.cartesian_disabled (Main.alert app') = true.
Proof.
  destruct (X25_refused_jog_locks_controls AxX Plus "10:00:00" true
              (Main.App_init None Gantry.all_present))
    as [_ [_ [H1 [_ [H2 _]]]]].
  - reflexivity.
  - reflexivity.
  - reflexivity.
  - apply error_alarms_lock_init.
  - split; assumption.
Defined.

Lemma contains_nonempty (needle s : string) :
  needle <> EmptyString -> PyStr.contains needle s = true -> PyStr.is_empty s = false.
Proof.
  intros Hn H. destruct s; [|reflexivity].
  destruct needle; [congruence | discriminate].
Qed.

(** X26.  An emergency-stop line un-homes the robot and locks the
    controls.  Any serial line that contains ESTOP_TRIGGER, whatever
    else it contains, is handled by the first branch of
    [handle_uart_data]: both motion views lose their homed flag, the
    overlay is shown, E2 becomes an active alarm, the alert level is
    ERROR and both views are disabled; their targets and commanded
    joints are untouched, and every jog request is refused from then
    on.  (Same premise on the state as X25.) *)
Theorem X26_emergency_stop_line (line t : string) (app : Main.App) :
  PyStr.contains "ESTOP_TRIGGER" (PyStr.py_strip line) = true ->
  error_alarms_lock app ->
  exists app',
    Main.handle_uart_data line t app = Some app' /\
    is_robot_homed (Main.CARTESIAN app') = false /\
    Jog.is_robot_homed (Main.JOG app') = false /\
    Main.estop_overlay_visible app' = true /\
    Main.current_alert_level (Main.alert app') = Errors.ERROR /\
    Main.jog_disabled (Main.alert app') = true /\
    Main.cartesian_disabled (Main.alert app') = true /\
    Errors.alarms_get "E2" (Errors.active_alarms (Main.ERRORS app')) <> None /\
    commanded_joints (Main.CARTESIAN app') = commanded_joints (Main.CARTESIAN app) /\
    Jog.internal_target_values (Main.JOG app')
    = Jog.internal_target_values (Main.JOG app) /\
    (forall a d, snd (on_jog_start a d (Main.CARTESIAN app')) = None) /\
    (forall code d, snd (Jog.on_jog_start code d (Main.JOG app')) = None).
Proof.
  intros Hc Hinv. unfold Main.handle_uart_data.
  rewrite (contains_nonempty "ESTOP_TRIGGER" _ ltac:(discriminate) Hc), Hc.
  eexists. split; [reflexivity|].
  unfold Main.errors_call.
  pose proof (handle_error_level_code "E2"
                "E-STOP Active - Emergency stop button pressed" t
                (Main.ERRORS app) (Main.alert app) eq_refl eq_refl Hinv) as H.
  cbv zeta in H. cbn [Main.ERRORS Main.alert Main.with_overlay Main.with_CARTESIAN
                      Main.with_JOG Main.CARTESIAN Main.JOG].
  destruct (Errors.handle_error_code _ "E2" t (Main.ERRORS app, Main.alert app))
    as [v' a'].
  cbn [fst snd] in H. destruct H as [H1 [H2 [H3 H4]]].
  cbn. repeat split; try assumption; intros; reflexivity.
Qed.

(** X26 witness: the line, with blanks around it, arriving in the
    application as built. *)
Lemma X26_emergency_stop_line_witness :
  exists app',
    Main.handle_uart_data " ESTOP_TRIGGER " "10:00:00"
      (Main.App_init None Gantry.all_present) = Some app' /\
    Main.current_alert_level (Main.alert app') = Errors.ERROR /\
    Main.estop_overlay_visible app' = true.
Proof.
  destruct (X26_emergency_stop_line " ESTOP_TRIGGER " "10:00:00"
              (Main.App_init None Gantry.all_present))
    as [app' [E [_ [_ [H1 [H2 _]]]]]].
  - reflexivity.
  - apply error_alarms_lock_init.
  - exists app'. auto.
Defined.

(** X27.  A homing-complete line homes both views but does not touch
    the alert level.  A serial line that contains HOMING_COMPLETE_OK
    and none of the emergency-stop markers sets the homed flag of both
    motion views, resets the joint view's targets to zero and marks it
    synchronised, leaves the Cartesian view's commanded joints as they
    are, opens the electric gripper if that is the selected tool, and
    logs HMD without calling the alert callback: controls that an
    earlier error disabled stay disabled.  An idle Cartesian view
    accepts jog requests from then on. *)
Theorem X27_homing_complete_line (line t : string) (app : Main.App) :
  let s := PyStr.py_strip line in
  PyStr.contains "ESTOP_TRIGGER" s = false ->
  PyStr.contains "ESTOP_RELEASE" s = false ->
  PyStr.contains "ESTOP_OFF" s = false ->
  PyStr.contains "HOMING_COMPLETE_OK" s = true ->
  exists app',
    Main.handle_uart_data line t app = Some app' /\
    is_robot_homed (Main.CARTESIAN app') = true /\
    Jog.is_robot_homed (Main.JOG app') = true /\
    Jog.internal_target_values (Main.JOG app') = Jog.zero_joints /\
    Jog.initial_sync_done (Main.JOG app') = true /\
    commanded_joints (Main.CARTESIAN app') = commanded_joints (Main.CARTESIAN app) /\
    Main.alert app' = Main.alert app /\
    Main.main_sent app'
    = (if String.eqb (current_tool (ik (Main.CARTESIAN app))) "CHWYTAK_DUZY"
       then ["EGRIP_OPEN"%string] else []) ++ Main.main_sent app /\
    (is_jogging (Main.CARTESIAN app) = false ->
     forall a d, snd (on_jog_start a d (Main.CARTESIAN app')) = Some (JogThread a d)).
Proof.
  intros s H1 H2 H3 H4. unfold Main.handle_uart_data. fold s.
  rewrite (contains_nonempty "HOMING_COMPLETE_OK" _ ltac:(discriminate) H4).
  rewrite H1, H2, H3, H4. cbn [orb].
  eexists. split; [reflexivity|].
  unfold Main.errors_call, Errors.handle_error_code.
  change (PyStr.py_upper (PyStr.py_strip "HMD")) with "HMD"%string.
  change (Errors.codes_get "HMD" Errors.ERROR_CODES)
    with (Some (Errors.INFO, "Homing Done - Robot successfully homed"%string)).
  destruct app as [jog cart ev al ov ms].
  cbn [Main.JOG Main.CARTESIAN Main.ERRORS Main.alert Main.with_JOG Main.with_CARTESIAN
       Main.with_main_sent Main.main_sent Main.estop_overlay_visible fst snd].
  destruct (String.eqb (current_tool (ik (set_homed_status true cart))) "CHWYTAK_DUZY")
    eqn:Et;
    change (current_tool (ik (set_homed_status true cart)))
      with (current_tool (ik cart)) in Et; rewrite Et;
    cbn [Main.JOG Main.CARTESIAN Main.ERRORS Main.alert Main.with_JOG
         Main.with_CARTESIAN Main.with_main_sent Main.main_sent fst snd];
    destruct (Errors.alarms_get "HMD" (Errors.active_alarms ev));
    cbn; repeat split; intros Hj a d; unfold on_jog_start; cbn; rewrite Hj; reflexivity.
Qed.

(** X27 witness: the line arriving in the application as built. *)
Lemma X27_homing_complete_line_witness :
  exists app',
    Main.handle_uart_data "HOMING_COMPLETE_OK" "10:00:00"
      (Main.App_init None Gantry.all_present) = Some app' /\
    is_robot_homed (Main.CARTESIAN app') = true /\
    Jog.is_robot_homed (Main.JOG app') = true.
Proof.
  destruct (X27_homing_complete_line "HOMING_COMPLETE_OK" "10:00:00"
              (Main.App_init None Gantry.all_present))
    as [app' [E [H1 [H2 _]]]]; try reflexivity.
  exists app'. auto.
Defined.





Lemma radians_dead_band (v : R) :
  0.5 < Rabs v -> np_radians 0.5 < Rabs (0 - np_radians v).
Proof.
  intros H. unfold np_radians.
  assert (Hk : 0 < PI / 180) by (pose proof PI_RGT_0; lra).
  replace (0 - v * PI / 180) with (- v * (PI / 180)) by lra.
  rewrite Rabs_mult, Rabs_Ropp, (Rabs_pos_eq (PI / 180)) by lra.
  replace (0.5 * PI / 180) with (0.5 * (PI / 180)) by lra.
  apply Rmult_lt_compat_r; assumption.
Qed.

(** X29.  The two motion views read a feedback frame with opposite
    signs.  When the first [A_] frame reaches the application as built
    (no motion, at least 1.5 s on the clock), the joint view takes the
    negated values as its targets, while the Cartesian view stores the
    values as they come and moves every commanded joint that is more
    than 0.5 degrees off to the value itself, in radians.  Entering the
    Cartesian tab afterwards overwrites its commanded joints with the
    joint view's targets, that is with the negated feedback. *)
Theorem X29_feedback_frame_two_signs (v1 v2 v3 v4 v5 v6 now : R)
  (loaded : option Chain) (e : Collaborators) :
  1.5 <= now ->
  let vs := [v1; v2; v3; v4; v5; v6] in
  let app := Main.on_joint_frame v1 v2 v3 v4 v5 v6 now (Main.App_init loaded e) in
  Jog.internal_target_values (Main.JOG app)
  = joint_dict (- v1) (- v2) (- v3) (- v4) (- v5) (- v6) /\
  feedback_joints_deg (Main.CARTESIAN app) = vs /\
  (forall i, (i < 6)%nat -> 0.5 < Rabs (nth i vs 0) ->
     nth i (commanded_joints (Main.CARTESIAN app)) 0 = np_radians (nth i vs 0)) /\
  commanded_joints
    (Main.CARTESIAN (Main.wrapped_change_mode_clicked "CARTESIAN" app))
  = map (fun v => np_radians (- v)) vs.
Proof.
  intros Hnow vs app.
  set (jv := [("J1"%string, v1); ("J2"%string, v2); ("J3"%string, v3);
              ("J4"%string, v4); ("J5"%string, v5); ("J6"%string, v6)]).
  destruct (update_from_feedback_unlocked jv now (CartesianView_init loaded e))
    as [fb [cmd [E [Lf [Lc [Hf Hcm]]]]]]; try reflexivity.
  { simpl. lra. }
  assert (Ecart : Main.CARTESIAN app = with_commanded cmd
                    (with_feedback fb (CartesianView_init loaded e))).
  { subst app. unfold Main.on_joint_frame. cbn [Main.CARTESIAN Main.with_CARTESIAN
      Main.with_JOG Main.App_init]. exact E. }
  assert (Efb : fb = vs).
  { apply (nth_ext _ _ 0 0); [rewrite Lf; reflexivity|].
    intros i Hi. rewrite Lf in Hi. rewrite (Hf i Hi).
    destruct i as [|[|[|[|[|[|i]]]]]]; try reflexivity; lia. }
  split; [reflexivity|]. split; [rewrite Ecart; exact Efb|]. split.
  - intros i Hi Hbig. rewrite Ecart. cbn [commanded_joints with_commanded].
    rewrite (Hcm i Hi), Efb.
    replace (nth i (commanded_joints (CartesianView_init loaded e)) 0) with 0.
    + rewrite Rltb_true by (apply radians_dead_band; exact Hbig). reflexivity.
    + destruct i as [|[|[|[|[|[|i]]]]]]; try reflexivity; lia.
  - reflexivity.
Qed.

(** X29 witness: a frame reporting 10 degrees on every joint two
    seconds after start-up. *)
Lemma X29_feedback_frame_two_signs_witness :
  let app := Main.on_joint_frame 10 10 10 10 10 10 2
               (Main.App_init None Gantry.all_present) in
  nth 0 (commanded_joints (Main.CARTESIAN app)) 0 = np_radians 10 /\
  nth 0 (commanded_joints
           (Main.CARTESIAN (Main.wrapped_change_mode_clicked "CARTESIAN" app))) 0
  = np_radians (- 10).
Proof.
  intros app.
  destruct (X29_feedback_frame_two_signs 10 10 10 10 10 10 2 None Gantry.all_present)
    as [_ [_ [H1 H2]]]; [lra|].
  split.
  - apply (H1 0%nat); [lia|]. simpl. unfold Rabs. destruct (Rcase_abs 10); lra.
  - fold app in H2. rewrite H2. reflexivity.
Defined.

(** ** The serial line *)

Lemma split_lines_no_newline (s : string) :
  (forall c, In c (list_ascii_of_string s) -> c <> PyStr.newline) ->
  PyStr.split_lines (s ++ String PyStr.newline EmptyString) = [s; EmptyString].
Proof.
  induction s as [|c r IH]; intros H.
  - reflexivity.
  - simpl in H. change ((String c r ++ String PyStr.newline EmptyString)%string)
      with (String c (r ++ String PyStr.newline EmptyString)).
    cbn [PyStr.split_lines]. rewrite IH by (intros x Hx; apply H; right; exact Hx).
    destruct (Ascii.eqb c PyStr.newline) eqn:E; [|reflexivity].
    apply Ascii.eqb_eq in E. exfalso. apply (H c); [left; reflexivity | exact E].
Qed.

(** X30.  What goes over the serial line and what comes back.
    [send_message] on a closed port returns [False] and writes
    nothing; on an open port it writes the stripped message followed
    by one line feed.  Every line the read loop delivers is non-empty
    and free of surrounding white space.  And the two fit together: a
    message without an inner line feed, once written and read back in
    one chunk, is delivered as exactly one line, the stripped message
    (or not at all if that is empty). *)
Theorem X30_serial_line_round_trip (message chunk : string)
  (u : Uart.UARTCommunicator) :
  (Uart.is_open u = false -> Uart.send_message message u = (false, u)) /\
  (Uart.is_open u = true ->
   Uart.send_message message u
   = (true, Uart.mkUart true
              ((PyStr.py_strip message ++ String PyStr.newline EmptyString)%string
                 :: Uart.written u))) /\
  (forall line, In line (Uart.received_lines chunk) ->
     line <> EmptyString /\ PyStr.py_strip line = line) /\
  ((forall c, In c (list_ascii_of_string (PyStr.py_strip message)) ->
      c <> PyStr.newline) ->
   Uart.received_lines
     (PyStr.py_strip message ++ String PyStr.newline EmptyString)%string
   = if PyStr.is_empty (PyStr.py_strip message) then []
     else [PyStr.py_strip message]).
Proof.
  split; [|split; [|split]].
  - intros H. unfold Uart.send_message. rewrite H. reflexivity.
  - intros H. unfold Uart.send_message. rewrite H. simpl.
    unfold Uart.is_open in H. rewrite H. reflexivity.
  - intros line Hin. unfold Uart.received_lines in Hin.
    apply filter_In in Hin. destruct Hin as [Hin Hne].
    apply in_map_iff in Hin. destruct Hin as [x [<- _]].
    split; [|apply py_strip_idem].
    intros E. rewrite E in Hne. discriminate.
  - intros H. unfold Uart.received_lines.
    rewrite (split_lines_no_newline _ H). simpl. rewrite py_strip_idem.
    destruct (PyStr.is_empty (PyStr.py_strip message)); reflexivity.
Qed.

(** X30 witness: the HOME command with blanks around it, on an open
    port. *)
Lemma X30_serial_line_round_trip_witness :
  Uart.received_lines
    (PyStr.py_strip "  HOME " ++ String PyStr.newline EmptyString)%string
  = ["HOME"%string].
Proof.
  destruct (X30_serial_line_round_trip "  HOME " EmptyString (Uart.mkUart true []))
    as [_ [_ [_ H]]].
  rewrite H; [reflexivity|].
  intros c Hin. simpl in Hin.
  destruct Hin as [<- | [<- | [<- | [<- | []]]]]; discriminate.
Defined.

